(** * webcondx: the ionospheric ray-tracing core of physics.js

    A shallow embedding of the physics model of the CondX web version
    (chapmanLayer .. traceRay2DWithAbsorption) and the properties of
    its density model, refractive index and ray integrators; of the
    data the plot functions of visualizations.js hand to the plotting
    library; and of the day/night indicator of main.js.

    Numbers.  A JavaScript number is modelled as a real number with
    exact arithmetic: [+ - * /] are the field operations of [R],
    [Math.sqrt], [Math.exp], [Math.sin], [Math.cos] are the real
    functions, comparisons are decided exactly.  Rounding, NaN and the
    infinities of IEEE-754 arithmetic are outside this model; the
    statements below are read on inputs where the JavaScript
    computation stays finite.

    Locals.  A [let]/[const] of the source that is assigned in several
    branches is bound once per assignment, in source order.  A local
    that a property names (D_factor, F1_factor, h_F2, ...) is a
    definition of its own, a function of the inputs it depends on. *)

From Stdlib Require Import Reals Lra Lia List String ZArith Bool Arith.
Import ListNotations.

Open Scope R_scope.

(* ================================================================== *)
(** ** The JavaScript operators and the Math object, on real numbers *)
(* ================================================================== *)

Module JS.

Definition ltb (x y : R) : bool := if Rlt_dec x y then true else false.
Definition leb (x y : R) : bool := if Rle_dec x y then true else false.
Definition gtb (x y : R) : bool := ltb y x.
Definition geb (x y : R) : bool := leb y x.

Definition Math_PI : R := PI.
Definition Math_sqrt (x : R) : R := sqrt x.
Definition Math_exp (x : R) : R := exp x.
Definition Math_sin (x : R) : R := sin x.
Definition Math_cos (x : R) : R := cos x.
Definition Math_abs (x : R) : R := Rabs x.
Definition Math_max (x y : R) : R := Rmax x y.
Definition Math_min (x y : R) : R := Rmin x y.

(** [Math.pow(x, n)] for a natural exponent (the source only squares). *)
Definition Math_pow (x : R) (n : nat) : R := x ^ n.

(** [Math.sign]: 1, -1 or 0. *)
Definition Math_sign (x : R) : R :=
  if ltb 0 x then 1 else if ltb x 0 then -1 else 0.

(** [Math.floor], as an integer. *)
Definition Math_floor (x : R) : Z := Int_part x.

(** [Math.atan2(y, x)]: the angle of the point (x, y), in (-PI, PI]. *)
Definition Math_atan2 (y x : R) : R :=
  if ltb 0 x then atan (y / x)
  else if ltb x 0 then
    (if leb 0 y then atan (y / x) + PI else atan (y / x) - PI)
  else if ltb 0 y then PI / 2
  else if ltb y 0 then - (PI / 2)
  else 0.

End JS.

Import JS.

Declare Scope js_scope.
Delimit Scope js_scope with js.
Infix "<?" := JS.ltb (at level 70, no associativity) : js_scope.
Infix "<=?" := JS.leb (at level 70, no associativity) : js_scope.
Infix ">?" := JS.gtb (at level 70, no associativity) : js_scope.
Infix ">=?" := JS.geb (at level 70, no associativity) : js_scope.
Open Scope js_scope.

(** [season === 'winter'] on strings. *)
Definition season_is (season name : string) : bool := String.eqb season name.

(* ================================================================== *)
(** ** Physical constants *)
(* ================================================================== *)

Definition R_E : R := 6371.0.
Definition c : R := 3.0e8.

(* ================================================================== *)
(** ** Density model *)
(* ================================================================== *)

Definition chapmanLayerSingle (z N_peak z_peak H : R) : R :=
  let reduced_z := (z - z_peak) / H in
  let exponent := 1.0 - reduced_z - Math_exp (- reduced_z) in
  N_peak * Math_exp exponent.

Definition chapmanLayer (z : list R) (N_peak z_peak H : R) : list R :=
  map (fun altitude =>
         let reduced_z := (altitude - z_peak) / H in
         let exponent := 1.0 - reduced_z - Math_exp (- reduced_z) in
         N_peak * Math_exp exponent) z.

(** The locals of [makeIonosphereForFoF2] (and of its single-point copy
    [electronDensitySingle], which computes them by the same text). *)

Definition Ne_F2_peak (foF2 : R) : R :=
  let f_F2_Hz := foF2 * 1e6 in
  Math_pow (f_F2_Hz / 8.98) 2.

(** [h_F2] after the regime branch, before the seasonal adjustment. *)
Definition h_F2_regime (foF2 : R) : R :=
  if foF2 <? 4.5 then
    let h_F2 := 260.0 + (4.5 - foF2) * 36.0 in
    Math_max 260.0 (Math_min 350.0 h_F2)
  else if foF2 <? 7.0 then
    let transition_factor := (foF2 - 4.5) / 2.5 in
    300.0 - transition_factor * 20.0
  else
    let h_F2 := 300.0 - (foF2 - 7.0) * 2.0 in
    Math_max 250.0 (Math_min 300.0 h_F2).

Definition seasonal_offset (foF2 : R) (season : string) : R :=
  if foF2 >=? 7.0 then
    if season_is season "summer" then -10.0
    else if season_is season "winter" then 10.0
    else 0.0
  else if foF2 >=? 4.5 then
    if season_is season "summer" then -10.0
    else if season_is season "winter" then 15.0
    else 0.0
  else
    if season_is season "summer" then -10.0
    else if season_is season "winter" then 15.0
    else 0.0.

(** [h_F2] as passed to the F2 Chapman layer: offset added, re-clamped. *)
Definition h_F2 (foF2 : R) (season : string) : R :=
  let h_F2 := h_F2_regime foF2 + seasonal_offset foF2 season in
  if foF2 <? 4.5 then Math_max 260.0 (Math_min 360.0 h_F2)
  else if foF2 <? 7.0 then Math_max 280.0 (Math_min 320.0 h_F2)
  else Math_max 240.0 (Math_min 330.0 h_F2).

Definition D_factor (foF2 : R) : R :=
  if foF2 <? 5.0 then 0.0
  else if foF2 <? 8.0 then (foF2 - 5.0) / 3.0
  else 1.0.

Definition Ne_D_peak (foF2 : R) : R := 1.5e9 * D_factor foF2.

Definition F1_factor (foF2 : R) : R :=
  if foF2 <? 4.5 then 0.0
  else if foF2 <? 7.0 then (foF2 - 4.5) / 2.5
  else 1.0.

Definition Ne_F1_peak (foF2 : R) : R := 6e11 * F1_factor foF2.

Definition E_factor (foF2 : R) : R :=
  0.5 + 0.5 * Math_min 1.0 (foF2 / 12.0).

Definition Ne_E_peak (foF2 : R) : R := 8e10 * E_factor foF2.

Definition F2_scale_height (foF2 : R) (season : string) : R :=
  let F2_scale_height :=
    if foF2 <? 4.5 then 70.0
    else if foF2 <? 7.0 then
      let transition_factor := (foF2 - 4.5) / 2.5 in
      70.0 - transition_factor * 15.0
    else 55.0 in
  if season_is season "winter" then F2_scale_height * 1.2
  else if season_is season "summer" then F2_scale_height * 0.8
  else F2_scale_height.

(** [arr[i]] on an array of numbers, for an index inside the array. *)
Definition index (arr : list R) (i : nat) : R := nth i arr 0.

Definition makeIonosphereForFoF2 (z : list R) (foF2 : R) (season : string)
  : list R :=
  let Ne_D := chapmanLayer z (Ne_D_peak foF2) 75.0 8.0 in
  let Ne_E := chapmanLayer z (Ne_E_peak foF2) 110.0 15.0 in
  let Ne_F1 := chapmanLayer z (Ne_F1_peak foF2) 190.0 30.0 in
  let Ne_F2 :=
    chapmanLayer z (Ne_F2_peak foF2) (h_F2 foF2 season)
                 (F2_scale_height foF2 season) in
  map (fun i => index Ne_D i + index Ne_E i + index Ne_F1 i + index Ne_F2 i)
      (seq 0 (List.length z)).

Definition makeTiltedIonosphere2D (z : list R)
    (x foF2_at_tx foF2_at_distance tilt_distance : R) (season : string)
  : list R :=
  let foF2_local :=
    foF2_at_tx + (foF2_at_distance - foF2_at_tx) * (x / tilt_distance) in
  let foF2_clamped := Math_max 2.0 (Math_min 25.0 foF2_local) in
  makeIonosphereForFoF2 z foF2_clamped season.

Definition electronDensitySingle (z foF2 : R) (season : string) : R :=
  let Ne_D := chapmanLayerSingle z (Ne_D_peak foF2) 75.0 8.0 in
  let Ne_E := chapmanLayerSingle z (Ne_E_peak foF2) 110.0 15.0 in
  let Ne_F1 := chapmanLayerSingle z (Ne_F1_peak foF2) 190.0 30.0 in
  let Ne_F2 :=
    chapmanLayerSingle z (Ne_F2_peak foF2) (h_F2 foF2 season)
                       (F2_scale_height foF2 season) in
  Ne_D + Ne_E + Ne_F1 + Ne_F2.

Definition electronDensity2DSingle
    (z x foF2_at_tx foF2_at_distance tilt_distance : R) (season : string)
  : R :=
  let foF2_local :=
    foF2_at_tx + (foF2_at_distance - foF2_at_tx) * (x / tilt_distance) in
  let foF2_clamped := Math_max 2.0 (Math_min 25.0 foF2_local) in
  electronDensitySingle z foF2_clamped season.

(* ================================================================== *)
(** ** Plasma and absorption model *)
(* ================================================================== *)

Record Complex : Type := mkComplex { real : R; imag : R }.

Definition plasmaFrequencyFromNe (Ne : R) : R :=
  let e := 1.602176634e-19 in
  let m_e := 9.1093837015e-31 in
  let eps_0 := 8.8541878128e-12 in
  Math_sqrt (Ne * e * e / (eps_0 * m_e)) / (2.0 * Math_PI).

Definition collisionFrequency (z : R) : R :=
  if z <? 90.0 then 3.5e5 * Math_exp (- (z - 70.0) / 8.0)
  else if z <? 150.0 then 1.0e5 * Math_exp (- (z - 90.0) / 20.0)
  else 1.0e3.

Definition refractiveIndex (Ne freq_Hz nu : R) : Complex :=
  let omega := 2.0 * Math_PI * freq_Hz in
  let omega_p := 2.0 * Math_PI * plasmaFrequencyFromNe Ne in
  let X := Math_pow (omega_p / omega) 2 in
  let Z := nu / omega in
  let denom := 1.0 + Z * Z in
  let n_sq_real := 1.0 - X / denom in
  let n_sq_imag := X * Z / denom in
  let magnitude :=
    Math_sqrt (Math_sqrt (n_sq_real * n_sq_real + n_sq_imag * n_sq_imag)) in
  let phase := Math_atan2 n_sq_imag n_sq_real / 2.0 in
  {| real := magnitude * Math_cos phase;
     imag := magnitude * Math_sin phase |}.

Definition absorptionCoefficient (Ne freq_Hz nu : R) : R :=
  let omega := 2.0 * Math_PI * freq_Hz in
  let n := refractiveIndex Ne freq_Hz nu in
  let n_sq_imag := 2.0 * real n * imag n in
  let alpha_per_m :=
    (omega / (2.0 * c)) * Math_abs n_sq_imag / Math_max (real n) 1e-10 in
  alpha_per_m * 1000.0.

(* ================================================================== *)
(** ** Ray integrator: data *)
(* ================================================================== *)

Inductive Status : Type := returns | escapes | stops.

(** The object a tracer returns.  A key the variant's object does not
    have ([azimuths] in 1D, [total_loss_dB] without absorption) is
    [None]. *)
Record RayTraceResult : Type := mkResult {
  distances : list R;
  altitudes : list R;
  azimuths : option (list R);
  total_loss_dB : option R;
  status : Status
}.

(** The mutable locals of a tracer at the head of a loop iteration.  A
    variant that does not declare a local never writes its field. *)
Record RayState : Type := mkState {
  ray_r : R;
  ray_theta : R;
  ray_x : R;
  ray_phi : R;
  ray_total_loss_nepers : R;
  ray_going_up : bool;
  ray_distances : list R;
  ray_altitudes : list R;
  ray_azimuths : list R
}.

(** The locals before the loop: [r = R_E], [theta = x = phi = 0],
    no loss, [going_up = true], one sample [0.0] in each array. *)
Definition initial_state : RayState :=
  {| ray_r := R_E; ray_theta := 0.0; ray_x := 0.0; ray_phi := 0.0;
     ray_total_loss_nepers := 0.0; ray_going_up := true;
     ray_distances := [0.0]; ray_altitudes := [0.0];
     ray_azimuths := [0.0] |}.

(** [arr.push(v)]. *)
Definition push (arr : list R) (v : R) : list R := arr ++ [v].

(** The four shapes of returned object. *)
Definition result_path (st : RayState) (s : Status) : RayTraceResult :=
  {| distances := ray_distances st; altitudes := ray_altitudes st;
     azimuths := None; total_loss_dB := None; status := s |}.

Definition result_absorption (st : RayState) (s : Status) : RayTraceResult :=
  let total_loss_dB := ray_total_loss_nepers st * 8.686 in
  {| distances := ray_distances st; altitudes := ray_altitudes st;
     azimuths := None; total_loss_dB := Some total_loss_dB; status := s |}.

Definition result_tilts (st : RayState) (s : Status) : RayTraceResult :=
  {| distances := ray_distances st; altitudes := ray_altitudes st;
     azimuths := Some (map (fun a => a * 180.0 / Math_PI) (ray_azimuths st));
     total_loss_dB := None; status := s |}.

Definition result_tilts_absorption (st : RayState) (s : Status)
  : RayTraceResult :=
  let total_loss_dB := ray_total_loss_nepers st * 8.686 in
  {| distances := ray_distances st; altitudes := ray_altitudes st;
     azimuths := Some (map (fun a => a * 180.0 / Math_PI) (ray_azimuths st));
     total_loss_dB := Some total_loss_dB; status := s |}.

(* ================================================================== *)
(** ** The counted loop *)
(* ================================================================== *)

(** How [for (let step = 0; step < max_steps; step++) { body }] ends:
    a [return] inside iteration [step], or the loop test failing at
    [step]. *)
Inductive LoopEnd (St Res : Type) : Type :=
| Returned (res : Res) (step : nat)
| Exhausted (st : St) (step : nat).

Arguments Returned {St Res} res step.
Arguments Exhausted {St Res} st step.

(** One iteration either returns ([inr]) or falls through to the next
    iteration with new locals ([inl]).  [remaining] counts the values
    of [step] still below [max_steps]. *)
Fixpoint for_loop {St Res : Type} (body : nat -> St -> St + Res)
    (remaining step : nat) (st : St) : LoopEnd St Res :=
  match remaining with
  | O => Exhausted st step
  | S k =>
      match body step st with
      | inr res => Returned res step
      | inl st' => for_loop body k (S step) st'
      end
  end.

(** The number of times the loop body was entered. *)
Definition iterations {St Res : Type} (e : LoopEnd St Res) : nat :=
  match e with
  | Returned _ step => S step
  | Exhausted _ step => step
  end.

(** The locals at the head of iteration [k], when the loop gets there:
    [k] iterations fell through. *)
Fixpoint state_at {St Res : Type} (body : nat -> St -> St + Res)
    (k step : nat) (st : St) : option St :=
  match k with
  | O => Some st
  | S k' =>
      match body step st with
      | inr _ => None
      | inl st' => state_at body k' (S step) st'
      end
  end.

(** [max_steps] of every tracer: [Math.floor(max_distance_km / step_km)]
    with [step_km = 1.0]. *)
Definition max_steps (max_distance_km : R) : Z :=
  let step_km := 1.0 in
  Math_floor (max_distance_km / step_km).

(** The default value of the parameter [max_distance_km]. *)
Definition default_max_distance_km : R := 10000.0.

(* ================================================================== *)
(** ** Ray integrator: the 1D tracers *)
(* ================================================================== *)

(** The density a 1D tracer hands to [refractiveIndex] at altitude [z]:
    [z >= 0 ? ionosphere_func(z) : 0]. *)
Definition Ne_1D (ionosphere_func : R -> R) (z : R) : R :=
  if z >=? 0 then ionosphere_func z else 0.

(** The conserved ray parameter [b] of the 1D tracers. *)
Definition ray_parameter_1D (freq_Hz psi_0 : R) (ionosphere_func : R -> R)
  : R :=
  let r := R_E in
  let z0 := 0.0 in
  let Ne0 := ionosphere_func z0 in
  let nu0 := collisionFrequency z0 in
  let n0 := real (refractiveIndex Ne0 freq_Hz nu0) in
  n0 * r * Math_sin psi_0.

(** The loop body of [traceRaySphericalWithPath].  [None] in the
    reflection test stands for its [return] of status 'escapes'. *)
Definition traceRaySphericalWithPath_body
    (freq_Hz b : R) (ionosphere_func : R -> R) (max_distance_km : R)
    (step : nat) (st : RayState) : RayState + RayTraceResult :=
  let step_km := 1.0 in
  let r := ray_r st in
  let theta := ray_theta st in
  let going_up := ray_going_up st in
  let z := r - R_E in
  if (z <? 0.0) && Nat.ltb 10 step then inr (result_path st returns)
  else
    let Ne := Ne_1D ionosphere_func z in
    let nu := collisionFrequency (Math_max 0 z) in
    let n_complex := refractiveIndex Ne freq_Hz nu in
    let n_real := real n_complex in
    let n_squared :=
      {| real := real n_complex * real n_complex
                 - imag n_complex * imag n_complex;
         imag := 2 * real n_complex * imag n_complex |} in
    let n2_real := real n_squared in
    let '(going_up, sin_psi) :=
      if Math_abs n_real <? 1e-8 then (false, 1.0)
      else (if n2_real <=? 0 then false else going_up, b / (n_real * r)) in
    match
      (if Math_abs sin_psi >=? 1.0 then
         if (z >? 600) && going_up then None
         else Some (false, Math_sign sin_psi * 0.999)
       else Some (going_up, sin_psi))
    with
    | None => inr (result_path st escapes)
    | Some (going_up, sin_psi) =>
      if (z >? 800) && going_up then inr (result_path st escapes)
      else
        let cos_psi := Math_sqrt (1 - sin_psi * sin_psi) in
        let adaptive_step :=
          if (n_real <? 0.1) || (Math_abs sin_psi >? 0.95)
          then step_km * 0.5 else step_km in
        let dr := adaptive_step * cos_psi * (if going_up then 1 else -1) in
        let d_theta := adaptive_step * sin_psi / r in
        let r := r + dr in
        let theta := theta + d_theta in
        let st' :=
          {| ray_r := r; ray_theta := theta; ray_x := ray_x st;
             ray_phi := ray_phi st;
             ray_total_loss_nepers := ray_total_loss_nepers st;
             ray_going_up := going_up;
             ray_distances := push (ray_distances st) (theta * R_E);
             ray_altitudes := push (ray_altitudes st) (r - R_E);
             ray_azimuths := ray_azimuths st |} in
        if theta * R_E >? max_distance_km then inr (result_path st' stops)
        else inl st'
    end.

Definition traceRaySphericalWithPath_loop
    (freq_MHz elevation_deg : R) (ionosphere_func : R -> R)
    (max_distance_km : R) : LoopEnd RayState RayTraceResult :=
  let freq_Hz := freq_MHz * 1e6 in
  let psi_0 := elevation_deg * Math_PI / 180.0 in
  let b := ray_parameter_1D freq_Hz psi_0 ionosphere_func in
  for_loop
    (traceRaySphericalWithPath_body freq_Hz b ionosphere_func max_distance_km)
    (Z.to_nat (max_steps max_distance_km)) 0 initial_state.

Definition traceRaySphericalWithPath
    (freq_MHz elevation_deg : R) (ionosphere_func : R -> R)
    (max_distance_km : R) : RayTraceResult :=
  match traceRaySphericalWithPath_loop freq_MHz elevation_deg
          ionosphere_func max_distance_km with
  | Returned res _ => res
  | Exhausted st _ => result_path st stops
  end.

(** The loop body of [traceRayWithAbsorption]. *)
Definition traceRayWithAbsorption_body
    (freq_Hz omega b : R) (ionosphere_func : R -> R) (max_distance_km : R)
    (step : nat) (st : RayState) : RayState + RayTraceResult :=
  let step_km := 1.0 in
  let r := ray_r st in
  let theta := ray_theta st in
  let total_loss_nepers := ray_total_loss_nepers st in
  let going_up := ray_going_up st in
  let z := r - R_E in
  if (z <? 0.0) && Nat.ltb 10 step then inr (result_absorption st returns)
  else
    let Ne := Ne_1D ionosphere_func z in
    let nu := collisionFrequency (Math_max 0 z) in
    let n_complex := refractiveIndex Ne freq_Hz nu in
    let n_real := real n_complex in
    let n_squared :=
      {| real := real n_complex * real n_complex
                 - imag n_complex * imag n_complex;
         imag := 2 * real n_complex * imag n_complex |} in
    let n2_real := real n_squared in
    let alpha :=
      (omega / (2.0 * c)) * Math_abs (imag n_squared)
      / Math_max n_real 1e-10 in
    let '(going_up, sin_psi) :=
      if Math_abs n_real <? 1e-8 then (false, 1.0)
      else (if n2_real <=? 0 then false else going_up, b / (n_real * r)) in
    match
      (if Math_abs sin_psi >=? 1.0 then
         if (z >? 600) && going_up then None
         else Some (false, Math_sign sin_psi * 0.999)
       else Some (going_up, sin_psi))
    with
    | None => inr (result_absorption st escapes)
    | Some (going_up, sin_psi) =>
      if (z >? 800) && going_up then inr (result_absorption st escapes)
      else
        let cos_psi := Math_sqrt (1 - sin_psi * sin_psi) in
        let adaptive_step :=
          if (n_real <? 0.1) || (Math_abs sin_psi >? 0.95)
          then step_km * 0.5 else step_km in
        let path_length_m := adaptive_step * 1000.0 in
        let total_loss_nepers := total_loss_nepers + alpha * path_length_m in
        let dr := adaptive_step * cos_psi * (if going_up then 1 else -1) in
        let d_theta := adaptive_step * sin_psi / r in
        let r := r + dr in
        let theta := theta + d_theta in
        let st' :=
          {| ray_r := r; ray_theta := theta; ray_x := ray_x st;
             ray_phi := ray_phi st;
             ray_total_loss_nepers := total_loss_nepers;
             ray_going_up := going_up;
             ray_distances := push (ray_distances st) (theta * R_E);
             ray_altitudes := push (ray_altitudes st) (r - R_E);
             ray_azimuths := ray_azimuths st |} in
        if theta * R_E >? max_distance_km
        then inr (result_absorption st' stops)
        else inl st'
    end.

Definition traceRayWithAbsorption_loop
    (freq_MHz elevation_deg : R) (ionosphere_func : R -> R)
    (max_distance_km : R) : LoopEnd RayState RayTraceResult :=
  let freq_Hz := freq_MHz * 1e6 in
  let omega := 2.0 * Math_PI * freq_Hz in
  let psi_0 := elevation_deg * Math_PI / 180.0 in
  let b := ray_parameter_1D freq_Hz psi_0 ionosphere_func in
  for_loop
    (traceRayWithAbsorption_body freq_Hz omega b ionosphere_func
       max_distance_km)
    (Z.to_nat (max_steps max_distance_km)) 0 initial_state.

Definition traceRayWithAbsorption
    (freq_MHz elevation_deg : R) (ionosphere_func : R -> R)
    (max_distance_km : R) : RayTraceResult :=
  match traceRayWithAbsorption_loop freq_MHz elevation_deg
          ionosphere_func max_distance_km with
  | Returned res _ => res
  | Exhausted st _ => result_absorption st stops
  end.

(* ================================================================== *)
(** ** Ray integrator: the 2D tracers *)
(* ================================================================== *)

(** The local [Ne] of the closure [getRefractiveIndex]: 0 unless
    [z >= 0 && z <= 600].  The closure's captured variables are the
    leading parameters. *)
Definition Ne_2D (foF2_at_tx foF2_at_distance tilt_distance : R)
    (season : string) (z x_dist : R) : R :=
  if (z >=? 0) && (z <=? 600) then
    electronDensity2DSingle z x_dist foF2_at_tx foF2_at_distance
      tilt_distance season
  else 0.

Definition getRefractiveIndex
    (freq_Hz foF2_at_tx foF2_at_distance tilt_distance : R)
    (season : string) (z x_dist : R) : Complex :=
  let Ne := Ne_2D foF2_at_tx foF2_at_distance tilt_distance season z x_dist in
  let nu := collisionFrequency (Math_max 0 z) in
  refractiveIndex Ne freq_Hz nu.

(** The block "Calculate horizontal gradient (dn/dx)" of both 2D
    tracers: the locals [dx_sample] and [dn_dx], given the closure. *)
Definition horizontal_gradient (getRefractiveIndex : R -> R -> Complex)
    (z x n_real : R) : R :=
  let dx_sample := if n_real <? 0.1 then 0.5 else 1.0 in
  if x >? dx_sample then
    let n_plus := getRefractiveIndex z (x + dx_sample) in
    let n_minus := getRefractiveIndex z (x - dx_sample) in
    (real n_plus - real n_minus) / (2 * dx_sample)
  else if x >? 0 then
    let n_plus := getRefractiveIndex z (x + dx_sample) in
    (real n_plus - n_real) / dx_sample
  else 0.0.

(** The block "Azimuth deflection from horizontal gradient" of both 2D
    tracers: the local [dphi]. *)
Definition azimuth_deflection (n_real dn_dx sin_psi adaptive_step : R) : R :=
  let sin_psi_abs := Math_abs sin_psi in
  if (sin_psi_abs >? 0.1) && (n_real >? 0.05) then
    let dphi_ds := - (1.0 / n_real) * dn_dx / sin_psi_abs in
    let smoothing_factor :=
      if sin_psi_abs >? 0.9 then
        Math_max 0.0 (Math_min 1.0 ((1.0 - sin_psi_abs) / 0.1))
      else 1.0 in
    let smoothing_factor :=
      if n_real <? 0.15 then
        let n_smoothing := (n_real - 0.05) / 0.10 in
        smoothing_factor * Math_max 0.0 (Math_min 1.0 n_smoothing)
      else smoothing_factor in
    dphi_ds * adaptive_step * smoothing_factor
  else 0.0.

(** The conserved ray parameter [b] of the 2D tracers. *)
Definition ray_parameter_2D (psi_0 : R)
    (getRefractiveIndex : R -> R -> Complex) : R :=
  let r := R_E in
  let n_0 := real (getRefractiveIndex 0.0 0.0) in
  n_0 * r * Math_sin psi_0.

(** The loop body of [traceRay2DWithTilts]. *)
Definition traceRay2DWithTilts_body
    (b : R) (getRefractiveIndex : R -> R -> Complex) (max_distance_km : R)
    (step : nat) (st : RayState) : RayState + RayTraceResult :=
  let step_km := 1.0 in
  let r := ray_r st in
  let theta := ray_theta st in
  let x := ray_x st in
  let phi := ray_phi st in
  let going_up := ray_going_up st in
  let z := r - R_E in
  if (z <? 0.0) && Nat.ltb 10 step then inr (result_tilts st returns)
  else
    let n_complex := getRefractiveIndex z x in
    let n_real := real n_complex in
    let n_squared :=
      {| real := real n_complex * real n_complex
                 - imag n_complex * imag n_complex;
         imag := 2 * real n_complex * imag n_complex |} in
    let n2_real := real n_squared in
    let dn_dx := horizontal_gradient getRefractiveIndex z x n_real in
    let '(going_up, sin_psi) :=
      if Math_abs n_real <? 1e-8 then (false, 1.0)
      else (if n2_real <=? 0 then false else going_up, b / (n_real * r)) in
    match
      (if Math_abs sin_psi >=? 1.0 then
         if (z >? 600) && going_up then None
         else Some (false, Math_sign sin_psi * 0.999)
       else Some (going_up, sin_psi))
    with
    | None => inr (result_tilts st escapes)
    | Some (going_up, sin_psi) =>
      if (z >? 800) && going_up then inr (result_tilts st escapes)
      else
        let cos_psi := Math_sqrt (1 - sin_psi * sin_psi) in
        let adaptive_step :=
          if (n_real <? 0.1) || (Math_abs sin_psi >? 0.95)
          then step_km * 0.5 else step_km in
        let dphi := azimuth_deflection n_real dn_dx sin_psi adaptive_step in
        let dr := adaptive_step * cos_psi * (if going_up then 1 else -1) in
        let d_theta := adaptive_step * sin_psi / r in
        let r := r + dr in
        let theta := theta + d_theta in
        let x := x + Math_abs (d_theta * R_E) in
        let phi := phi + dphi in
        let st' :=
          {| ray_r := r; ray_theta := theta; ray_x := x; ray_phi := phi;
             ray_total_loss_nepers := ray_total_loss_nepers st;
             ray_going_up := going_up;
             ray_distances := push (ray_distances st) (theta * R_E);
             ray_altitudes := push (ray_altitudes st) (r - R_E);
             ray_azimuths := push (ray_azimuths st) phi |} in
        if x >? max_distance_km then inr (result_tilts st' stops)
        else inl st'
    end.

Definition traceRay2DWithTilts_loop
    (freq_MHz elevation_deg foF2_at_tx foF2_at_distance tilt_distance : R)
    (max_distance_km : R) (season : string)
  : LoopEnd RayState RayTraceResult :=
  let freq_Hz := freq_MHz * 1e6 in
  let psi_0 := elevation_deg * Math_PI / 180.0 in
  let getRefractiveIndex :=
    getRefractiveIndex freq_Hz foF2_at_tx foF2_at_distance tilt_distance
      season in
  let b := ray_parameter_2D psi_0 getRefractiveIndex in
  for_loop (traceRay2DWithTilts_body b getRefractiveIndex max_distance_km)
    (Z.to_nat (max_steps max_distance_km)) 0 initial_state.

Definition traceRay2DWithTilts
    (freq_MHz elevation_deg foF2_at_tx foF2_at_distance tilt_distance : R)
    (max_distance_km : R) (season : string) : RayTraceResult :=
  match traceRay2DWithTilts_loop freq_MHz elevation_deg foF2_at_tx
          foF2_at_distance tilt_distance max_distance_km season with
  | Returned res _ => res
  | Exhausted st _ => result_tilts st stops
  end.

(** The loop body of [traceRay2DWithAbsorption]. *)
Definition traceRay2DWithAbsorption_body
    (omega b : R) (getRefractiveIndex : R -> R -> Complex)
    (max_distance_km : R)
    (step : nat) (st : RayState) : RayState + RayTraceResult :=
  let step_km := 1.0 in
  let r := ray_r st in
  let theta := ray_theta st in
  let x := ray_x st in
  let phi := ray_phi st in
  let total_loss_nepers := ray_total_loss_nepers st in
  let going_up := ray_going_up st in
  let z := r - R_E in
  if (z <? 0.0) && Nat.ltb 10 step
  then inr (result_tilts_absorption st returns)
  else
    let n_complex := getRefractiveIndex z x in
    let n_real := real n_complex in
    let n_squared :=
      {| real := real n_complex * real n_complex
                 - imag n_complex * imag n_complex;
         imag := 2 * real n_complex * imag n_complex |} in
    let n2_real := real n_squared in
    let alpha :=
      (omega / (2.0 * c)) * Math_abs (imag n_squared)
      / Math_max n_real 1e-10 in
    let dn_dx := horizontal_gradient getRefractiveIndex z x n_real in
    let '(going_up, sin_psi) :=
      if Math_abs n_real <? 1e-8 then (false, 1.0)
      else (if n2_real <=? 0 then false else going_up, b / (n_real * r)) in
    match
      (if Math_abs sin_psi >=? 1.0 then
         if (z >? 600) && going_up then None
         else Some (false, Math_sign sin_psi * 0.999)
       else Some (going_up, sin_psi))
    with
    | None => inr (result_tilts_absorption st escapes)
    | Some (going_up, sin_psi) =>
      if (z >? 800) && going_up
      then inr (result_tilts_absorption st escapes)
      else
        let cos_psi := Math_sqrt (1 - sin_psi * sin_psi) in
        let adaptive_step :=
          if (n_real <? 0.1) || (Math_abs sin_psi >? 0.95)
          then step_km * 0.5 else step_km in
        let path_length_m := adaptive_step * 1000.0 in
        let total_loss_nepers := total_loss_nepers + alpha * path_length_m in
        let dphi := azimuth_deflection n_real dn_dx sin_psi adaptive_step in
        let dr := adaptive_step * cos_psi * (if going_up then 1 else -1) in
        let d_theta := adaptive_step * sin_psi / r in
        let r := r + dr in
        let theta := theta + d_theta in
        let x := x + Math_abs (d_theta * R_E) in
        let phi := phi + dphi in
        let st' :=
          {| ray_r := r; ray_theta := theta; ray_x := x; ray_phi := phi;
             ray_total_loss_nepers := total_loss_nepers;
             ray_going_up := going_up;
             ray_distances := push (ray_distances st) (theta * R_E);
             ray_altitudes := push (ray_altitudes st) (r - R_E);
             ray_azimuths := push (ray_azimuths st) phi |} in
        if x >? max_distance_km
        then inr (result_tilts_absorption st' stops)
        else inl st'
    end.

Definition traceRay2DWithAbsorption_loop
    (freq_MHz elevation_deg foF2_at_tx foF2_at_distance tilt_distance : R)
    (max_distance_km : R) (season : string)
  : LoopEnd RayState RayTraceResult :=
  let freq_Hz := freq_MHz * 1e6 in
  let omega := 2.0 * Math_PI * freq_Hz in
  let psi_0 := elevation_deg * Math_PI / 180.0 in
  let getRefractiveIndex :=
    getRefractiveIndex freq_Hz foF2_at_tx foF2_at_distance tilt_distance
      season in
  let b := ray_parameter_2D psi_0 getRefractiveIndex in
  for_loop
    (traceRay2DWithAbsorption_body omega b getRefractiveIndex
       max_distance_km)
    (Z.to_nat (max_steps max_distance_km)) 0 initial_state.

Definition traceRay2DWithAbsorption
    (freq_MHz elevation_deg foF2_at_tx foF2_at_distance tilt_distance : R)
    (max_distance_km : R) (season : string) : RayTraceResult :=
  match traceRay2DWithAbsorption_loop freq_MHz elevation_deg foF2_at_tx
          foF2_at_distance tilt_distance max_distance_km season with
  | Returned res _ => res
  | Exhausted st _ => result_tilts_absorption st stops
  end.

(* ================================================================== *)
(** ** Calls and their completion *)
(* ================================================================== *)

(** How a call completes: with the returned value, or with a thrown
    error. *)
Inductive Completion (A : Type) : Type :=
| Normal (value : A)
| Throw (message : string).

Arguments Normal {A} value.
Arguments Throw {A} message.

(** The tracers hold no [throw] statement and call only the [Math]
    functions and the functions above, none of which throws: a call of
    a tracer completes with the object one of its [return] statements
    builds. *)
Definition call_traceRaySphericalWithPath
    (freq_MHz elevation_deg : R) (ionosphere_func : R -> R)
    (max_distance_km : R) : Completion RayTraceResult :=
  Normal (traceRaySphericalWithPath freq_MHz elevation_deg ionosphere_func
            max_distance_km).

Definition call_traceRayWithAbsorption
    (freq_MHz elevation_deg : R) (ionosphere_func : R -> R)
    (max_distance_km : R) : Completion RayTraceResult :=
  Normal (traceRayWithAbsorption freq_MHz elevation_deg ionosphere_func
            max_distance_km).

Definition call_traceRay2DWithTilts
    (freq_MHz elevation_deg foF2_at_tx foF2_at_distance tilt_distance : R)
    (max_distance_km : R) (season : string) : Completion RayTraceResult :=
  Normal (traceRay2DWithTilts freq_MHz elevation_deg foF2_at_tx
            foF2_at_distance tilt_distance max_distance_km season).

Definition call_traceRay2DWithAbsorption
    (freq_MHz elevation_deg foF2_at_tx foF2_at_distance tilt_distance : R)
    (max_distance_km : R) (season : string) : Completion RayTraceResult :=
  Normal (traceRay2DWithAbsorption freq_MHz elevation_deg foF2_at_tx
            foF2_at_distance tilt_distance max_distance_km season).

Definition is_error {A : Type} (k : Completion A) : bool :=
  match k with Normal _ => false | Throw _ => true end.

(** The input contract of the tracers: [frequency_MHz > 0] and
    [elevation_deg] in the open interval (0, 90). *)
Definition valid_inputs (freq_MHz elevation_deg : R) : Prop :=
  0 < freq_MHz /\ 0 < elevation_deg < 90.

(** The closure [ionosphere_func] that [plotRayPaths1D] and
    [plotSignalLoss1D] hand to the 1D tracers:
    [(z) => makeIonosphereForFoF2([z], foF2, season)[0]]. *)
Definition plot_ionosphere_func (foF2 : R) (season : string) (z : R) : R :=
  let z_arr := [z] in
  index (makeIonosphereForFoF2 z_arr foF2 season) 0.

(* ================================================================== *)
(** ** Properties of paths and loops *)
(* ================================================================== *)

(** Each sample is greater than or equal to the one before it. *)
Definition non_decreasing (l : list R) : Prop :=
  forall i : nat, (S i < List.length l)%nat -> nth i l 0 <= nth (S i) l 0.

(** The array is non-empty and begins with 0.0. *)
Definition begins_with_zero (l : list R) : Prop :=
  exists tl : list R, l = 0.0 :: tl.

Definition Body : Type := nat -> RayState -> RayState + RayTraceResult.

(** Once [going_up] is false at the head of an iteration it is false at
    the head of every later one. *)
Definition never_ascends_again (body : Body) : Prop :=
  forall (j k : nat) (sj sk : RayState),
    (j <= k)%nat ->
    state_at body j 0 initial_state = Some sj ->
    state_at body k 0 initial_state = Some sk ->
    ray_going_up sj = false -> ray_going_up sk = false.

(** A [return] of status 'escapes' happens in an iteration entered with
    [going_up] true. *)
Definition escapes_only_ascending (body : Body) : Prop :=
  forall (n k : nat) (res : RayTraceResult),
    for_loop body n 0 initial_state = Returned res k ->
    status res = escapes ->
    exists sk : RayState,
      state_at body k 0 initial_state = Some sk /\ ray_going_up sk = true.

(** The loop runs its body at most [bound] times, and a result built
    after the loop test failed has status 'stops'. *)
Definition bounded_then_stops (loop : LoopEnd RayState RayTraceResult)
    (result : RayTraceResult) (bound : nat) : Prop :=
  (iterations loop <= bound)%nat /\
  (forall (st : RayState) (n : nat),
      loop = Exhausted st n -> n = bound /\ status result = stops).

(** The shape of every returned path: parallel arrays that begin with
    the launch sample. *)
Definition parallel_path_1D (res : RayTraceResult) : Prop :=
  List.length (distances res) = List.length (altitudes res) /\
  begins_with_zero (distances res) /\
  begins_with_zero (altitudes res).

Definition parallel_path_2D (res : RayTraceResult) : Prop :=
  parallel_path_1D res /\
  exists az : list R,
    azimuths res = Some az /\
    List.length az = List.length (distances res) /\
    begins_with_zero az.

(** The object a tracer returns once its loop has ended: the object of
    the [return] that ended it, or the one built after the loop, with
    status 'stops'. *)
Definition result_of_loop (mk : RayState -> Status -> RayTraceResult)
    (e : LoopEnd RayState RayTraceResult) : RayTraceResult :=
  match e with
  | Returned res _ => res
  | Exhausted st _ => mk st stops
  end.

(** What the four shapes of returned object have in common; [two_d]
    tells whether the object has the key [azimuths]. *)
Definition builder_ok (two_d : bool)
    (mk : RayState -> Status -> RayTraceResult) : Prop :=
  forall (st : RayState) (s : Status),
    distances (mk st s) = ray_distances st /\
    altitudes (mk st s) = ray_altitudes st /\
    status (mk st s) = s /\
    azimuths (mk st s)
    = if two_d
      then Some (map (fun a => a * 180.0 / Math_PI) (ray_azimuths st))
      else None.

(** One completed integration step, as all four loop bodies perform it:
    [st] are the locals at the head of iteration [step], [st'] the
    locals after the three [push]es.  [sin_psi] is the local after the
    reflection test, [direction] the factor [going_up ? 1 : -1]. *)
Definition advances (two_d : bool) (b : R) (step : nat)
    (st st' : RayState) : Prop :=
  exists n_real sin_psi adaptive_step direction : R,
    ray_r st' = ray_r st
                + adaptive_step * Math_sqrt (1 - sin_psi * sin_psi)
                  * direction /\
    ray_theta st' = ray_theta st + adaptive_step * sin_psi / ray_r st /\
    ray_distances st' = push (ray_distances st) (ray_theta st' * R_E) /\
    (exists a : R, ray_altitudes st' = push (ray_altitudes st) a) /\
    (if two_d
     then exists p : R, ray_azimuths st' = push (ray_azimuths st) p
     else ray_azimuths st' = ray_azimuths st) /\
    (sin_psi = Math_sign 1.0 * 0.999 \/
     (Math_abs n_real <? 1e-8) = false /\
     (sin_psi = b / (n_real * ray_r st) \/
      sin_psi = Math_sign (b / (n_real * ray_r st)) * 0.999)) /\
    0 <= n_real /\
    (adaptive_step = 1.0 * 0.5 \/ adaptive_step = 1.0) /\
    (direction = 1 \/ direction = -1) /\
    (ray_going_up st' = true -> ray_going_up st = true) /\
    (Nat.ltb 10 step = true -> 0.0 <= ray_r st - R_E).

(** One iteration that ends in a [return]: 'returns' or 'escapes' with
    the arrays as they stood at the head of the iteration ('escapes'
    only while [going_up]), or 'stops' after a completed step. *)
Definition returns_from (two_d : bool)
    (mk : RayState -> Status -> RayTraceResult) (b : R) (step : nat)
    (st : RayState) (res : RayTraceResult) : Prop :=
  res = mk st returns \/
  (res = mk st escapes /\ ray_going_up st = true) \/
  (exists st' : RayState, advances two_d b step st st' /\ res = mk st' stops).

(** Loop invariants. *)

(** The ray is above the centre of the Earth: it falls at most 1 km per
    step, and from iteration 11 on a step starts at or above ground. *)
Definition ray_above (step : nat) (st : RayState) : Prop :=
  R_E - INR (Nat.min step 11) <= ray_r st.

(** The recorded distances are non-decreasing and end with the current
    [theta * R_E]. *)
Definition path_sorted (st : RayState) : Prop :=
  non_decreasing (ray_distances st) /\
  exists l : list R, ray_distances st = l ++ [ray_theta st * R_E].

(** The arrays are parallel and begin with the launch sample. *)
Definition arrays_parallel (two_d : bool) (st : RayState) : Prop :=
  List.length (ray_distances st) = List.length (ray_altitudes st) /\
  begins_with_zero (ray_distances st) /\
  begins_with_zero (ray_altitudes st) /\
  (if two_d
   then List.length (ray_azimuths st) = List.length (ray_distances st)
   else True) /\
  begins_with_zero (ray_azimuths st).

(** A density callable for a test trace: no plasma up to 600 km, 1e9
    electrons per cubic metre above. *)
Definition shell_above_600 (z : R) : R := if z >? 600 then 1e9 else 0.

(** The locals at the head of iteration [k] of the call
    [traceRaySphericalWithPath(freq_MHz, elevation_deg, ionosphere_func,
    max_distance_km)], when the loop enters that iteration. *)
Definition traceRaySphericalWithPath_iteration
    (freq_MHz elevation_deg : R) (ionosphere_func : R -> R)
    (max_distance_km : R) (k : nat) : option RayState :=
  let freq_Hz := freq_MHz * 1e6 in
  let psi_0 := elevation_deg * Math_PI / 180.0 in
  let b := ray_parameter_1D freq_Hz psi_0 ionosphere_func in
  if Nat.ltb k (Z.to_nat (max_steps max_distance_km)) then
    state_at
      (traceRaySphericalWithPath_body freq_Hz b ionosphere_func
         max_distance_km)
      k 0 initial_state
  else None.

(** The refractive index a 1D loop body computes from its locals. *)
Definition index_at_1D (freq_Hz : R) (ionosphere_func : R -> R)
    (st : RayState) : Complex :=
  let z := ray_r st - R_E in
  refractiveIndex (Ne_1D ionosphere_func z) freq_Hz
    (collisionFrequency (Math_max 0 z)).

(** The refractive index and the gradient [dn_dx] a 2D loop body
    computes from its locals. *)
Definition index_at_2D (getRefractiveIndex : R -> R -> Complex)
    (st : RayState) : Complex :=
  getRefractiveIndex (ray_r st - R_E) (ray_x st).

Definition gradient_at_2D (getRefractiveIndex : R -> R -> Complex)
    (st : RayState) : R :=
  horizontal_gradient getRefractiveIndex (ray_r st - R_E) (ray_x st)
    (real (index_at_2D getRefractiveIndex st)).

(** One completed integration step, local by local.  [two_d] and
    [absorbing] tell which of the optional locals the tracer has;
    [n_at] and [dn_dx_at] give the refractive index and the gradient of
    the iteration.  [sin_psi] is the local after the reflection test:
    below 1 in absolute value, so the square root of [cos_psi] is
    taken of a positive number. *)
Definition step_detail (two_d absorbing : bool) (omega : R)
    (n_at : RayState -> Complex) (dn_dx_at : RayState -> R)
    (st st' : RayState) : Prop :=
  exists sin_psi adaptive_step : R,
    ray_r st' = ray_r st
                + adaptive_step * Math_sqrt (1 - sin_psi * sin_psi)
                  * (if ray_going_up st' then 1 else -1) /\
    ray_theta st' = ray_theta st + adaptive_step * sin_psi / ray_r st /\
    ray_distances st' = push (ray_distances st) (ray_theta st' * R_E) /\
    ray_altitudes st' = push (ray_altitudes st) (ray_r st' - R_E) /\
    ray_total_loss_nepers st'
    = (if absorbing
       then ray_total_loss_nepers st
            + omega / (2.0 * c)
              * Math_abs (2 * real (n_at st) * imag (n_at st))
              / Math_max (real (n_at st)) 1e-10
              * (adaptive_step * 1000.0)
       else ray_total_loss_nepers st) /\
    (if two_d
     then ray_x st'
          = ray_x st + Math_abs (adaptive_step * sin_psi / ray_r st * R_E) /\
          ray_phi st'
          = ray_phi st
            + azimuth_deflection (real (n_at st)) (dn_dx_at st) sin_psi
                adaptive_step /\
          ray_azimuths st' = push (ray_azimuths st) (ray_phi st')
     else ray_x st' = ray_x st /\ ray_phi st' = ray_phi st /\
          ray_azimuths st' = ray_azimuths st) /\
    (ray_going_up st' = true -> ray_going_up st = true) /\
    (adaptive_step = 1.0 * 0.5 \/ adaptive_step = 1.0) /\
    -1 < sin_psi < 1.

(** The quantity a tracer compares with [max_distance_km]: [x] in 2D,
    [theta * R_E] in 1D. *)
Definition travelled (two_d : bool) (st : RayState) : R :=
  if two_d then ray_x st else ray_theta st * R_E.

(** What one iteration does, by the way it ends: it falls through
    after a completed step that stays within [max_distance_km]; or it
    returns 'returns' below ground after more than 10 steps, 'escapes'
    above 600 km while ascending, or 'stops' after a completed step
    beyond [max_distance_km]. *)
Definition iteration_detail (two_d absorbing : bool) (omega : R)
    (n_at : RayState -> Complex) (dn_dx_at : RayState -> R)
    (mk : RayState -> Status -> RayTraceResult) (max_distance_km : R)
    (step : nat) (st : RayState) (out : RayState + RayTraceResult) : Prop :=
  match out with
  | inl st' =>
      step_detail two_d absorbing omega n_at dn_dx_at st st' /\
      travelled two_d st' <= max_distance_km /\
      (Nat.ltb 10 step = true -> 0.0 <= ray_r st - R_E)
  | inr res =>
      (res = mk st returns /\ ray_r st - R_E < 0.0 /\
       Nat.ltb 10 step = true) \/
      (res = mk st escapes /\ 600 < ray_r st - R_E /\
       ray_going_up st = true) \/
      (exists st' : RayState,
          step_detail two_d absorbing omega n_at dn_dx_at st st' /\
          res = mk st' stops /\
          max_distance_km < travelled two_d st')
  end.

(** The key [total_loss_dB] of the four shapes of returned object. *)
Definition builder_loss (absorbing : bool)
    (mk : RayState -> Status -> RayTraceResult) : Prop :=
  forall (st : RayState) (s : Status),
    total_loss_dB (mk st s)
    = if absorbing then Some (ray_total_loss_nepers st * 8.686) else None.

(** Consecutive samples differ by at most 1. *)
Definition steps_bounded (l : list R) : Prop :=
  forall i : nat,
    (S i < List.length l)%nat -> Rabs (nth (S i) l 0 - nth i l 0) <= 1.

(** A property of the object every tracer returns, for all its
    arguments; [P] reads freq_MHz, elevation_deg and max_distance_km
    beside the object. *)
Definition every_trace (P : R -> R -> R -> RayTraceResult -> Prop) : Prop :=
  (forall (freq_MHz elevation_deg : R) (f : R -> R) (max_distance_km : R),
      P freq_MHz elevation_deg max_distance_km
        (traceRaySphericalWithPath freq_MHz elevation_deg f
           max_distance_km)) /\
  (forall (freq_MHz elevation_deg : R) (f : R -> R) (max_distance_km : R),
      P freq_MHz elevation_deg max_distance_km
        (traceRayWithAbsorption freq_MHz elevation_deg f max_distance_km)) /\
  (forall (freq_MHz elevation_deg foF2_tx foF2_dist tilt : R)
          (max_distance_km : R) (season : string),
      P freq_MHz elevation_deg max_distance_km
        (traceRay2DWithTilts freq_MHz elevation_deg foF2_tx foF2_dist tilt
           max_distance_km season)) /\
  (forall (freq_MHz elevation_deg foF2_tx foF2_dist tilt : R)
          (max_distance_km : R) (season : string),
      P freq_MHz elevation_deg max_distance_km
        (traceRay2DWithAbsorption freq_MHz elevation_deg foF2_tx foF2_dist
           tilt max_distance_km season)).

(** What the loop keeps true of the locals at the head of iteration
    [step]: one sample per completed step beside the initial one, the
    last altitude sample is the current altitude, consecutive altitude
    samples are at most 1 km apart, and an ascending ray is not below
    the ground. *)
Definition sampled (step : nat) (st : RayState) : Prop :=
  List.length (ray_distances st) = S step /\
  List.length (ray_altitudes st) = S step /\
  (exists l : list R, ray_altitudes st = l ++ [ray_r st - R_E]) /\
  steps_bounded (ray_altitudes st) /\
  (ray_going_up st = true -> R_E <= ray_r st).

(** All samples but the last are within [max_distance_km]. *)
Definition overshoots_once (max_distance_km : R) (l : list R) : Prop :=
  exists (front : list R) (d : R),
    l = front ++ [d] /\ Forall (fun v => v <= max_distance_km) front.

(** The locals at the head of an iteration have not passed
    [max_distance_km]. *)
Definition in_reach (two_d : bool) (max_distance_km : R) (st : RayState)
  : Prop :=
  travelled two_d st <= max_distance_km /\
  ray_theta st * R_E <= travelled two_d st /\
  exists front : list R,
    ray_distances st = front ++ [ray_theta st * R_E] /\
    Forall (fun v => v <= max_distance_km) front.

(** The status of a returned object agrees with its last altitude
    sample. *)
Definition status_matches_altitude (res : RayTraceResult) : Prop :=
  (status res = returns ->
   last (altitudes res) 0 < 0 /\ (12 <= List.length (altitudes res))%nat) /\
  (status res = escapes -> 600 < last (altitudes res) 0).

(** A loop returns 'returns' only from an iteration whose locals have
    [going_up = false] and [r < R_E]. *)
Definition returns_after_reflection (body : Body) : Prop :=
  forall (n k : nat) (res : RayTraceResult),
    for_loop body n 0 initial_state = Returned res k ->
    status res = returns ->
    exists sk : RayState,
      state_at body k 0 initial_state = Some sk /\
      ray_going_up sk = false /\ ray_r sk < R_E.


(** The samples rise strictly up to one of them and fall strictly
    after it. *)
Definition rises_then_falls (l : list R) : Prop :=
  exists m : nat,
    forall i : nat,
      (S i < List.length l)%nat ->
      ((i < m)%nat -> nth i l 0 < nth (S i) l 0) /\
      ((m <= i)%nat -> nth (S i) l 0 < nth i l 0).

(** The altitude samples at the head of an iteration: the last one is
    the current altitude; they rise then fall, and they have only risen
    while the ray is still going up. *)
Definition altitude_profile (st : RayState) : Prop :=
  exists (l : list R) (m : nat),
    ray_altitudes st = l ++ [ray_r st - R_E] /\
    (forall i : nat,
        (S i < List.length (ray_altitudes st))%nat ->
        ((i < m)%nat ->
         nth i (ray_altitudes st) 0 < nth (S i) (ray_altitudes st) 0) /\
        ((m <= i)%nat ->
         nth (S i) (ray_altitudes st) 0 < nth i (ray_altitudes st) 0)) /\
    (ray_going_up st = true -> (List.length l <= m)%nat).

(** The three tests by which a loop body sets [going_up] to false:
    the refractive index is essentially 0, n^2 has a real part that is
    not positive, or the ray-parameter quotient b / (n r) reaches 1. *)
Definition reflection_cause (b : R) (n : Complex) (r : R) : Prop :=
  Math_abs (real n) < 1e-8 \/
  real n * real n - imag n * imag n <= 0 \/
  1.0 <= Math_abs (b / (real n * r)).

(** A completed step turns an ascending ray only for one of these
    causes. *)
Definition reflects_for_cause (b : R) (n_at : RayState -> Complex)
    (body : Body) : Prop :=
  forall (step : nat) (st st' : RayState),
    body step st = inl st' ->
    ray_going_up st = true -> ray_going_up st' = false ->
    reflection_cause b (n_at st) (ray_r st).

(* ================================================================== *)
(** ** Plot data: visualizations.js and main.js *)
(* ================================================================== *)

(** The plot functions hand arrays and axis ranges to [Plotly.newPlot];
    a plot function is modelled by the data it hands over.  The DOM
    container and the strings built for titles and legends are not
    modelled. *)

(** [Math.ceil]. *)
Definition Math_ceil (x : R) : Z := (- Math_floor (- x))%Z.

(** [Math.max(...arr)] on a non-empty array of numbers.  On the empty
    array JavaScript gives -Infinity, which is outside the model; every
    use below is on a non-empty array or behind the source's test of
    its length. *)
Definition Math_max_spread (arr : list R) : R :=
  match arr with
  | [] => 0
  | d :: ds => fold_left Math_max ds d
  end.

(** [for (let altitude = 0; altitude <= 600; altitude += 1)
    z.push(altitude)]. *)
Definition altitude_grid : list R := map INR (seq 0 601).

Record Curve : Type := mkCurve {
  curve_name : string;
  curve_x : list R;
  curve_y : list R
}.

Record DensityPlot : Type := mkDensityPlot {
  density_traces : list Curve;
  density_axis_max : R
}.

(** [plotElectronDensity]: the layer peaks, heights and scale height
    are recomputed by the text of [makeIonosphereForFoF2]. *)
Definition plotElectronDensity (foF2 : R) (season : string) : DensityPlot :=
  let z := altitude_grid in
  let Ne_total := makeIonosphereForFoF2 z foF2 season in
  let Ne_D := chapmanLayer z (Ne_D_peak foF2) 75.0 8.0 in
  let Ne_E := chapmanLayer z (Ne_E_peak foF2) 110.0 15.0 in
  let Ne_F1 := chapmanLayer z (Ne_F1_peak foF2) 190.0 30.0 in
  let Ne_F2 :=
    chapmanLayer z (Ne_F2_peak foF2) (h_F2 foF2 season)
                 (F2_scale_height foF2 season) in
  let Ne_D_scaled := map (fun n => n / 1e9) Ne_D in
  let Ne_E_scaled := map (fun n => n / 1e9) Ne_E in
  let Ne_F1_scaled := map (fun n => n / 1e9) Ne_F1 in
  let Ne_F2_scaled := map (fun n => n / 1e9) Ne_F2 in
  let Ne_total_scaled := map (fun n => n / 1e9) Ne_total in
  let traces :=
    [ {| curve_name := "D layer"; curve_x := Ne_D_scaled; curve_y := z |};
      {| curve_name := "E layer"; curve_x := Ne_E_scaled; curve_y := z |} ] in
  let traces :=
    if F1_factor foF2 >? 0 then
      traces ++ [ {| curve_name := "F1 layer"; curve_x := Ne_F1_scaled;
                     curve_y := z |} ]
    else traces in
  let traces :=
    traces ++
    [ {| curve_name := "F2 layer"; curve_x := Ne_F2_scaled; curve_y := z |};
      {| curve_name := "Total"; curve_x := Ne_total_scaled; curve_y := z |} ] in
  let max_density := Math_max_spread Ne_total_scaled in
  let axis_max := IZR (Math_ceil (max_density * 1.1)) in
  {| density_traces := traces; density_axis_max := axis_max |}.

Record PlasmaPlot : Type := mkPlasmaPlot {
  plasma_trace : Curve;
  plasma_foF2_line : Curve;
  plasma_x_max : R
}.

Definition plotPlasmaFrequency (foF2 : R) (season : string) : PlasmaPlot :=
  let z := altitude_grid in
  let Ne := makeIonosphereForFoF2 z foF2 season in
  let fp := map (fun n => plasmaFrequencyFromNe n / 1e6) Ne in
  {| plasma_trace :=
       {| curve_name := "Plasma Frequency"; curve_x := fp; curve_y := z |};
     plasma_foF2_line :=
       {| curve_name := "foF2"; curve_x := [foF2; foF2];
          curve_y := [0; 600] |};
     plasma_x_max := Math_max (foF2 * 1.2) 15 |}.

(** The frequencies every ray plot traces. *)
Definition frequencies : list R :=
  [1.8; 3.5; 5.3; 7.0; 10.1; 14.0; 18.068; 21.0; 24.89; 28.0].

(** [result.azimuths], as indexed by [plot2DTilts]. *)
Definition result_azimuths (result : RayTraceResult) : list R :=
  match azimuths result with
  | Some az => az
  | None => []
  end.

(** The arrays [truncated_distances], [truncated_altitudes] and, in
    [plot2DTilts] alone ([with_azimuths]), [truncated_azimuths]. *)
Record Truncated : Type := mkTruncated {
  truncated_distances : list R;
  truncated_altitudes : list R;
  truncated_azimuths : list R
}.

(** The loop "Truncate ray path at 400 km" of the four ray plots:
    [for (let j = 0; j < result.altitudes.length; j++)], with [break]
    at the first altitude above 400. *)
Fixpoint truncate_loop (with_azimuths : bool) (result : RayTraceResult)
    (remaining j : nat) (t : Truncated) : Truncated :=
  match remaining with
  | O => t
  | S k =>
      if index (altitudes result) j <=? 400 then
        truncate_loop with_azimuths result k (S j)
          {| truncated_distances :=
               push (truncated_distances t) (index (distances result) j);
             truncated_altitudes :=
               push (truncated_altitudes t) (index (altitudes result) j);
             truncated_azimuths :=
               if with_azimuths
               then push (truncated_azimuths t)
                         (index (result_azimuths result) j)
               else truncated_azimuths t |}
      else t
  end.

Definition truncate_path (with_azimuths : bool) (result : RayTraceResult)
  : Truncated :=
  truncate_loop with_azimuths result (List.length (altitudes result)) 0
    {| truncated_distances := []; truncated_altitudes := [];
       truncated_azimuths := [] |}.

(** One plotted ray: the side-view trace ([trace_x], [trace_y]), the
    top-view trace of [plot2DTilts] ([trace_x], [trace_top_y]) and the
    traced result its legend and colour are built from. *)
Record PathTrace : Type := mkPathTrace {
  trace_x : list R;
  trace_y : list R;
  trace_top_y : list R;
  trace_result : RayTraceResult
}.

(** The callback of [frequencies.forEach] in the four ray plots, on
    the traces pushed so far and the local [max_distance]. *)
Definition plot_ray (with_azimuths : bool) (result : RayTraceResult)
    (acc : list PathTrace * R) : list PathTrace * R :=
  let (traces, max_distance) := acc in
  let t := truncate_path with_azimuths result in
  let max_distance :=
    match status result, truncated_distances t with
    | returns, _ :: _ =>
        let ray_max := Math_max_spread (truncated_distances t) in
        Math_max max_distance ray_max
    | _, _ => max_distance
    end in
  (traces ++ [ {| trace_x := truncated_distances t;
                  trace_y := truncated_altitudes t;
                  trace_top_y := truncated_azimuths t;
                  trace_result := result |} ],
   max_distance).

Record PathPlot : Type := mkPathPlot {
  path_traces : list PathTrace;
  x_max : R
}.

(** The ray plot of a tracer: [trace] is the call the callback makes
    for a frequency, [default_x_max] the range used when no ray
    returns. *)
Definition plot_rays (with_azimuths : bool) (trace : R -> RayTraceResult)
    (default_x_max : R) : PathPlot :=
  let (traces, max_distance) :=
    fold_left (fun acc freq => plot_ray with_azimuths (trace freq) acc)
      frequencies ([], 0) in
  let x_max :=
    if max_distance >? 0 then IZR (Math_ceil (max_distance * 1.1))
    else default_x_max in
  {| path_traces := traces; x_max := x_max |}.

(** The bar chart of the two loss plots: the losses of the rays that
    return, and the top [y_max] of its axis.  [total_loss_dB] is
    present in every object the loss plots trace. *)
Record LossBars : Type := mkLossBars {
  bar_y : list R;
  y_max : R
}.

Definition result_loss (result : RayTraceResult) : R :=
  match total_loss_dB result with
  | Some loss => loss
  | None => 0
  end.

Definition status_is_returns (s : Status) : bool :=
  match s with
  | returns => true
  | _ => false
  end.

Definition loss_bars (trace : R -> RayTraceResult) : LossBars :=
  let loss_data :=
    map (fun freq => let result := trace freq in
                     (freq, result_loss result, status result))
        frequencies in
  let bar_data := filter (fun d => status_is_returns (snd d)) loss_data in
  let losses := map (fun d => snd (fst d)) bar_data in
  let max_loss :=
    match bar_data with
    | _ :: _ => Math_max_spread losses
    | [] => 50
    end in
  let y_max := IZR (Math_ceil (max_loss * 1.25)) in
  {| bar_y := losses; y_max := y_max |}.

Definition plotRayPaths1D (foF2 elevation : R) (season : string) : PathPlot :=
  let ionosphere_func := plot_ionosphere_func foF2 season in
  plot_rays false
    (fun freq =>
       traceRaySphericalWithPath freq elevation ionosphere_func
         default_max_distance_km)
    5000.

Definition plotSignalLoss1D (foF2 elevation : R) (season : string)
  : PathPlot * LossBars :=
  let ionosphere_func := plot_ionosphere_func foF2 season in
  let trace freq :=
    traceRayWithAbsorption freq elevation ionosphere_func
      default_max_distance_km in
  (plot_rays false trace 5000, loss_bars trace).

Definition plot2DTilts (foF2_tx foF2_dist tilt_distance elevation : R)
    (season : string) : PathPlot :=
  plot_rays true
    (fun freq =>
       traceRay2DWithTilts freq elevation foF2_tx foF2_dist tilt_distance
         10000.0 season)
    8000.

Definition plot2DAbsorption (foF2_tx foF2_dist tilt_distance elevation : R)
    (season : string) : PathPlot * LossBars :=
  let trace freq :=
    traceRay2DWithAbsorption freq elevation foF2_tx foF2_dist tilt_distance
      10000.0 season in
  (plot_rays false trace 8000, loss_bars trace).

(** The day/night indicator of [updateSliderDisplays] (main.js): the
    class it gives the element [condition-indicator]. *)
Inductive Condition : Type :=
| condition_night
| condition_transition
| condition_day.

Definition condition_indicator (foF2_1d : R) : Condition :=
  if foF2_1d <? 5 then condition_night
  else if foF2_1d <? 10 then condition_transition
  else condition_day.

(** [sum] of a list of numbers. *)
Definition sum_list (l : list R) : R := fold_right Rplus 0 l.

(** What a plotted ray satisfies: its arrays are the first [k] samples
    of the traced arrays, [k >= 1]; no plotted altitude is above 400;
    the first sample left out, if any, is above 400; and the distances
    of a ray that returns are within the x-axis range. *)
Definition trace_fits (with_azimuths : bool) (x_range : R) (t : PathTrace)
  : Prop :=
  let result := trace_result t in
  exists k : nat,
    (1 <= k <= List.length (altitudes result))%nat /\
    trace_x t = firstn k (distances result) /\
    trace_y t = firstn k (altitudes result) /\
    trace_top_y t
    = (if with_azimuths then firstn k (result_azimuths result) else []) /\
    List.length (trace_x t) = k /\
    List.length (trace_y t) = k /\
    Forall (fun a => a <= 400) (trace_y t) /\
    ((k < List.length (altitudes result))%nat ->
     400 < nth k (altitudes result) 0) /\
    (status result = returns -> Forall (fun d => d <= x_range) (trace_x t)).

(** What a ray plot needs of the traced object: parallel arrays that
    begin with 0.0, with [azimuths] among them where it is plotted. *)
Definition plottable (with_azimuths : bool) (result : RayTraceResult)
  : Prop :=
  parallel_path_1D result /\
  (with_azimuths = true -> parallel_path_2D result).

(** One loop iteration of a tracer from the head of the loop on, as a
    function of the two quantities the iteration derives from the
    electron density: the local [n_complex] and, in the 2D tracers,
    the local [dn_dx].  [two_d] and [absorbing] tell which of the
    optional locals the tracer has, [mk] builds the object it returns.
    The density itself is not an argument. *)
Definition iteration_from_index (two_d absorbing : bool) (omega b : R)
    (mk : RayState -> Status -> RayTraceResult) (max_distance_km : R)
    (n_complex : Complex) (dn_dx : R)
    (step : nat) (st : RayState) : RayState + RayTraceResult :=
  let step_km := 1.0 in
  let r := ray_r st in
  let theta := ray_theta st in
  let x := ray_x st in
  let phi := ray_phi st in
  let total_loss_nepers := ray_total_loss_nepers st in
  let going_up := ray_going_up st in
  let z := r - R_E in
  if (z <? 0.0) && Nat.ltb 10 step then inr (mk st returns)
  else
    let n_real := real n_complex in
    let n_squared :=
      {| real := real n_complex * real n_complex
                 - imag n_complex * imag n_complex;
         imag := 2 * real n_complex * imag n_complex |} in
    let n2_real := real n_squared in
    let alpha :=
      (omega / (2.0 * c)) * Math_abs (imag n_squared)
      / Math_max n_real 1e-10 in
    let '(going_up, sin_psi) :=
      if Math_abs n_real <? 1e-8 then (false, 1.0)
      else (if n2_real <=? 0 then false else going_up, b / (n_real * r)) in
    match
      (if Math_abs sin_psi >=? 1.0 then
         if (z >? 600) && going_up then None
         else Some (false, Math_sign sin_psi * 0.999)
       else Some (going_up, sin_psi))
    with
    | None => inr (mk st escapes)
    | Some (going_up, sin_psi) =>
      if (z >? 800) && going_up then inr (mk st escapes)
      else
        let cos_psi := Math_sqrt (1 - sin_psi * sin_psi) in
        let adaptive_step :=
          if (n_real <? 0.1) || (Math_abs sin_psi >? 0.95)
          then step_km * 0.5 else step_km in
        let path_length_m := adaptive_step * 1000.0 in
        let dphi := azimuth_deflection n_real dn_dx sin_psi adaptive_step in
        let dr := adaptive_step * cos_psi * (if going_up then 1 else -1) in
        let d_theta := adaptive_step * sin_psi / r in
        let r := r + dr in
        let theta := theta + d_theta in
        let st' :=
          {| ray_r := r; ray_theta := theta;
             ray_x := if two_d then x + Math_abs (d_theta * R_E) else x;
             ray_phi := if two_d then phi + dphi else phi;
             ray_total_loss_nepers :=
               if absorbing then total_loss_nepers + alpha * path_length_m
               else total_loss_nepers;
             ray_going_up := going_up;
             ray_distances := push (ray_distances st) (theta * R_E);
             ray_altitudes := push (ray_altitudes st) (r - R_E);
             ray_azimuths :=
               if two_d then push (ray_azimuths st) (phi + dphi)
               else ray_azimuths st |} in
        if (if two_d then x + Math_abs (d_theta * R_E) else theta * R_E)
           >? max_distance_km
        then inr (mk st' stops)
        else inl st'
    end.

(* ================================================================== *)
(** ** Comparisons *)
(* ================================================================== *)

Lemma ltb_true_iff (x y : R) : (x <? y) = true <-> x < y.
Proof. unfold ltb. destruct (Rlt_dec x y); split; intros; easy. Qed.

Lemma ltb_false_iff (x y : R) : (x <? y) = false <-> y <= x.
Proof.
  unfold ltb. destruct (Rlt_dec x y); split; intros; try easy; lra.
Qed.

Lemma leb_true_iff (x y : R) : (x <=? y) = true <-> x <= y.
Proof. unfold leb. destruct (Rle_dec x y); split; intros; easy. Qed.

Lemma leb_false_iff (x y : R) : (x <=? y) = false <-> y < x.
Proof.
  unfold leb. destruct (Rle_dec x y); split; intros; try easy; lra.
Qed.

(** Decide every comparison of the goal both ways and close the cases
    that linear arithmetic refutes. *)
Ltac js_compare :=
  unfold geb, gtb, leb, ltb in *;
  repeat match goal with
         | |- context [Rlt_dec ?a ?b] => destruct (Rlt_dec a b)
         | |- context [Rle_dec ?a ?b] => destruct (Rle_dec a b)
         end;
  try reflexivity; try lra.

(* ================================================================== *)
(** ** Density model: seasons and the night regime *)
(* ================================================================== *)

Lemma season_is_other (season name : string) :
  season <> name -> season_is season name = false.
Proof. intros H. unfold season_is. now apply String.eqb_neq. Qed.

Lemma seasonal_offset_default (foF2 : R) (season : string) :
  season <> "winter"%string -> season <> "summer"%string ->
  seasonal_offset foF2 season = seasonal_offset foF2 "equinox".
Proof.
  intros Hw Hs. unfold seasonal_offset.
  rewrite (season_is_other _ _ Hw), (season_is_other _ _ Hs).
  reflexivity.
Qed.

Lemma F2_scale_height_default (foF2 : R) (season : string) :
  season <> "winter"%string -> season <> "summer"%string ->
  F2_scale_height foF2 season = F2_scale_height foF2 "equinox".
Proof.
  intros Hw Hs. unfold F2_scale_height.
  rewrite (season_is_other _ _ Hw), (season_is_other _ _ Hs).
  reflexivity.
Qed.

Lemma h_F2_default (foF2 : R) (season : string) :
  season <> "winter"%string -> season <> "summer"%string ->
  h_F2 foF2 season = h_F2 foF2 "equinox".
Proof.
  intros Hw Hs. unfold h_F2.
  now rewrite (seasonal_offset_default _ _ Hw Hs).
Qed.

(** C6: a season that is neither 'winter' nor 'summer' (any other
    string) gives, for every altitude array and every foF2, exactly the
    electron densities of season 'equinox'. *)
Theorem C6_unrecognized_season_is_equinox
    (z : list R) (foF2 : R) (season : string) :
  season <> "winter"%string -> season <> "summer"%string ->
  makeIonosphereForFoF2 z foF2 season = makeIonosphereForFoF2 z foF2 "equinox".
Proof.
  intros Hw Hs. unfold makeIonosphereForFoF2.
  rewrite (h_F2_default _ _ Hw Hs), (F2_scale_height_default _ _ Hw Hs).
  reflexivity.
Qed.

Lemma C6_unrecognized_season_witness :
  makeIonosphereForFoF2 [100; 300] 12 "monsoon"
  = makeIonosphereForFoF2 [100; 300] 12 "equinox".
Proof.
  apply (C6_unrecognized_season_is_equinox [100; 300] 12 "monsoon");
    discriminate.
Defined.

(** The index-wise sum of the four layer arrays is the point-wise sum
    of the four single-point layers. *)
Lemma sum_of_layers (g1 g2 g3 g4 : R -> R) (z : list R) :
  map (fun i => index (map g1 z) i + index (map g2 z) i
                + index (map g3 z) i + index (map g4 z) i)
      (seq 0 (List.length z))
  = map (fun a => g1 a + g2 a + g3 a + g4 a) z.
Proof.
  induction z as [| a z IH]; [reflexivity |].
  cbn [List.length seq map]. f_equal.
  rewrite <- seq_shift, map_map. exact IH.
Qed.

Lemma makeIonosphereForFoF2_pointwise
    (z : list R) (foF2 : R) (season : string) :
  makeIonosphereForFoF2 z foF2 season
  = map (fun a => electronDensitySingle a foF2 season) z.
Proof.
  unfold makeIonosphereForFoF2, chapmanLayer. cbv zeta.
  now rewrite sum_of_layers.
Qed.

Lemma D_factor_night : D_factor 4.0 = 0.
Proof. unfold D_factor. js_compare. Qed.

Lemma F1_factor_night : F1_factor 4.0 = 0.
Proof. unfold F1_factor. js_compare. Qed.

Lemma chapmanLayerSingle_no_peak (z z_peak H : R) :
  chapmanLayerSingle z 0 z_peak H = 0.
Proof. unfold chapmanLayerSingle. cbv zeta. ring. Qed.

(** C7: at foF2 = 4.0 MHz, D_factor and F1_factor are exactly 0, the D
    and F1 layers are 0 at every altitude, and the total density is the
    sum of the E-layer and F2-layer Chapman evaluations. *)
Theorem C7_night_regime_layers :
  D_factor 4.0 = 0 /\ F1_factor 4.0 = 0 /\
  (forall z : list R,
      chapmanLayer z (Ne_D_peak 4.0) 75.0 8.0 = map (fun _ => 0) z /\
      chapmanLayer z (Ne_F1_peak 4.0) 190.0 30.0 = map (fun _ => 0) z) /\
  (forall (z : list R) (season : string),
      makeIonosphereForFoF2 z 4.0 season
      = map (fun a =>
               chapmanLayerSingle a (Ne_E_peak 4.0) 110.0 15.0
               + chapmanLayerSingle a (Ne_F2_peak 4.0) (h_F2 4.0 season)
                   (F2_scale_height 4.0 season)) z).
Proof.
  assert (HD : Ne_D_peak 4.0 = 0)
    by (unfold Ne_D_peak; rewrite D_factor_night; ring).
  assert (HF : Ne_F1_peak 4.0 = 0)
    by (unfold Ne_F1_peak; rewrite F1_factor_night; ring).
  split; [exact D_factor_night |].
  split; [exact F1_factor_night |].
  split.
  - intros z. rewrite HD, HF. unfold chapmanLayer.
    split; apply map_ext; intros a; cbv zeta; ring.
  - intros z season. rewrite makeIonosphereForFoF2_pointwise.
    apply map_ext. intros a. unfold electronDensitySingle. cbv zeta.
    rewrite HD, HF, !chapmanLayerSingle_no_peak. ring.
Qed.

(* ================================================================== *)
(** ** Refractive index *)
(* ================================================================== *)

Lemma plasmaFrequencyFromNe_vacuum : plasmaFrequencyFromNe 0 = 0.
Proof.
  unfold plasmaFrequencyFromNe, Math_sqrt. cbv zeta.
  replace (0 * 1.602176634e-19 * 1.602176634e-19
           / (8.8541878128e-12 * 9.1093837015e-31)) with 0
    by (unfold Rdiv; ring).
  rewrite sqrt_0. unfold Rdiv. ring.
Qed.

Lemma Math_atan2_positive_axis : Math_atan2 0 1 = 0.
Proof.
  unfold Math_atan2.
  replace (0 <? 1) with true by (symmetry; apply ltb_true_iff; lra).
  replace (0 / 1) with 0 by (unfold Rdiv; ring).
  exact atan_0.
Qed.

(** [Math.atan2] returns an angle in (-PI, PI]. *)
Lemma Math_atan2_range (y x : R) : - PI < Math_atan2 y x <= PI.
Proof.
  pose proof PI_RGT_0 as Hpi.
  pose proof (atan_bound (y / x)) as Hb.
  unfold Math_atan2.
  destruct (0 <? x) eqn:Hx; [lra |].
  apply ltb_false_iff in Hx.
  destruct (x <? 0) eqn:Hx'.
  - apply ltb_true_iff in Hx'.
    destruct (0 <=? y) eqn:Hy.
    + apply leb_true_iff in Hy.
      assert (y / x <= 0).
      { assert (/ x < 0) by now apply Rinv_lt_0_compat.
        unfold Rdiv. nra. }
      assert (atan (y / x) <= 0).
      { rewrite <- atan_0. destruct H as [H | H].
        - left. now apply atan_increasing.
        - rewrite H. right. reflexivity. }
      lra.
    + apply leb_false_iff in Hy.
      assert (0 < y / x).
      { assert (/ x < 0) by now apply Rinv_lt_0_compat.
        unfold Rdiv. nra. }
      assert (0 < atan (y / x)).
      { rewrite <- atan_0. now apply atan_increasing. }
      lra.
  - destruct (0 <? y); [lra |]. destruct (y <? 0); lra.
Qed.

(** The real part of the principal square root is never negative:
    the modulus is a square root and the half angle lies in
    [-PI/2, PI/2]. *)
Lemma refractiveIndex_real_nonneg (Ne freq_Hz nu : R) :
  0 <= real (refractiveIndex Ne freq_Hz nu).
Proof.
  unfold refractiveIndex. cbv zeta. cbn [real].
  apply Rmult_le_pos.
  - unfold Math_sqrt. apply sqrt_pos.
  - unfold Math_cos.
    match goal with |- 0 <= cos (Math_atan2 ?y ?x / 2.0) =>
      pose proof (Math_atan2_range y x) as Hr end.
    apply cos_ge_0; lra.
Qed.

(** Without plasma the index is 1: X = 0 and the square root of
    1 + 0i has modulus 1 and phase 0. *)
Lemma refractiveIndex_vacuum (f nu : R) :
  refractiveIndex 0 f nu = {| real := 1; imag := 0 |}.
Proof.
  unfold refractiveIndex. cbv zeta.
  rewrite plasmaFrequencyFromNe_vacuum.
  set (omega := 2.0 * Math_PI * f).
  set (Z := nu / omega).
  assert (HX : Math_pow (2.0 * Math_PI * 0 / omega) 2 = 0)
    by (unfold Math_pow, Rdiv; ring).
  rewrite HX.
  replace (1.0 - 0 / (1.0 + Z * Z)) with 1 by (unfold Rdiv; lra).
  replace (0 * Z / (1.0 + Z * Z)) with 0 by (unfold Rdiv; ring).
  replace (1 * 1 + 0 * 0) with 1 by ring.
  unfold Math_sqrt, Math_cos, Math_sin.
  rewrite !sqrt_1, Math_atan2_positive_axis.
  replace (0 / 2.0) with 0 by (unfold Rdiv; ring).
  rewrite cos_0, sin_0. f_equal; ring.
Qed.

(** C4: for every frequency f > 0 and collision frequency nu > 0,
    refractiveIndex(0, f, nu) has real part exactly 1.0 and imaginary
    part exactly 0.0. *)
Theorem C4_vacuum_refractive_index (f nu : R) :
  0 < f -> 0 < nu ->
  real (refractiveIndex 0 f nu) = 1.0 /\ imag (refractiveIndex 0 f nu) = 0.0.
Proof.
  intros _ _. rewrite refractiveIndex_vacuum. cbn [real imag]. split; lra.
Qed.

Lemma C4_vacuum_witness :
  real (refractiveIndex 0 14e6 1e3) = 1.0
  /\ imag (refractiveIndex 0 14e6 1e3) = 0.0.
Proof. apply (C4_vacuum_refractive_index 14e6 1e3); lra. Defined.

(** C5: for every electron density Ne >= 0, frequency f > 0 and
    collision frequency nu >= 0, the real part of
    refractiveIndex(Ne, f, nu) is non-negative. *)
Theorem C5_refractive_index_real_nonneg (Ne f nu : R) :
  0 <= Ne -> 0 < f -> 0 <= nu -> 0 <= real (refractiveIndex Ne f nu).
Proof. intros _ _ _. apply refractiveIndex_real_nonneg. Qed.

Lemma C5_real_nonneg_witness : 0 <= real (refractiveIndex 1e12 7e6 1e3).
Proof. apply (C5_refractive_index_real_nonneg 1e12 7e6 1e3); lra. Defined.

(* ================================================================== *)
(** ** The counted loop: general facts *)
(* ================================================================== *)

Section ForLoop.

Context {St Res : Type}.
Variable body : nat -> St -> St + Res.

Lemma for_loop_iterations (n step : nat) (st : St) :
  (iterations (for_loop body n step st) <= step + n)%nat.
Proof.
  revert step st. induction n as [| n IH]; intros step st; cbn.
  - lia.
  - destruct (body step st) as [st' | res]; cbn; [| lia].
    specialize (IH (S step) st'). lia.
Qed.

Lemma for_loop_exhausted (n step : nat) (st st' : St) (m : nat) :
  for_loop body n step st = Exhausted st' m -> m = (step + n)%nat.
Proof.
  revert step st. induction n as [| n IH]; intros step st; cbn.
  - intros [= _ <-]. lia.
  - destruct (body step st) as [st1 | res]; [| discriminate].
    intros H. apply IH in H. lia.
Qed.

(** The invariant rule of the loop. *)
Lemma for_loop_invariant (I : nat -> St -> Prop) (P : Res -> Prop) :
  (forall step st st', I step st -> body step st = inl st' -> I (S step) st') ->
  (forall step st res, I step st -> body step st = inr res -> P res) ->
  forall (n step : nat) (st : St),
    I step st ->
    match for_loop body n step st with
    | Returned res _ => P res
    | Exhausted st' m => I m st'
    end.
Proof.
  intros Hstep Hret. induction n as [| n IH]; intros step st HI; cbn.
  - exact HI.
  - destruct (body step st) as [st' | res] eqn:E.
    + apply IH. eapply Hstep; eassumption.
    + eapply Hret; eassumption.
Qed.

Lemma state_at_succ (k step : nat) (st : St) :
  state_at body (S k) step st
  = match state_at body k step st with
    | Some sk =>
        match body (step + k) sk with
        | inl st' => Some st'
        | inr _ => None
        end
    | None => None
    end.
Proof.
  revert step st. induction k as [| k IH]; intros step st.
  - cbn. rewrite Nat.add_0_r. now destruct (body step st).
  - cbn [state_at]. destruct (body step st) as [st1 | res]; [| reflexivity].
    rewrite <- Nat.add_succ_comm. apply (IH (S step) st1).
Qed.

(** A [return] in iteration [k] happens on the locals that [k - step]
    iterations produced. *)
Lemma for_loop_returned (n step : nat) (st : St) (res : Res) (k : nat) :
  for_loop body n step st = Returned res k ->
  exists sk : St,
    (step <= k)%nat /\
    state_at body (k - step) step st = Some sk /\ body k sk = inr res.
Proof.
  revert step st. induction n as [| n IH]; intros step st; cbn.
  - discriminate.
  - destruct (body step st) as [st1 | res1] eqn:E.
    + intros H. destruct (IH _ _ H) as (sk & Hle & Hat & Hb).
      exists sk. split; [lia |]. split; [| exact Hb].
      replace (k - step)%nat with (S (k - S step)) by lia.
      cbn [state_at]. now rewrite E.
    + intros [= <- <-]. exists st. rewrite Nat.sub_diag. cbn.
      now repeat split.
Qed.

End ForLoop.

(* ================================================================== *)
(** ** The loop bodies: one iteration *)
(* ================================================================== *)

Lemma no_return_above_ground (z : R) (step : nat) :
  (z <? 0.0) && Nat.ltb 10 step = false ->
  Nat.ltb 10 step = true -> 0.0 <= z.
Proof.
  intros H H1. rewrite H1, andb_true_r in H. now apply ltb_false_iff in H.
Qed.

Lemma forced_reflection_detected : (Math_abs 1.0 >=? 1.0) = true.
Proof.
  unfold Math_abs. rewrite Rabs_pos_eq by lra. apply leb_true_iff. lra.
Qed.

Lemma builder_ok_path : builder_ok false result_path.
Proof. intros st s. now repeat split. Qed.

Lemma builder_ok_absorption : builder_ok false result_absorption.
Proof. intros st s. now repeat split. Qed.

Lemma builder_ok_tilts : builder_ok true result_tilts.
Proof. intros st s. now repeat split. Qed.

Lemma builder_ok_tilts_absorption : builder_ok true result_tilts_absorption.
Proof. intros st s. now repeat split. Qed.

(** Split the body along its tests, source order. *)
Ltac body_cases H :=
  cbv zeta in H;
  repeat match type of H with
         | context [if ?c then _ else _] =>
             let E := fresh "E" in destruct c eqn:E; cbv iota beta in H
         end.

(** Split what is left in the recorded tests; drop impossible paths. *)
Ltac split_tests :=
  repeat match goal with
         | E : context [if ?c then _ else _] |- _ =>
             let E' := fresh "E" in destruct c eqn:E'
         | E : (_ && _) = true |- _ => apply andb_true_iff in E; destruct E
         | E : (Math_abs 1.0 >=? 1.0) = false |- _ =>
             rewrite forced_reflection_detected in E; discriminate E
         end;
  try discriminate.

(** A fall-through path is a completed step. *)
Ltac solve_advances :=
  unfold advances;
  cbn [ray_r ray_theta ray_distances ray_altitudes ray_azimuths
       ray_going_up];
  do 4 eexists;
  split; [reflexivity |];
  split; [reflexivity |];
  split; [reflexivity |];
  split; [eexists; reflexivity |];
  split; [first [reflexivity | eexists; reflexivity] |];
  split; [first [ left; reflexivity
                | right; split; [eassumption | left; reflexivity]
                | right; split; [eassumption | right; reflexivity] ] |];
  split; [first [ exact (refractiveIndex_real_nonneg 0 0 0)
                | apply refractiveIndex_real_nonneg
                | auto ] |];
  split; [first [left; reflexivity | right; reflexivity] |];
  split; [first [left; reflexivity | right; reflexivity] |];
  split; [first [reflexivity | intros; congruence] |];
  intros; eapply no_return_above_ground; eassumption.

Ltac solve_body_inl H :=
  body_cases H; try discriminate H;
  injection H as <-; split_tests; solve_advances.

Ltac solve_body_inr H :=
  body_cases H; try discriminate H;
  injection H as <-; split_tests;
  first [ left; reflexivity
        | right; left; split; [reflexivity | congruence]
        | right; right; eexists; split; [| reflexivity]; solve_advances ].

Lemma traceRaySphericalWithPath_body_inl
    (freq_Hz b : R) (f : R -> R) (max_distance_km : R)
    (step : nat) (st st' : RayState) :
  traceRaySphericalWithPath_body freq_Hz b f max_distance_km step st
  = inl st' ->
  advances false b step st st'.
Proof.
  intros H. unfold traceRaySphericalWithPath_body in H. solve_body_inl H.
Qed.

Lemma traceRaySphericalWithPath_body_inr
    (freq_Hz b : R) (f : R -> R) (max_distance_km : R)
    (step : nat) (st : RayState) (res : RayTraceResult) :
  traceRaySphericalWithPath_body freq_Hz b f max_distance_km step st
  = inr res ->
  returns_from false result_path b step st res.
Proof.
  intros H. unfold traceRaySphericalWithPath_body in H. solve_body_inr H.
Qed.

Lemma traceRayWithAbsorption_body_inl
    (freq_Hz omega b : R) (f : R -> R) (max_distance_km : R)
    (step : nat) (st st' : RayState) :
  traceRayWithAbsorption_body freq_Hz omega b f max_distance_km step st
  = inl st' ->
  advances false b step st st'.
Proof.
  intros H. unfold traceRayWithAbsorption_body in H. solve_body_inl H.
Qed.

Lemma traceRayWithAbsorption_body_inr
    (freq_Hz omega b : R) (f : R -> R) (max_distance_km : R)
    (step : nat) (st : RayState) (res : RayTraceResult) :
  traceRayWithAbsorption_body freq_Hz omega b f max_distance_km step st
  = inr res ->
  returns_from false result_absorption b step st res.
Proof.
  intros H. unfold traceRayWithAbsorption_body in H. solve_body_inr H.
Qed.

Lemma traceRay2DWithTilts_body_inl
    (b : R) (g : R -> R -> Complex) (max_distance_km : R)
    (step : nat) (st st' : RayState) :
  (forall z x : R, 0 <= real (g z x)) ->
  traceRay2DWithTilts_body b g max_distance_km step st = inl st' ->
  advances true b step st st'.
Proof.
  intros Hg H. unfold traceRay2DWithTilts_body in H. solve_body_inl H.
Qed.

Lemma traceRay2DWithTilts_body_inr
    (b : R) (g : R -> R -> Complex) (max_distance_km : R)
    (step : nat) (st : RayState) (res : RayTraceResult) :
  (forall z x : R, 0 <= real (g z x)) ->
  traceRay2DWithTilts_body b g max_distance_km step st = inr res ->
  returns_from true result_tilts b step st res.
Proof.
  intros Hg H. unfold traceRay2DWithTilts_body in H. solve_body_inr H.
Qed.

Lemma traceRay2DWithAbsorption_body_inl
    (omega b : R) (g : R -> R -> Complex) (max_distance_km : R)
    (step : nat) (st st' : RayState) :
  (forall z x : R, 0 <= real (g z x)) ->
  traceRay2DWithAbsorption_body omega b g max_distance_km step st = inl st' ->
  advances true b step st st'.
Proof.
  intros Hg H. unfold traceRay2DWithAbsorption_body in H. solve_body_inl H.
Qed.

Lemma traceRay2DWithAbsorption_body_inr
    (omega b : R) (g : R -> R -> Complex) (max_distance_km : R)
    (step : nat) (st : RayState) (res : RayTraceResult) :
  (forall z x : R, 0 <= real (g z x)) ->
  traceRay2DWithAbsorption_body omega b g max_distance_km step st
  = inr res ->
  returns_from true result_tilts_absorption b step st res.
Proof.
  intros Hg H. unfold traceRay2DWithAbsorption_body in H. solve_body_inr H.
Qed.

Lemma getRefractiveIndex_real_nonneg
    (freq_Hz foF2_at_tx foF2_at_distance tilt_distance : R)
    (season : string) (z x : R) :
  0 <= real (getRefractiveIndex freq_Hz foF2_at_tx foF2_at_distance
               tilt_distance season z x).
Proof. unfold getRefractiveIndex. apply refractiveIndex_real_nonneg. Qed.

(* ================================================================== *)
(** ** Arithmetic of one step *)
(* ================================================================== *)

Lemma Math_sign_nonneg (x : R) : 0 <= x -> 0 <= Math_sign x.
Proof. intros Hx. unfold Math_sign. js_compare. Qed.

Lemma cos_psi_range (sin_psi : R) :
  0 <= Math_sqrt (1 - sin_psi * sin_psi) <= 1.
Proof.
  unfold Math_sqrt. split; [apply sqrt_pos |].
  rewrite <- sqrt_1 at 2. apply sqrt_le_1_alt. nra.
Qed.

Lemma non_decreasing_push (l : list R) (x v : R) :
  non_decreasing (l ++ [x]) -> x <= v -> non_decreasing (push (l ++ [x]) v).
Proof.
  intros Hl Hxv i Hi. unfold push in *.
  rewrite !length_app in Hi. cbn in Hi.
  destruct (Nat.eq_dec i (List.length l)) as [-> | Hne].
  - rewrite app_nth1 by (rewrite length_app; cbn; lia).
    rewrite nth_middle.
    replace (S (List.length l)) with (List.length (l ++ [x]))
      by (rewrite length_app; cbn; lia).
    rewrite nth_middle. exact Hxv.
  - assert (Hlen : List.length (l ++ [x]) = S (List.length l))
      by (rewrite length_app; cbn; lia).
    rewrite (app_nth1 (l ++ [x]) [v] 0 (n := i)) by lia.
    rewrite (app_nth1 (l ++ [x]) [v] 0 (n := S i)) by lia.
    apply Hl. lia.
Qed.

(** The angle of a step is never negative when [b] is not and the ray
    is above the centre of the Earth. *)
Lemma sin_psi_nonneg (b n_real r sin_psi : R) :
  0 <= b -> 0 < r -> 0 <= n_real ->
  (sin_psi = Math_sign 1.0 * 0.999 \/
   (Math_abs n_real <? 1e-8) = false /\
   (sin_psi = b / (n_real * r) \/
    sin_psi = Math_sign (b / (n_real * r)) * 0.999)) ->
  0 <= sin_psi.
Proof.
  intros Hb Hr Hn [-> | [Habs Hs]].
  - pose proof (Math_sign_nonneg 1.0 ltac:(lra)). lra.
  - apply ltb_false_iff in Habs. unfold Math_abs in Habs.
    rewrite Rabs_pos_eq in Habs by exact Hn.
    assert (Hq : 0 <= b / (n_real * r)).
    { apply Rmult_le_pos; [exact Hb |].
      left. apply Rinv_0_lt_compat. nra. }
    destruct Hs as [-> | ->]; [exact Hq |].
    pose proof (Math_sign_nonneg _ Hq). lra.
Qed.

Lemma R_E_positive : 11 < R_E.
Proof. unfold R_E. lra. Qed.

Lemma ray_above_positive (step : nat) (st : RayState) :
  ray_above step st -> 0 < ray_r st.
Proof.
  unfold ray_above. intros H.
  assert (INR (Nat.min step 11) <= INR 11)
    by (apply le_INR, Nat.le_min_r).
  replace (INR 11) with 11 in * by (cbn; lra).
  pose proof R_E_positive. lra.
Qed.

(* ================================================================== *)
(** ** What every tracer inherits from the shape of its loop body *)
(* ================================================================== *)

Section Integrator.

Variable two_d : bool.
Variable mk : RayState -> Status -> RayTraceResult.
Variable b : R.
Variable body : Body.

Hypothesis Hmk : builder_ok two_d mk.
Hypothesis Hinl :
  forall (step : nat) (st st' : RayState),
    body step st = inl st' -> advances two_d b step st st'.
Hypothesis Hinr :
  forall (step : nat) (st : RayState) (res : RayTraceResult),
    body step st = inr res -> returns_from two_d mk b step st res.

Lemma advances_descending (step : nat) (st st' : RayState) :
  advances two_d b step st st' ->
  ray_going_up st = false -> ray_going_up st' = false.
Proof.
  intros (n & s & a & d & _ & _ & _ & _ & _ & _ & _ & _ & _ & Hup & _) Hst.
  destruct (ray_going_up st') eqn:E; [| reflexivity].
  rewrite Hup in Hst by reflexivity. discriminate.
Qed.

Lemma state_at_descending (d j : nat) (sj sk : RayState) :
  state_at body j 0 initial_state = Some sj ->
  state_at body (j + d) 0 initial_state = Some sk ->
  ray_going_up sj = false -> ray_going_up sk = false.
Proof.
  revert sk. induction d as [| d IH]; intros sk Hj Hk Hdown.
  - rewrite Nat.add_0_r in Hk. congruence.
  - rewrite Nat.add_succ_r, state_at_succ in Hk.
    destruct (state_at body (j + d) 0 initial_state) as [sm |] eqn:Em;
      [| discriminate].
    destruct (body (0 + (j + d))%nat sm) as [st' |] eqn:Eb; [| discriminate].
    injection Hk as <-.
    eapply advances_descending; [eapply Hinl; exact Eb |].
    now apply IH.
Qed.

Lemma loop_never_ascends_again : never_ascends_again body.
Proof.
  intros j k sj sk Hle Hj Hk Hdown.
  replace k with (j + (k - j))%nat in Hk by lia.
  apply (state_at_descending (k - j) j sj sk); assumption.
Qed.

Lemma loop_escapes_only_ascending : escapes_only_ascending body.
Proof.
  intros n k res Hloop Hesc.
  destruct (for_loop_returned body _ _ _ _ _ Hloop) as (sk & _ & Hat & Hb).
  rewrite Nat.sub_0_r in Hat. exists sk. split; [exact Hat |].
  destruct (Hinr _ _ _ Hb) as [-> | [[-> Hup] | (st' & _ & ->)]].
  - destruct (Hmk sk returns) as (_ & _ & Hs & _). congruence.
  - exact Hup.
  - destruct (Hmk st' stops) as (_ & _ & Hs & _). congruence.
Qed.

Lemma arrays_parallel_initial : arrays_parallel two_d initial_state.
Proof.
  unfold arrays_parallel, begins_with_zero. cbn.
  repeat split; try (now exists []). now destruct two_d.
Qed.

Lemma advances_arrays (step : nat) (st st' : RayState) :
  arrays_parallel two_d st -> advances two_d b step st st' ->
  arrays_parallel two_d st'.
Proof.
  intros (Hlen & (td & Hd) & (ta & Ha) & Haz & (tz & Hz))
         (n & s & a & d & _ & _ & Hd' & (alt & Ha') & Hz' & _).
  unfold arrays_parallel, begins_with_zero.
  rewrite Hd', Ha'. unfold push. rewrite !length_app. cbn [List.length].
  split; [lia |].
  split; [rewrite Hd; now eexists |].
  split; [rewrite Ha; now eexists |].
  destruct two_d.
  - destruct Hz' as (p & ->). unfold push. rewrite length_app.
    cbn [List.length]. split; [lia |]. rewrite Hz. now eexists.
  - rewrite Hz'. split; [exact I | now exists tz].
Qed.

Lemma arrays_of_result (st : RayState) (s : Status) :
  arrays_parallel two_d st ->
  parallel_path_1D (mk st s) /\
  (two_d = true -> parallel_path_2D (mk st s)).
Proof.
  intros (Hlen & Hd & Ha & Haz & (tz & Hz)).
  destruct (Hmk st s) as (Ed & Ea & _ & Ez).
  assert (H1 : parallel_path_1D (mk st s))
    by (unfold parallel_path_1D; rewrite Ed, Ea; now repeat split).
  split; [exact H1 |]. intros ->. split; [exact H1 |].
  eexists. split; [exact Ez |]. rewrite length_map, Ed.
  split; [exact Haz |].
  rewrite Hz. cbn [map]. eexists. f_equal. unfold Rdiv. lra.
Qed.

Lemma loop_parallel_arrays (n : nat) :
  parallel_path_1D (result_of_loop mk (for_loop body n 0 initial_state)) /\
  (two_d = true ->
   parallel_path_2D (result_of_loop mk (for_loop body n 0 initial_state))).
Proof.
  pose proof (for_loop_invariant body
                (fun _ st => arrays_parallel two_d st)
                (fun res => parallel_path_1D res /\
                            (two_d = true -> parallel_path_2D res))) as Hinv.
  specialize (Hinv
    (fun step st st' HI Hb => advances_arrays step st st' HI (Hinl _ _ _ Hb))).
  assert (Hret : forall (step : nat) (st : RayState) (res : RayTraceResult),
             arrays_parallel two_d st -> body step st = inr res ->
             parallel_path_1D res /\ (two_d = true -> parallel_path_2D res)).
  { intros step st res HI Hb.
    destruct (Hinr _ _ _ Hb) as [-> | [[-> _] | (st' & Hadv & ->)]];
      apply arrays_of_result; try exact HI.
    eapply advances_arrays; eassumption. }
  specialize (Hinv Hret n 0%nat initial_state arrays_parallel_initial).
  destruct (for_loop body n 0 initial_state) as [res k | st k]; cbn.
  - exact Hinv.
  - now apply arrays_of_result.
Qed.

Hypothesis Hb : 0 <= b.

Lemma advances_sorted (step : nat) (st st' : RayState) :
  ray_above step st -> path_sorted st -> advances two_d b step st st' ->
  ray_above (S step) st' /\ path_sorted st'.
Proof.
  intros Habove (Hsorted & l & Hlast)
         (n & s & a & d & Hr & Hth & Hd & _ & _ & Hs & Hn & Ha & Hdir & _
          & Hground).
  pose proof (ray_above_positive _ _ Habove) as Hpos.
  pose proof (sin_psi_nonneg b n (ray_r st) s Hb Hpos Hn Hs) as Hsin.
  pose proof (cos_psi_range s) as Hcos.
  assert (Hstep : 0 < a <= 1) by (destruct Ha as [-> | ->]; lra).
  assert (Hdr : ray_r st - 1 <= ray_r st')
    by (rewrite Hr; destruct Hdir as [-> | ->]; nra).
  assert (Hdth : ray_theta st <= ray_theta st').
  { rewrite Hth.
    assert (0 <= a * s / ray_r st).
    { apply Rmult_le_pos; [nra |]. left. now apply Rinv_0_lt_compat. }
    lra. }
  split.
  - unfold ray_above in *.
    destruct (Nat.ltb 10 step) eqn:E.
    + apply Nat.ltb_lt in E. specialize (Hground eq_refl).
      rewrite Nat.min_r by lia.
      replace (INR 11) with 11 by (cbn; lra). lra.
    + apply Nat.ltb_ge in E.
      rewrite Nat.min_l in * by lia. rewrite S_INR. lra.
  - split.
    + rewrite Hd, Hlast. apply non_decreasing_push.
      * rewrite <- Hlast. exact Hsorted.
      * pose proof R_E_positive. nra.
    + exists (ray_distances st). rewrite Hd. reflexivity.
Qed.

Lemma path_sorted_initial :
  ray_above 0 initial_state /\ path_sorted initial_state.
Proof.
  split.
  - unfold ray_above. cbn. lra.
  - split.
    + intros i Hi. cbn in Hi. lia.
    + exists []. cbn. f_equal. lra.
Qed.

Lemma loop_non_decreasing (n : nat) :
  non_decreasing
    (distances (result_of_loop mk (for_loop body n 0 initial_state))).
Proof.
  pose proof (for_loop_invariant body
                (fun step st => ray_above step st /\ path_sorted st)
                (fun res => non_decreasing (distances res))) as Hinv.
  assert (Hstep : forall (step : nat) (st st' : RayState),
             ray_above step st /\ path_sorted st -> body step st = inl st' ->
             ray_above (S step) st' /\ path_sorted st').
  { intros step st st' [H1 H2] Hbody.
    eapply advances_sorted; eauto. }
  assert (Hret : forall (step : nat) (st : RayState) (res : RayTraceResult),
             ray_above step st /\ path_sorted st -> body step st = inr res ->
             non_decreasing (distances res)).
  { intros step st res [H1 H2] Hbody.
    destruct (Hinr _ _ _ Hbody) as [-> | [[-> _] | (st' & Hadv & ->)]].
    - destruct (Hmk st returns) as (-> & _). apply H2.
    - destruct (Hmk st escapes) as (-> & _). apply H2.
    - destruct (Hmk st' stops) as (-> & _).
      destruct (advances_sorted _ _ _ H1 H2 Hadv) as [_ H]. apply H. }
  specialize (Hinv Hstep Hret n 0%nat initial_state path_sorted_initial).
  destruct (for_loop body n 0 initial_state) as [res k | st k]; cbn.
  - exact Hinv.
  - destruct (Hmk st stops) as (-> & _). apply Hinv.
Qed.

End Integrator.

(* ================================================================== *)
(** ** The four tracers *)
(* ================================================================== *)

Lemma launch_angle_positive (elevation_deg : R) :
  0 < elevation_deg < 90 -> 0 < Math_sin (elevation_deg * Math_PI / 180.0).
Proof.
  intros [H0 H90]. pose proof PI_RGT_0 as Hpi.
  unfold Math_sin, Math_PI. apply sin_gt_0.
  - unfold Rdiv. nra.
  - unfold Rdiv. nra.
Qed.

Lemma ray_parameter_1D_nonneg
    (freq_Hz elevation_deg : R) (f : R -> R) :
  0 < elevation_deg < 90 ->
  0 <= ray_parameter_1D freq_Hz (elevation_deg * Math_PI / 180.0) f.
Proof.
  intros H. apply launch_angle_positive in H.
  unfold ray_parameter_1D. cbv zeta.
  pose proof (refractiveIndex_real_nonneg (f 0.0) freq_Hz
                (collisionFrequency 0.0)).
  pose proof R_E_positive.
  apply Rmult_le_pos; [apply Rmult_le_pos |]; lra.
Qed.

Lemma ray_parameter_2D_nonneg
    (elevation_deg : R) (g : R -> R -> Complex) :
  (forall z x : R, 0 <= real (g z x)) ->
  0 < elevation_deg < 90 ->
  0 <= ray_parameter_2D (elevation_deg * Math_PI / 180.0) g.
Proof.
  intros Hg H. apply launch_angle_positive in H.
  unfold ray_parameter_2D. cbv zeta.
  pose proof (Hg 0.0 0.0). pose proof R_E_positive.
  apply Rmult_le_pos; [apply Rmult_le_pos |]; lra.
Qed.

Lemma max_steps_default : max_steps default_max_distance_km = 10000%Z.
Proof.
  unfold max_steps, default_max_distance_km, Math_floor. cbv zeta.
  symmetry. apply Int_part_spec. lra.
Qed.

Lemma for_loop_bounded_then_stops
    (mk : RayState -> Status -> RayTraceResult) (two_d : bool)
    (body : Body) (n : nat) :
  builder_ok two_d mk ->
  bounded_then_stops (for_loop body n 0 initial_state)
    (result_of_loop mk (for_loop body n 0 initial_state)) n.
Proof.
  intros Hmk. split.
  - apply (for_loop_iterations body n 0 initial_state).
  - intros st m E. split.
    + now apply for_loop_exhausted in E.
    + rewrite E. cbn. now destruct (Hmk st stops) as (_ & _ & -> & _).
Qed.

(** C8: every tracer runs its loop body at most
    floor(max_distance_km / step_km) times, step_km being 1 km (10000
    times for the default max_distance_km = 10000), and when the loop
    test fails with no [return] taken the status is 'stops'. *)
Theorem C8_tracers_stop_within_bound :
  (forall (freq_MHz elevation_deg : R) (f : R -> R) (max_distance_km : R),
      bounded_then_stops
        (traceRaySphericalWithPath_loop freq_MHz elevation_deg f
           max_distance_km)
        (traceRaySphericalWithPath freq_MHz elevation_deg f max_distance_km)
        (Z.to_nat (max_steps max_distance_km))) /\
  (forall (freq_MHz elevation_deg : R) (f : R -> R) (max_distance_km : R),
      bounded_then_stops
        (traceRayWithAbsorption_loop freq_MHz elevation_deg f max_distance_km)
        (traceRayWithAbsorption freq_MHz elevation_deg f max_distance_km)
        (Z.to_nat (max_steps max_distance_km))) /\
  (forall (freq_MHz elevation_deg foF2_tx foF2_dist tilt : R)
          (max_distance_km : R) (season : string),
      bounded_then_stops
        (traceRay2DWithTilts_loop freq_MHz elevation_deg foF2_tx foF2_dist
           tilt max_distance_km season)
        (traceRay2DWithTilts freq_MHz elevation_deg foF2_tx foF2_dist tilt
           max_distance_km season)
        (Z.to_nat (max_steps max_distance_km))) /\
  (forall (freq_MHz elevation_deg foF2_tx foF2_dist tilt : R)
          (max_distance_km : R) (season : string),
      bounded_then_stops
        (traceRay2DWithAbsorption_loop freq_MHz elevation_deg foF2_tx
           foF2_dist tilt max_distance_km season)
        (traceRay2DWithAbsorption freq_MHz elevation_deg foF2_tx foF2_dist
           tilt max_distance_km season)
        (Z.to_nat (max_steps max_distance_km))) /\
  max_steps default_max_distance_km = 10000%Z.
Proof.
  split; [| split; [| split; [| split]]]; intros.
  - apply (for_loop_bounded_then_stops result_path false),
      builder_ok_path.
  - apply (for_loop_bounded_then_stops result_absorption false),
      builder_ok_absorption.
  - apply (for_loop_bounded_then_stops result_tilts true),
      builder_ok_tilts.
  - apply (for_loop_bounded_then_stops result_tilts_absorption true),
      builder_ok_tilts_absorption.
  - exact max_steps_default.
Qed.

(** C9: in every tracer [going_up] starts true and, once false at the
    head of an iteration, is false at the head of every later one; a
    [return] of status 'escapes' is taken only in an iteration entered
    with [going_up] still true. *)
Theorem C9_going_up_never_restored :
  ray_going_up initial_state = true /\
  (forall (freq_Hz b : R) (f : R -> R) (max_distance_km : R),
      let body :=
        traceRaySphericalWithPath_body freq_Hz b f max_distance_km in
      never_ascends_again body /\ escapes_only_ascending body) /\
  (forall (freq_Hz omega b : R) (f : R -> R) (max_distance_km : R),
      let body :=
        traceRayWithAbsorption_body freq_Hz omega b f max_distance_km in
      never_ascends_again body /\ escapes_only_ascending body) /\
  (forall (freq_Hz foF2_tx foF2_dist tilt : R) (season : string)
          (b max_distance_km : R),
      let body :=
        traceRay2DWithTilts_body b
          (getRefractiveIndex freq_Hz foF2_tx foF2_dist tilt season)
          max_distance_km in
      never_ascends_again body /\ escapes_only_ascending body) /\
  (forall (freq_Hz foF2_tx foF2_dist tilt : R) (season : string)
          (omega b max_distance_km : R),
      let body :=
        traceRay2DWithAbsorption_body omega b
          (getRefractiveIndex freq_Hz foF2_tx foF2_dist tilt season)
          max_distance_km in
      never_ascends_again body /\ escapes_only_ascending body).
Proof.
  split; [reflexivity |].
  split; [| split; [| split]]; intros; subst body.
  - split.
    + eapply loop_never_ascends_again.
      intros ? ? ?. apply traceRaySphericalWithPath_body_inl.
    + eapply loop_escapes_only_ascending; [apply builder_ok_path |].
      intros ? ? ?. apply traceRaySphericalWithPath_body_inr.
  - split.
    + eapply loop_never_ascends_again.
      intros ? ? ?. apply traceRayWithAbsorption_body_inl.
    + eapply loop_escapes_only_ascending; [apply builder_ok_absorption |].
      intros ? ? ?. apply traceRayWithAbsorption_body_inr.
  - split.
    + eapply loop_never_ascends_again.
      intros ? ? ?. apply traceRay2DWithTilts_body_inl.
      intros. apply getRefractiveIndex_real_nonneg.
    + eapply loop_escapes_only_ascending; [apply builder_ok_tilts |].
      intros ? ? ?. apply traceRay2DWithTilts_body_inr.
      intros. apply getRefractiveIndex_real_nonneg.
  - split.
    + eapply loop_never_ascends_again.
      intros ? ? ?. apply traceRay2DWithAbsorption_body_inl.
      intros. apply getRefractiveIndex_real_nonneg.
    + eapply loop_escapes_only_ascending;
        [apply builder_ok_tilts_absorption |].
      intros ? ? ?. apply traceRay2DWithAbsorption_body_inr.
      intros. apply getRefractiveIndex_real_nonneg.
Qed.

Lemma loop_parallel_1D (two_d : bool)
    (mk : RayState -> Status -> RayTraceResult) (b : R) (body : Body)
    (n : nat) :
  builder_ok two_d mk ->
  (forall step st st', body step st = inl st' ->
                       advances two_d b step st st') ->
  (forall step st res, body step st = inr res ->
                       returns_from two_d mk b step st res) ->
  parallel_path_1D (result_of_loop mk (for_loop body n 0 initial_state)).
Proof.
  intros Hmk Hinl Hinr.
  exact (proj1 (loop_parallel_arrays two_d mk b body Hmk Hinl Hinr n)).
Qed.

Lemma loop_parallel_2D
    (mk : RayState -> Status -> RayTraceResult) (b : R) (body : Body)
    (n : nat) :
  builder_ok true mk ->
  (forall step st st', body step st = inl st' ->
                       advances true b step st st') ->
  (forall step st res, body step st = inr res ->
                       returns_from true mk b step st res) ->
  parallel_path_2D (result_of_loop mk (for_loop body n 0 initial_state)).
Proof.
  intros Hmk Hinl Hinr.
  exact (proj2 (loop_parallel_arrays true mk b body Hmk Hinl Hinr n)
               eq_refl).
Qed.

(** C10: every object a tracer returns, for every input and every
    status, carries [distances] and [altitudes] (and [azimuths] in the
    2D tracers) of equal length, each non-empty and beginning with
    0.0. *)
Theorem C10_parallel_arrays :
  (forall (freq_MHz elevation_deg : R) (f : R -> R) (max_distance_km : R),
      parallel_path_1D
        (traceRaySphericalWithPath freq_MHz elevation_deg f
           max_distance_km)) /\
  (forall (freq_MHz elevation_deg : R) (f : R -> R) (max_distance_km : R),
      parallel_path_1D
        (traceRayWithAbsorption freq_MHz elevation_deg f max_distance_km)) /\
  (forall (freq_MHz elevation_deg foF2_tx foF2_dist tilt : R)
          (max_distance_km : R) (season : string),
      parallel_path_2D
        (traceRay2DWithTilts freq_MHz elevation_deg foF2_tx foF2_dist tilt
           max_distance_km season)) /\
  (forall (freq_MHz elevation_deg foF2_tx foF2_dist tilt : R)
          (max_distance_km : R) (season : string),
      parallel_path_2D
        (traceRay2DWithAbsorption freq_MHz elevation_deg foF2_tx foF2_dist
           tilt max_distance_km season)).
Proof.
  split; [| split; [| split]]; intros.
  - eapply (loop_parallel_1D false result_path);
      [apply builder_ok_path | |].
    + intros ? ? ?. apply traceRaySphericalWithPath_body_inl.
    + intros ? ? ?. apply traceRaySphericalWithPath_body_inr.
  - eapply (loop_parallel_1D false result_absorption);
      [apply builder_ok_absorption | |].
    + intros ? ? ?. apply traceRayWithAbsorption_body_inl.
    + intros ? ? ?. apply traceRayWithAbsorption_body_inr.
  - eapply (loop_parallel_2D result_tilts);
      [apply builder_ok_tilts | |].
    + intros ? ? ?. apply traceRay2DWithTilts_body_inl.
      intros. apply getRefractiveIndex_real_nonneg.
    + intros ? ? ?. apply traceRay2DWithTilts_body_inr.
      intros. apply getRefractiveIndex_real_nonneg.
  - eapply (loop_parallel_2D result_tilts_absorption);
      [apply builder_ok_tilts_absorption | |].
    + intros ? ? ?. apply traceRay2DWithAbsorption_body_inl.
      intros. apply getRefractiveIndex_real_nonneg.
    + intros ? ? ?. apply traceRay2DWithAbsorption_body_inr.
      intros. apply getRefractiveIndex_real_nonneg.
Qed.

(** C3: for every trace launched with elevation_deg in (0, 90), the
    [distances] of the returned object are non-decreasing: each sample
    is greater than or equal to the one before it. *)
Theorem C3_distances_non_decreasing (elevation_deg : R) :
  0 < elevation_deg < 90 ->
  (forall (freq_MHz : R) (f : R -> R) (max_distance_km : R),
      non_decreasing
        (distances (traceRaySphericalWithPath freq_MHz elevation_deg f
                      max_distance_km))) /\
  (forall (freq_MHz : R) (f : R -> R) (max_distance_km : R),
      non_decreasing
        (distances (traceRayWithAbsorption freq_MHz elevation_deg f
                      max_distance_km))) /\
  (forall (freq_MHz foF2_tx foF2_dist tilt max_distance_km : R)
          (season : string),
      non_decreasing
        (distances (traceRay2DWithTilts freq_MHz elevation_deg foF2_tx
                      foF2_dist tilt max_distance_km season))) /\
  (forall (freq_MHz foF2_tx foF2_dist tilt max_distance_km : R)
          (season : string),
      non_decreasing
        (distances (traceRay2DWithAbsorption freq_MHz elevation_deg foF2_tx
                      foF2_dist tilt max_distance_km season))).
Proof.
  intros Helev.
  split; [| split; [| split]]; intros.
  - eapply (loop_non_decreasing false result_path);
      [apply builder_ok_path | | |].
    + intros ? ? ?. apply traceRaySphericalWithPath_body_inl.
    + intros ? ? ?. apply traceRaySphericalWithPath_body_inr.
    + now apply ray_parameter_1D_nonneg.
  - eapply (loop_non_decreasing false result_absorption);
      [apply builder_ok_absorption | | |].
    + intros ? ? ?. apply traceRayWithAbsorption_body_inl.
    + intros ? ? ?. apply traceRayWithAbsorption_body_inr.
    + now apply ray_parameter_1D_nonneg.
  - eapply (loop_non_decreasing true result_tilts);
      [apply builder_ok_tilts | | |].
    + intros ? ? ?. apply traceRay2DWithTilts_body_inl.
      intros. apply getRefractiveIndex_real_nonneg.
    + intros ? ? ?. apply traceRay2DWithTilts_body_inr.
      intros. apply getRefractiveIndex_real_nonneg.
    + apply ray_parameter_2D_nonneg; [| exact Helev].
      intros. apply getRefractiveIndex_real_nonneg.
  - eapply (loop_non_decreasing true result_tilts_absorption);
      [apply builder_ok_tilts_absorption | | |].
    + intros ? ? ?. apply traceRay2DWithAbsorption_body_inl.
      intros. apply getRefractiveIndex_real_nonneg.
    + intros ? ? ?. apply traceRay2DWithAbsorption_body_inr.
      intros. apply getRefractiveIndex_real_nonneg.
    + apply ray_parameter_2D_nonneg; [| exact Helev].
      intros. apply getRefractiveIndex_real_nonneg.
Qed.

Lemma C3_distances_witness :
  non_decreasing
    (distances (traceRaySphericalWithPath 14 30
                  (plot_ionosphere_func 12 "equinox")
                  default_max_distance_km))
  /\ non_decreasing
       (distances (traceRay2DWithAbsorption 14 30 15 4 3000
                     default_max_distance_km "equinox")).
Proof.
  assert (H : 0 < 30 < 90) by lra.
  destruct (C3_distances_non_decreasing 30 H) as (H1 & _ & _ & H4).
  split; [apply H1 | apply H4].
Defined.

(** C2, as stated, fails: a call with a negative frequency, and a call
    with an elevation of 90 degrees, complete normally; no error is
    raised. *)
Lemma C2_invalid_inputs_counterexample :
  ~ valid_inputs (-14) 30 /\
  is_error (call_traceRaySphericalWithPath (-14) 30
              (plot_ionosphere_func 12 "equinox") default_max_distance_km)
  = false /\
  ~ valid_inputs 14 90 /\
  is_error (call_traceRay2DWithTilts 14 90 15 4 3000
              default_max_distance_km "equinox")
  = false.
Proof.
  unfold valid_inputs. repeat split; try reflexivity; intros H; lra.
Qed.

(** C2, amended: no tracer checks frequency_MHz or elevation_deg; every
    call, with inputs inside the contract or outside it, completes
    normally with the object the tracer builds, and raises no error. *)
Theorem C2_tracers_never_raise :
  (forall (freq_MHz elevation_deg : R) (f : R -> R) (max_distance_km : R),
      call_traceRaySphericalWithPath freq_MHz elevation_deg f max_distance_km
      = Normal (traceRaySphericalWithPath freq_MHz elevation_deg f
                  max_distance_km) /\
      call_traceRayWithAbsorption freq_MHz elevation_deg f max_distance_km
      = Normal (traceRayWithAbsorption freq_MHz elevation_deg f
                  max_distance_km)) /\
  (forall (freq_MHz elevation_deg foF2_tx foF2_dist tilt : R)
          (max_distance_km : R) (season : string),
      call_traceRay2DWithTilts freq_MHz elevation_deg foF2_tx foF2_dist tilt
        max_distance_km season
      = Normal (traceRay2DWithTilts freq_MHz elevation_deg foF2_tx foF2_dist
                  tilt max_distance_km season) /\
      call_traceRay2DWithAbsorption freq_MHz elevation_deg foF2_tx foF2_dist
        tilt max_distance_km season
      = Normal (traceRay2DWithAbsorption freq_MHz elevation_deg foF2_tx
                  foF2_dist tilt max_distance_km season)).
Proof. split; intros; split; reflexivity. Qed.

(* ================================================================== *)
(** ** The density a tracer uses *)
(* ================================================================== *)

Lemma chapmanLayerSingle_pos (z N_peak z_peak H : R) :
  0 < N_peak -> 0 < chapmanLayerSingle z N_peak z_peak H.
Proof.
  intros HN. unfold chapmanLayerSingle, Math_exp. cbv zeta.
  apply Rmult_lt_0_compat; [exact HN | apply exp_pos].
Qed.

Lemma plot_ionosphere_func_single (foF2 : R) (season : string) (z : R) :
  plot_ionosphere_func foF2 season z = electronDensitySingle z foF2 season.
Proof.
  unfold plot_ionosphere_func. cbv zeta.
  rewrite makeIonosphereForFoF2_pointwise. reflexivity.
Qed.

Lemma day_peaks_positive :
  0 < Ne_D_peak 12 /\ 0 < Ne_E_peak 12 /\ 0 < Ne_F1_peak 12
  /\ 0 < Ne_F2_peak 12.
Proof.
  unfold Ne_D_peak, D_factor, Ne_E_peak, E_factor, Ne_F1_peak, F1_factor,
    Ne_F2_peak, Math_pow, Math_min, Rmin.
  cbv zeta. repeat split.
  - js_compare.
  - destruct (Rle_dec 1.0 (12 / 12.0)); lra.
  - js_compare.
  - assert (0 < 12 * 1e6 / 8.98) by lra. nra.
Qed.

(** The density the plots' callable gives a 1D tracer at 700 km. *)
Lemma plot_density_at_700_positive :
  0 < Ne_1D (plot_ionosphere_func 12 "equinox") 700.
Proof.
  unfold Ne_1D.
  replace (700 >=? 0) with true by (symmetry; apply leb_true_iff; lra).
  rewrite plot_ionosphere_func_single.
  destruct day_peaks_positive as (HD & HE & HF1 & HF2).
  unfold electronDensitySingle. cbv zeta.
  pose proof (chapmanLayerSingle_pos 700 _ 75.0 8.0 HD).
  pose proof (chapmanLayerSingle_pos 700 _ 110.0 15.0 HE).
  pose proof (chapmanLayerSingle_pos 700 _ 190.0 30.0 HF1).
  pose proof (chapmanLayerSingle_pos 700 _ (h_F2 12 "equinox")
                (F2_scale_height 12 "equinox") HF2).
  lra.
Qed.

(** Turn the recorded tests into inequalities. *)
Ltac reflect_tests :=
  unfold geb, gtb in *;
  repeat match goal with
         | E : (_ && _) = true |- _ => apply andb_true_iff in E; destruct E
         | E : (_ && _) = false |- _ => apply andb_false_iff in E; destruct E
         | E : (_ || _) = true |- _ => apply orb_true_iff in E; destruct E
         | E : (_ || _) = false |- _ => apply orb_false_iff in E; destruct E
         | E : (_ <? _) = true |- _ => apply ltb_true_iff in E
         | E : (_ <? _) = false |- _ => apply ltb_false_iff in E
         | E : (_ <=? _) = true |- _ => apply leb_true_iff in E
         | E : (_ <=? _) = false |- _ => apply leb_false_iff in E
         end.


(* ================================================================== *)
(** ** Density model: shape of a layer and range of its parameters *)
(* ================================================================== *)

Lemma Math_exp_le_1 (x : R) : x <= 0 -> Math_exp x <= 1.
Proof.
  intros [H | ->]; unfold Math_exp.
  - left. rewrite <- exp_0. now apply exp_increasing.
  - rewrite exp_0. lra.
Qed.

Lemma chapman_exponent_nonpos (u : R) : 1.0 - u - Math_exp (- u) <= 0.
Proof. unfold Math_exp. pose proof (exp_ineq1_le (- u)). lra. Qed.

Lemma chapmanLayerSingle_range (z N_peak z_peak H : R) :
  0 <= N_peak -> 0 <= chapmanLayerSingle z N_peak z_peak H <= N_peak.
Proof.
  intros HN. unfold chapmanLayerSingle. cbv zeta.
  set (e := 1.0 - (z - z_peak) / H - Math_exp (- ((z - z_peak) / H))).
  assert (He : Math_exp e <= 1)
    by (apply Math_exp_le_1, chapman_exponent_nonpos).
  assert (0 < Math_exp e) by apply exp_pos.
  split; nra.
Qed.

(** X1: A Chapman layer is never negative, never exceeds its peak density
    and equals it at the peak altitude. *)
Theorem X1_chapman_layer_peak (z N_peak z_peak H : R) :
  0 <= N_peak -> 0 < H ->
  0 <= chapmanLayerSingle z N_peak z_peak H <= N_peak /\
  chapmanLayerSingle z_peak N_peak z_peak H = N_peak.
Proof.
  intros HN HH. split; [now apply chapmanLayerSingle_range |].
  unfold chapmanLayerSingle, Math_exp. cbv zeta.
  replace ((z_peak - z_peak) / H) with 0 by (unfold Rdiv; ring).
  replace (1.0 - 0 - exp (- 0)) with 0 by (rewrite Ropp_0, exp_0; lra).
  rewrite exp_0. ring.
Qed.

Lemma X1_chapman_layer_peak_witness :
  0 <= chapmanLayerSingle 250 1e12 300 55 <= 1e12 /\
  chapmanLayerSingle 300 1e12 300 55 = 1e12.
Proof. apply (X1_chapman_layer_peak 250 1e12 300 55); lra. Defined.

Ltac js_minmax :=
  unfold Math_max, Math_min, Rmax, Rmin;
  repeat match goal with
         | |- context [Rle_dec ?a ?b] => destruct (Rle_dec a b)
         | H : context [Rle_dec ?a ?b] |- _ => destruct (Rle_dec a b)
         end;
  try lra.

Lemma h_F2_range (foF2 : R) (season : string) :
  (foF2 < 4.5 -> 260 <= h_F2 foF2 season <= 360) /\
  (4.5 <= foF2 < 7.0 -> 280 <= h_F2 foF2 season <= 320) /\
  (7.0 <= foF2 -> 240 <= h_F2 foF2 season <= 330).
Proof.
  unfold h_F2. cbv zeta.
  generalize (h_F2_regime foF2 + seasonal_offset foF2 season). intros h.
  repeat split; intros; unfold ltb;
    repeat match goal with
           | |- context [Rlt_dec ?a ?b] => destruct (Rlt_dec a b); try lra
           end; js_minmax.
Qed.

Lemma F2_scale_height_range (foF2 : R) (season : string) :
  44 <= F2_scale_height foF2 season <= 84.
Proof.
  unfold F2_scale_height. cbv zeta.
  destruct (season_is season "winter"), (season_is season "summer");
    unfold ltb;
    repeat match goal with
           | |- context [Rlt_dec ?a ?b] => destruct (Rlt_dec a b)
           end; lra.
Qed.

Lemma layer_factors_range (foF2 : R) :
  0 <= D_factor foF2 <= 1 /\ 0 <= F1_factor foF2 <= 1 /\
  E_factor foF2 <= 1 /\ (0 <= foF2 -> 0.5 <= E_factor foF2).
Proof.
  unfold D_factor, F1_factor, E_factor.
  repeat split; intros; unfold ltb;
    repeat match goal with
           | |- context [Rlt_dec ?a ?b] => destruct (Rlt_dec a b)
           end; js_minmax.
Qed.

(** X2: For every foF2 and season the F2 peak altitude stays inside the
    bounds of its regime (night 260..360 km, transition 280..320 km,
    day 240..330 km), the F2 scale height stays between 44 and 84 km,
    so it is never zero, and the D, F1 and E factors stay in [0, 1]. *)
Theorem X2_layer_parameters_in_range (foF2 : R) (season : string) :
  (foF2 < 4.5 -> 260 <= h_F2 foF2 season <= 360) /\
  (4.5 <= foF2 < 7.0 -> 280 <= h_F2 foF2 season <= 320) /\
  (7.0 <= foF2 -> 240 <= h_F2 foF2 season <= 330) /\
  44 <= F2_scale_height foF2 season <= 84 /\
  0 <= D_factor foF2 <= 1 /\ 0 <= F1_factor foF2 <= 1 /\
  E_factor foF2 <= 1 /\ (0 <= foF2 -> 0.5 <= E_factor foF2).
Proof.
  destruct (h_F2_range foF2 season) as (H1 & H2 & H3).
  pose proof (F2_scale_height_range foF2 season) as H4.
  destruct (layer_factors_range foF2) as (H5 & H6 & H7 & H8).
  repeat split; intros; try tauto; try lra;
    first [apply H1 | apply H2 | apply H3 | apply H4 | apply H8]; lra.
Qed.

Lemma peaks_nonneg (foF2 : R) :
  0 <= foF2 ->
  0 <= Ne_D_peak foF2 /\ 0 <= Ne_E_peak foF2 /\ 0 <= Ne_F1_peak foF2 /\
  0 <= Ne_F2_peak foF2 /\ (0 < foF2 -> 0 < Ne_F2_peak foF2).
Proof.
  intros H0. destruct (layer_factors_range foF2) as (HD & HF & _ & HE).
  specialize (HE H0).
  unfold Ne_D_peak, Ne_E_peak, Ne_F1_peak, Ne_F2_peak, Math_pow. cbv zeta.
  repeat split; intros; nra.
Qed.

Lemma electronDensitySingle_range (z foF2 : R) (season : string) :
  0 < foF2 ->
  0 < electronDensitySingle z foF2 season
  <= Ne_D_peak foF2 + Ne_E_peak foF2 + Ne_F1_peak foF2 + Ne_F2_peak foF2.
Proof.
  intros Hf.
  destruct (peaks_nonneg foF2 ltac:(lra)) as (HD & HE & HF1 & HF2 & HF2').
  specialize (HF2' Hf).
  unfold electronDensitySingle. cbv zeta.
  pose proof (chapmanLayerSingle_range z _ 75.0 8.0 HD).
  pose proof (chapmanLayerSingle_range z _ 110.0 15.0 HE).
  pose proof (chapmanLayerSingle_range z _ 190.0 30.0 HF1).
  pose proof (chapmanLayerSingle_range z _ (h_F2 foF2 season)
                (F2_scale_height foF2 season) HF2).
  pose proof (chapmanLayerSingle_pos z _ (h_F2 foF2 season)
                (F2_scale_height foF2 season) HF2').
  lra.
Qed.

(** X3: For foF2 > 0 the electron density is positive at every altitude
    and never exceeds the sum of the four peak densities. *)
Theorem X3_density_positive_and_bounded
    (z foF2 : R) (season : string) :
  0 < foF2 ->
  0 < electronDensitySingle z foF2 season
  <= Ne_D_peak foF2 + Ne_E_peak foF2 + Ne_F1_peak foF2 + Ne_F2_peak foF2.
Proof. apply electronDensitySingle_range. Qed.

Lemma X3_density_positive_witness :
  0 < electronDensitySingle 300 12 "equinox"
  <= Ne_D_peak 12 + Ne_E_peak 12 + Ne_F1_peak 12 + Ne_F2_peak 12.
Proof. apply (X3_density_positive_and_bounded 300 12 "equinox"); lra. Defined.

(* ================================================================== *)
(** ** Density model: arrays, single points and the horizontal tilt *)
(* ================================================================== *)

(** X4: The array functions return one density per altitude, and each
    entry is the value the single-point function computes for that
    altitude, in 1D and in the tilted 2D model alike. *)
Theorem X4_array_and_single_point_agree :
  (forall (z : list R) (foF2 : R) (season : string),
      List.length (makeIonosphereForFoF2 z foF2 season) = List.length z /\
      makeIonosphereForFoF2 z foF2 season
      = map (fun a => electronDensitySingle a foF2 season) z) /\
  (forall (z : list R) (x foF2_tx foF2_dist tilt : R) (season : string),
      List.length (makeTiltedIonosphere2D z x foF2_tx foF2_dist tilt season)
      = List.length z /\
      makeTiltedIonosphere2D z x foF2_tx foF2_dist tilt season
      = map (fun a =>
               electronDensity2DSingle a x foF2_tx foF2_dist tilt season) z).
Proof.
  split; intros.
  - rewrite makeIonosphereForFoF2_pointwise, length_map. now split.
  - unfold makeTiltedIonosphere2D, electronDensity2DSingle. cbv zeta.
    rewrite makeIonosphereForFoF2_pointwise, length_map. now split.
Qed.

Lemma clamp_range (v : R) : 2.0 <= Math_max 2.0 (Math_min 25.0 v) <= 25.0.
Proof. js_minmax. Qed.

Lemma clamp_inside (v : R) :
  2 <= v <= 25 -> Math_max 2.0 (Math_min 25.0 v) = v.
Proof. intros H. js_minmax. Qed.

(** X5: The tilted density is the 1D density at an foF2 clamped into
    [2, 25] MHz, so it is positive everywhere, whatever the end values
    and the distance. *)
Theorem X5_tilted_density_uses_clamped_foF2
    (z x foF2_tx foF2_dist tilt : R) (season : string) :
  tilt <> 0 ->
  (exists foF2 : R,
      2 <= foF2 <= 25 /\
      electronDensity2DSingle z x foF2_tx foF2_dist tilt season
      = electronDensitySingle z foF2 season) /\
  0 < electronDensity2DSingle z x foF2_tx foF2_dist tilt season.
Proof.
  intros _. unfold electronDensity2DSingle. cbv zeta.
  set (v := foF2_tx + (foF2_dist - foF2_tx) * (x / tilt)).
  pose proof (clamp_range v) as Hc.
  split.
  - eexists. split; [| reflexivity]. lra.
  - apply electronDensitySingle_range. lra.
Qed.

Lemma X5_tilted_density_clamped_witness :
  (exists foF2 : R,
      2 <= foF2 <= 25 /\
      electronDensity2DSingle 300 9000 15 4 3000 "equinox"
      = electronDensitySingle 300 foF2 "equinox") /\
  0 < electronDensity2DSingle 300 9000 15 4 3000 "equinox".
Proof.
  apply (X5_tilted_density_uses_clamped_foF2 300 9000 15 4 3000 "equinox").
  lra.
Defined.

(** X6: With both end values inside [2, 25] MHz, the tilted density is the
    1D density of the transmitter's foF2 at distance 0 and the 1D
    density of the far foF2 at the reference distance; with equal end
    values it is that 1D density at every distance. *)
Theorem X6_tilted_density_endpoints
    (z foF2_tx foF2_dist tilt : R) (season : string) :
  tilt <> 0 -> 2 <= foF2_tx <= 25 -> 2 <= foF2_dist <= 25 ->
  electronDensity2DSingle z 0 foF2_tx foF2_dist tilt season
  = electronDensitySingle z foF2_tx season /\
  electronDensity2DSingle z tilt foF2_tx foF2_dist tilt season
  = electronDensitySingle z foF2_dist season /\
  (foF2_tx = foF2_dist ->
   forall x : R,
     electronDensity2DSingle z x foF2_tx foF2_dist tilt season
     = electronDensitySingle z foF2_tx season).
Proof.
  intros Ht Htx Hd. unfold electronDensity2DSingle. cbv zeta.
  repeat split; [| | intros -> x]; f_equal.
  - replace (foF2_tx + (foF2_dist - foF2_tx) * (0 / tilt)) with foF2_tx
      by (unfold Rdiv; ring).
    now apply clamp_inside.
  - replace (foF2_tx + (foF2_dist - foF2_tx) * (tilt / tilt))
      with foF2_dist by (field; exact Ht).
    now apply clamp_inside.
  - replace (foF2_dist + (foF2_dist - foF2_dist) * (x / tilt))
      with foF2_dist by (unfold Rdiv; ring).
    now apply clamp_inside.
Qed.

Lemma X6_tilted_density_endpoints_witness :
  electronDensity2DSingle 300 0 12 12 3000 "equinox"
  = electronDensitySingle 300 12 "equinox" /\
  electronDensity2DSingle 300 3000 12 12 3000 "equinox"
  = electronDensitySingle 300 12 "equinox" /\
  (12 = 12 ->
   forall x : R,
     electronDensity2DSingle 300 x 12 12 3000 "equinox"
     = electronDensitySingle 300 12 "equinox").
Proof.
  apply (X6_tilted_density_endpoints 300 12 12 3000 "equinox"); lra.
Defined.

(* ================================================================== *)
(** ** Plasma and absorption model: ranges and the square root *)
(* ================================================================== *)

(** X7: The collision frequency the tracers use, taken at max(0, z), is
    positive and never above its value at the ground. *)
Theorem X7_collision_frequency_range (z : R) :
  0 < collisionFrequency (Math_max 0 z) <= collisionFrequency 0.
Proof.
  assert (Hz : 0 <= Math_max 0 z) by js_minmax.
  generalize dependent (Math_max 0 z). intros a Ha.
  assert (H1 : 1 <= exp (- (0 - 70.0) / 8.0)).
  { rewrite <- exp_0. left. apply exp_increasing. lra. }
  unfold collisionFrequency, Math_exp, ltb.
  destruct (Rlt_dec 0 90.0); [| lra].
  destruct (Rlt_dec a 90.0); [| destruct (Rlt_dec a 150.0)].
  - pose proof (exp_pos (- (a - 70.0) / 8.0)).
    assert (exp (- (a - 70.0) / 8.0) <= exp (- (0 - 70.0) / 8.0)).
    { destruct Ha as [Ha | <-]; [left; apply exp_increasing; lra | lra]. }
    split; nra.
  - pose proof (exp_pos (- (a - 90.0) / 20.0)).
    assert (exp (- (a - 90.0) / 20.0) <= 1).
    { apply Math_exp_le_1. lra. }
    split; nra.
  - split; nra.
Qed.

Lemma two_pi_positive : 0 < 2.0 * Math_PI.
Proof. unfold Math_PI. pose proof PI_RGT_0. lra. Qed.

Lemma plasmaFrequencyFromNe_monotone (Ne1 Ne2 : R) :
  0 <= Ne1 <= Ne2 ->
  0 <= plasmaFrequencyFromNe Ne1 <= plasmaFrequencyFromNe Ne2.
Proof.
  intros [H1 H2]. unfold plasmaFrequencyFromNe, Math_sqrt. cbv zeta.
  pose proof two_pi_positive as Hpi.
  set (k := 1.602176634e-19 * 1.602176634e-19
            / (8.8541878128e-12 * 9.1093837015e-31)).
  assert (Hk : 0 < k) by (unfold k; lra).
  replace (Ne1 * 1.602176634e-19 * 1.602176634e-19
           / (8.8541878128e-12 * 9.1093837015e-31)) with (Ne1 * k)
    by (unfold k, Rdiv; ring).
  replace (Ne2 * 1.602176634e-19 * 1.602176634e-19
           / (8.8541878128e-12 * 9.1093837015e-31)) with (Ne2 * k)
    by (unfold k, Rdiv; ring).
  assert (Hs : sqrt (Ne1 * k) <= sqrt (Ne2 * k))
    by (apply sqrt_le_1_alt; nra).
  pose proof (sqrt_pos (Ne1 * k)) as Hp.
  assert (Hi : 0 < / (2.0 * Math_PI)) by now apply Rinv_0_lt_compat.
  unfold Rdiv. split; nra.
Qed.

(** X8: The plasma frequency is never negative and grows with the electron
    density. *)
Theorem X8_plasma_frequency_monotone (Ne1 Ne2 : R) :
  0 <= Ne1 <= Ne2 ->
  0 <= plasmaFrequencyFromNe Ne1 <= plasmaFrequencyFromNe Ne2.
Proof. apply plasmaFrequencyFromNe_monotone. Qed.

Lemma X8_plasma_frequency_witness :
  0 <= plasmaFrequencyFromNe 1e11 <= plasmaFrequencyFromNe 1e12.
Proof. apply (X8_plasma_frequency_monotone 1e11 1e12); lra. Defined.

(** The modulus times the cosine (sine) of [Math.atan2(y, x)] gives
    back [x] ([y]). *)
Lemma polar_form (x y : R) :
  sqrt (x * x + y * y) * cos (Math_atan2 y x) = x /\
  sqrt (x * x + y * y) * sin (Math_atan2 y x) = y.
Proof.
  unfold Math_atan2.
  destruct (0 <? x) eqn:Hx; [| destruct (x <? 0) eqn:Hx'].
  - apply ltb_true_iff in Hx.
    assert (Hs : 0 < sqrt (1 + (y / x)²)) by (apply sqrt_lt_R0; unfold Rsqr; nra).
    assert (Hr : sqrt (x * x + y * y) = x * sqrt (1 + (y / x)²)).
    { apply sqrt_lem_1; [nra | nra |].
      replace (x * sqrt (1 + (y / x)²) * (x * sqrt (1 + (y / x)²)))
        with (x * x * (sqrt (1 + (y / x)²) * sqrt (1 + (y / x)²))) by ring.
      rewrite sqrt_sqrt by (unfold Rsqr; nra). unfold Rsqr. field. lra. }
    rewrite Hr, cos_atan, sin_atan. split; field; lra.
  - apply ltb_true_iff in Hx'.
    assert (Hs : 0 < sqrt (1 + (y / x)²)) by (apply sqrt_lt_R0; unfold Rsqr; nra).
    assert (Hr : sqrt (x * x + y * y) = - x * sqrt (1 + (y / x)²)).
    { apply sqrt_lem_1; [nra | nra |].
      replace (- x * sqrt (1 + (y / x)²) * (- x * sqrt (1 + (y / x)²)))
        with (x * x * (sqrt (1 + (y / x)²) * sqrt (1 + (y / x)²))) by ring.
      rewrite sqrt_sqrt by (unfold Rsqr; nra). unfold Rsqr. field. lra. }
    destruct (0 <=? y).
    + rewrite Hr, neg_cos, neg_sin, cos_atan, sin_atan. split; field; lra.
    + replace (atan (y / x) - PI) with (- (PI - atan (y / x))) by ring.
      rewrite cos_neg, sin_neg.
      replace (PI - atan (y / x)) with (- atan (y / x) + PI) by ring.
      rewrite Hr, neg_cos, neg_sin, cos_neg, sin_neg, cos_atan, sin_atan.
      split; field; lra.
  - apply ltb_false_iff in Hx. apply ltb_false_iff in Hx'.
    assert (x = 0) by lra. subst x.
    replace (0 * 0 + y * y) with (y * y) by ring.
    destruct (0 <? y) eqn:Hy; [| destruct (y <? 0) eqn:Hy'].
    + apply ltb_true_iff in Hy. rewrite sqrt_square by lra.
      rewrite cos_PI2, sin_PI2. split; ring.
    + apply ltb_true_iff in Hy'.
      replace (y * y) with (- y * - y) by ring. rewrite sqrt_square by lra.
      rewrite cos_neg, sin_neg, cos_PI2, sin_PI2. split; ring.
    + apply ltb_false_iff in Hy. apply ltb_false_iff in Hy'.
      assert (y = 0) by lra. subst y.
      replace (0 * 0) with 0 by ring. rewrite sqrt_0. split; ring.
Qed.

(** The local [n_sq_real] and [n_sq_imag] of [refractiveIndex]. *)
Lemma refractiveIndex_squared (Ne freq_Hz nu : R) :
  let omega := 2.0 * Math_PI * freq_Hz in
  let omega_p := 2.0 * Math_PI * plasmaFrequencyFromNe Ne in
  let X := Math_pow (omega_p / omega) 2 in
  let Z := nu / omega in
  let n := refractiveIndex Ne freq_Hz nu in
  real n * real n - imag n * imag n = 1.0 - X / (1.0 + Z * Z) /\
  2 * real n * imag n = X * Z / (1.0 + Z * Z).
Proof.
  intros omega omega_p X Z n. subst n. unfold refractiveIndex. cbv zeta.
  fold omega omega_p. fold X. fold Z.
  set (a := 1.0 - X / (1.0 + Z * Z)).
  set (b := X * Z / (1.0 + Z * Z)).
  cbn [real imag]. unfold Math_sqrt, Math_cos, Math_sin.
  destruct (polar_form a b) as [Hc Hs].
  set (m := sqrt (sqrt (a * a + b * b))).
  set (phi := Math_atan2 b a / 2.0).
  assert (Hm : m * m = sqrt (a * a + b * b))
    by (apply sqrt_sqrt, sqrt_pos).
  assert (H2 : Math_atan2 b a = 2 * phi) by (unfold phi; lra).
  rewrite H2, cos_2a in Hc. rewrite H2, sin_2a in Hs.
  rewrite <- Hm in Hc, Hs. split; nra.
Qed.

(** X9: [refractiveIndex] returns a square root of the Appleton-Hartree
    n^2 = 1 - X/(1+Z^2) + i XZ/(1+Z^2): squaring the returned pair, as
    the tracers do for [n_squared], gives n^2 back.  So the tracers'
    test [n2_real <= 0] holds exactly when X >= 1 + Z^2. *)
Theorem X9_refractive_index_squares_to_n2 (Ne freq_Hz nu : R) :
  0 <= Ne -> 0 < freq_Hz -> 0 <= nu ->
  let omega := 2.0 * Math_PI * freq_Hz in
  let omega_p := 2.0 * Math_PI * plasmaFrequencyFromNe Ne in
  let X := Math_pow (omega_p / omega) 2 in
  let Z := nu / omega in
  let n := refractiveIndex Ne freq_Hz nu in
  real n * real n - imag n * imag n = 1.0 - X / (1.0 + Z * Z) /\
  2 * real n * imag n = X * Z / (1.0 + Z * Z) /\
  (real n * real n - imag n * imag n <= 0 <-> 1 + Z * Z <= X).
Proof.
  intros _ _ _ omega omega_p X Z n.
  destruct (refractiveIndex_squared Ne freq_Hz nu) as [Hre Him].
  fold omega omega_p X Z n in Hre, Him.
  split; [exact Hre |]. split; [exact Him |].
  rewrite Hre.
  assert (Hd : 0 < 1.0 + Z * Z) by nra.
  assert (Hi : 0 < / (1.0 + Z * Z)) by now apply Rinv_0_lt_compat.
  assert (Hone : (1.0 + Z * Z) * / (1.0 + Z * Z) = 1) by (field; lra).
  unfold Rdiv. split; intros H; nra.
Qed.

Lemma X9_refractive_index_squares_witness :
  let omega := 2.0 * Math_PI * 7e6 in
  let omega_p := 2.0 * Math_PI * plasmaFrequencyFromNe 1e12 in
  let X := Math_pow (omega_p / omega) 2 in
  let Z := 1e3 / omega in
  let n := refractiveIndex 1e12 7e6 1e3 in
  real n * real n - imag n * imag n = 1.0 - X / (1.0 + Z * Z) /\
  2 * real n * imag n = X * Z / (1.0 + Z * Z) /\
  (real n * real n - imag n * imag n <= 0 <-> 1 + Z * Z <= X).
Proof.
  apply (X9_refractive_index_squares_to_n2 1e12 7e6 1e3); lra.
Defined.

Lemma Math_atan2_upper_half (y x : R) :
  0 <= y -> 0 <= Math_atan2 y x <= PI.
Proof.
  intros Hy. pose proof PI_RGT_0 as Hpi.
  pose proof (Math_atan2_range y x) as [_ Hup]. split; [| exact Hup].
  pose proof (atan_bound (y / x)) as Hb.
  unfold Math_atan2.
  destruct (0 <? x) eqn:Hx.
  - apply ltb_true_iff in Hx.
    assert (0 <= y / x).
    { apply Rmult_le_pos; [exact Hy |]. left. now apply Rinv_0_lt_compat. }
    rewrite <- atan_0. destruct H as [H | <-]; [| lra].
    left. now apply atan_increasing.
  - destruct (x <? 0).
    + replace (0 <=? y) with true by (symmetry; now apply leb_true_iff).
      lra.
    + destruct (0 <? y); [lra |]. destruct (y <? 0) eqn:Hy'; [| lra].
      apply ltb_true_iff in Hy'. lra.
Qed.

(** X10: For a density Ne >= 0, a frequency f > 0 and a collision frequency
    nu >= 0 the imaginary part of the refractive index is not
    negative: the medium absorbs, it never amplifies. *)
Theorem X10_refractive_index_imag_nonneg (Ne freq_Hz nu : R) :
  0 <= Ne -> 0 < freq_Hz -> 0 <= nu ->
  0 <= imag (refractiveIndex Ne freq_Hz nu).
Proof.
  intros _ Hf Hnu. pose proof two_pi_positive as Hpi.
  unfold refractiveIndex. cbv zeta. cbn [imag].
  set (omega := 2.0 * Math_PI * freq_Hz).
  assert (Ho : 0 < omega) by (unfold omega; nra).
  set (X := Math_pow (2.0 * Math_PI * plasmaFrequencyFromNe Ne / omega) 2).
  set (Z := nu / omega).
  assert (HX : 0 <= X) by (unfold X, Math_pow; nra).
  assert (HZ : 0 <= Z).
  { unfold Z. apply Rmult_le_pos; [exact Hnu |].
    left. now apply Rinv_0_lt_compat. }
  assert (Hy : 0 <= X * Z / (1.0 + Z * Z)).
  { apply Rmult_le_pos; [nra |]. left. apply Rinv_0_lt_compat. nra. }
  pose proof (Math_atan2_upper_half _ (1.0 - X / (1.0 + Z * Z)) Hy) as Ha.
  apply Rmult_le_pos.
  - unfold Math_sqrt. apply sqrt_pos.
  - unfold Math_sin. apply sin_ge_0; lra.
Qed.

Lemma X10_refractive_index_imag_witness :
  0 <= imag (refractiveIndex 1e12 7e6 1e3).
Proof. apply (X10_refractive_index_imag_nonneg 1e12 7e6 1e3); lra. Defined.

Lemma c_positive : 0 < 2.0 * c.
Proof. unfold c. lra. Qed.

Lemma absorption_per_m_nonneg (omega re im : R) :
  0 <= omega ->
  0 <= omega / (2.0 * c) * Math_abs (2 * re * im) / Math_max re 1e-10.
Proof.
  intros Ho. pose proof c_positive as Hc.
  assert (0 < Math_max re 1e-10) by js_minmax.
  assert (0 <= Math_abs (2 * re * im)) by apply Rabs_pos.
  assert (0 < / (2.0 * c)) by now apply Rinv_0_lt_compat.
  assert (0 < / Math_max re 1e-10) by now apply Rinv_0_lt_compat.
  unfold Rdiv. repeat apply Rmult_le_pos; lra.
Qed.

(** X11: The absorption coefficient is never negative for a frequency
    f > 0, and it is 0 where there is no plasma. *)
Theorem X11_absorption_coefficient_nonneg (Ne freq_Hz nu : R) :
  0 < freq_Hz ->
  0 <= absorptionCoefficient Ne freq_Hz nu /\
  absorptionCoefficient 0 freq_Hz nu = 0.
Proof.
  intros Hf. pose proof two_pi_positive as Hpi. split.
  - unfold absorptionCoefficient. cbv zeta.
    replace (2.0 * real (refractiveIndex Ne freq_Hz nu))
      with (2 * real (refractiveIndex Ne freq_Hz nu)) by lra.
    pose proof (absorption_per_m_nonneg (2.0 * Math_PI * freq_Hz)
                  (real (refractiveIndex Ne freq_Hz nu))
                  (imag (refractiveIndex Ne freq_Hz nu)) ltac:(nra)).
    lra.
  - unfold absorptionCoefficient. cbv zeta.
    rewrite refractiveIndex_vacuum. cbn [real imag].
    replace (2.0 * 1 * 0) with 0 by lra.
    unfold Math_abs. rewrite Rabs_R0. unfold Rdiv. ring.
Qed.

Lemma X11_absorption_coefficient_witness :
  0 <= absorptionCoefficient 1e12 7e6 1e3 /\
  absorptionCoefficient 0 7e6 1e3 = 0.
Proof. apply (X11_absorption_coefficient_nonneg 1e12 7e6 1e3); lra. Defined.

(* ================================================================== *)
(** ** The loop bodies, local by local *)
(* ================================================================== *)

(** The local [sin_psi] of a completed step: the ray-parameter quotient
    where the reflection test failed, else [Math.sign(..) * 0.999]. *)
Ltac solve_sin_bound :=
  first
    [ unfold Math_sign;
      repeat match goal with
             | |- context [ltb ?a ?b] => destruct (ltb a b)
             end;
      lra
    | reflect_tests; unfold Math_abs in *;
      match goal with
      | E : Rabs ?s < 1.0 |- _ < ?g < _ =>
          change g with s; apply Rabs_def2 in E; lra
      end ].

Ltac solve_step_detail :=
  unfold step_detail, index_at_1D, index_at_2D, gradient_at_2D;
  cbn [ray_r ray_theta ray_x ray_phi ray_distances ray_altitudes
       ray_azimuths ray_going_up ray_total_loss_nepers];
  do 2 eexists;
  split; [reflexivity |];
  split; [reflexivity |];
  split; [reflexivity |];
  split; [reflexivity |];
  split; [reflexivity |];
  split; [repeat split; reflexivity |];
  split; [first [reflexivity | intros; congruence] |];
  split; [first [left; reflexivity | right; reflexivity] |];
  solve_sin_bound.

Ltac solve_iteration_detail H :=
  body_cases H; try discriminate H; injection H as <-;
  split_tests; unfold iteration_detail, travelled;
  first
    [ (* fall through *)
      split; [solve_step_detail |];
      split;
        [reflect_tests; cbn [ray_x ray_theta]; first [assumption | lra] |];
      intros; eapply no_return_above_ground; eassumption
    | (* returns *)
      left; split; [reflexivity |]; reflect_tests; split; assumption
    | (* escapes *)
      right; left; split; [reflexivity |]; reflect_tests;
      (split; [lra | congruence])
    | (* stops *)
      right; right; eexists; split; [| split; [reflexivity |]];
      [ solve_step_detail
      | reflect_tests; cbn [ray_x ray_theta]; first [assumption | lra] ] ].

Lemma traceRaySphericalWithPath_body_detail
    (freq_Hz b : R) (f : R -> R) (max_distance_km : R)
    (step : nat) (st : RayState) :
  iteration_detail false false 0 (index_at_1D freq_Hz f) (fun _ => 0)
    result_path max_distance_km step st
    (traceRaySphericalWithPath_body freq_Hz b f max_distance_km step st).
Proof.
  destruct (traceRaySphericalWithPath_body freq_Hz b f max_distance_km
              step st) as [st' | res] eqn:H;
    unfold traceRaySphericalWithPath_body in H;
    solve_iteration_detail H.
Qed.

Lemma traceRayWithAbsorption_body_detail
    (freq_Hz omega b : R) (f : R -> R) (max_distance_km : R)
    (step : nat) (st : RayState) :
  iteration_detail false true omega (index_at_1D freq_Hz f) (fun _ => 0)
    result_absorption max_distance_km step st
    (traceRayWithAbsorption_body freq_Hz omega b f max_distance_km step st).
Proof.
  destruct (traceRayWithAbsorption_body freq_Hz omega b f max_distance_km
              step st) as [st' | res] eqn:H;
    unfold traceRayWithAbsorption_body in H;
    solve_iteration_detail H.
Qed.

Lemma traceRay2DWithTilts_body_detail
    (b : R) (g : R -> R -> Complex) (max_distance_km : R)
    (step : nat) (st : RayState) :
  iteration_detail true false 0 (index_at_2D g) (gradient_at_2D g)
    result_tilts max_distance_km step st
    (traceRay2DWithTilts_body b g max_distance_km step st).
Proof.
  destruct (traceRay2DWithTilts_body b g max_distance_km step st)
    as [st' | res] eqn:H;
    unfold traceRay2DWithTilts_body in H;
    solve_iteration_detail H.
Qed.

Lemma traceRay2DWithAbsorption_body_detail
    (omega b : R) (g : R -> R -> Complex) (max_distance_km : R)
    (step : nat) (st : RayState) :
  iteration_detail true true omega (index_at_2D g) (gradient_at_2D g)
    result_tilts_absorption max_distance_km step st
    (traceRay2DWithAbsorption_body omega b g max_distance_km step st).
Proof.
  destruct (traceRay2DWithAbsorption_body omega b g max_distance_km step st)
    as [st' | res] eqn:H;
    unfold traceRay2DWithAbsorption_body in H;
    solve_iteration_detail H.
Qed.

Lemma builder_loss_path : builder_loss false result_path.
Proof. intros st s. reflexivity. Qed.

Lemma builder_loss_absorption : builder_loss true result_absorption.
Proof. intros st s. reflexivity. Qed.

Lemma builder_loss_tilts : builder_loss false result_tilts.
Proof. intros st s. reflexivity. Qed.

Lemma builder_loss_tilts_absorption :
  builder_loss true result_tilts_absorption.
Proof. intros st s. reflexivity. Qed.

(* ================================================================== *)
(** ** The counted loop: invariants that read the step counter *)
(* ================================================================== *)

Section ForLoopSteps.

Context {St Res : Type}.
Variable body : nat -> St -> St + Res.
Variable I : nat -> St -> Prop.
Variable P : nat -> Res -> Prop.

Hypothesis Hstep :
  forall step st st', I step st -> body step st = inl st' -> I (S step) st'.
Hypothesis Hret :
  forall step st res, I step st -> body step st = inr res -> P step res.

Lemma for_loop_invariant_step (n step : nat) (st : St) :
  I step st ->
  match for_loop body n step st with
  | Returned res k => (step <= k < step + n)%nat /\ P k res
  | Exhausted st' m => m = (step + n)%nat /\ I m st'
  end.
Proof.
  revert step st. induction n as [| n IH]; intros step st HI; cbn.
  - split; [lia | exact HI].
  - destruct (body step st) as [st' | res] eqn:E.
    + specialize (IH (S step) st' (Hstep _ _ _ HI E)).
      destruct (for_loop body n (S step) st') as [res k | st1 m].
      * destruct IH as [Hk HP]. split; [lia | exact HP].
      * destruct IH as [Hm HI']. split; [lia | exact HI'].
    + split; [lia | eapply Hret; eassumption].
Qed.

Lemma state_at_invariant (k step : nat) (st sk : St) :
  I step st -> state_at body k step st = Some sk -> I (step + k)%nat sk.
Proof.
  revert step st. induction k as [| k IH]; intros step st HI; cbn.
  - intros [= <-]. now rewrite Nat.add_0_r.
  - destruct (body step st) as [st' | res] eqn:E; [| discriminate].
    intros H. rewrite <- Nat.add_succ_comm.
    eapply IH; [| exact H]. eapply Hstep; eassumption.
Qed.

End ForLoopSteps.

(* ================================================================== *)
(** ** What every tracer inherits from the detail of its loop body *)
(* ================================================================== *)

Lemma steps_bounded_push (l : list R) (x v : R) :
  steps_bounded (l ++ [x]) -> Rabs (v - x) <= 1 ->
  steps_bounded (push (l ++ [x]) v).
Proof.
  intros Hl Hxv i Hi. unfold push in *.
  assert (Hlen : List.length (l ++ [x]) = S (List.length l))
    by (rewrite length_app; cbn; lia).
  rewrite length_app in Hi. cbn in Hi.
  destruct (Nat.eq_dec i (List.length l)) as [-> | Hne].
  - rewrite (app_nth1 (l ++ [x]) [v] 0 (n := List.length l)) by lia.
    rewrite nth_middle. rewrite <- Hlen, nth_middle. exact Hxv.
  - rewrite (app_nth1 (l ++ [x]) [v] 0 (n := i)) by lia.
    rewrite (app_nth1 (l ++ [x]) [v] 0 (n := S i)) by lia.
    apply Hl. lia.
Qed.

Lemma step_detail_altitude (two_d absorbing : bool) (omega : R)
    (n_at : RayState -> Complex) (dn_dx_at : RayState -> R)
    (st st' : RayState) :
  step_detail two_d absorbing omega n_at dn_dx_at st st' ->
  Rabs (ray_r st' - R_E - (ray_r st - R_E)) <= 1 /\
  (ray_going_up st' = true -> ray_r st < ray_r st') /\
  (ray_going_up st' = false -> ray_r st' < ray_r st).
Proof.
  intros (s & a & Hr & _ & _ & _ & _ & _ & _ & Ha & Hs).
  pose proof (cos_psi_range s) as Hcos.
  assert (Hpos : 0 < Math_sqrt (1 - s * s))
    by (unfold Math_sqrt; apply sqrt_lt_R0; nra).
  assert (Hstep : 0 < a <= 1) by (destruct Ha as [-> | ->]; lra).
  rewrite Hr. split; [| split].
  - apply Rabs_le. destruct (ray_going_up st'); split; nra.
  - intros ->. nra.
  - intros ->. nra.
Qed.

(** A property of consecutive samples survives a [push] when the new
    pair has it. *)
Lemma pairs_push (Q : nat -> R -> R -> Prop) (l : list R) (x v : R) :
  (forall i, (S i < List.length (l ++ [x]))%nat ->
             Q i (nth i (l ++ [x]) 0) (nth (S i) (l ++ [x]) 0)) ->
  Q (List.length l) x v ->
  forall i, (S i < List.length (push (l ++ [x]) v))%nat ->
            Q i (nth i (push (l ++ [x]) v) 0)
              (nth (S i) (push (l ++ [x]) v) 0).
Proof.
  intros Hl Hxv i Hi. unfold push in *.
  assert (Hlen : List.length (l ++ [x]) = S (List.length l))
    by (rewrite length_app; cbn; lia).
  rewrite length_app in Hi. cbn in Hi.
  destruct (Nat.eq_dec i (List.length l)) as [-> | Hne].
  - rewrite (app_nth1 (l ++ [x]) [v] 0 (n := List.length l)) by lia.
    rewrite nth_middle. rewrite <- Hlen, nth_middle.
    exact Hxv.
  - rewrite (app_nth1 (l ++ [x]) [v] 0 (n := i)) by lia.
    rewrite (app_nth1 (l ++ [x]) [v] 0 (n := S i)) by lia.
    apply Hl. lia.
Qed.

Lemma azimuth_deflection_flat (n_real sin_psi adaptive_step : R) :
  azimuth_deflection n_real 0 sin_psi adaptive_step = 0.
Proof.
  unfold azimuth_deflection. cbv zeta.
  destruct ((Math_abs sin_psi >? 0.1) && (n_real >? 0.05)); [| lra].
  unfold Rdiv. ring.
Qed.

Section IntegratorDetail.

Variables two_d absorbing : bool.
Variable omega : R.
Variable n_at : RayState -> Complex.
Variable dn_dx_at : RayState -> R.
Variable mk : RayState -> Status -> RayTraceResult.
Variable max_distance_km : R.
Variable body : Body.

Hypothesis Hmk : builder_ok two_d mk.
Hypothesis Hloss : builder_loss absorbing mk.
Hypothesis Hdetail :
  forall (step : nat) (st : RayState),
    iteration_detail two_d absorbing omega n_at dn_dx_at mk max_distance_km
      step st (body step st).

Lemma detail_inl (step : nat) (st st' : RayState) :
  body step st = inl st' ->
  step_detail two_d absorbing omega n_at dn_dx_at st st' /\
  travelled two_d st' <= max_distance_km /\
  (Nat.ltb 10 step = true -> 0.0 <= ray_r st - R_E).
Proof.
  intros H. pose proof (Hdetail step st) as D. rewrite H in D. exact D.
Qed.

Lemma detail_inr (step : nat) (st : RayState) (res : RayTraceResult) :
  body step st = inr res ->
  (res = mk st returns /\ ray_r st - R_E < 0.0 /\ Nat.ltb 10 step = true) \/
  (res = mk st escapes /\ 600 < ray_r st - R_E /\ ray_going_up st = true) \/
  (exists st' : RayState,
      step_detail two_d absorbing omega n_at dn_dx_at st st' /\
      res = mk st' stops /\ max_distance_km < travelled two_d st').
Proof.
  intros H. pose proof (Hdetail step st) as D. rewrite H in D. exact D.
Qed.

(** How the loop ends, for an invariant [I] that every completed step
    preserves: the returned object is built from locals that satisfy
    [I]; 'returns' is built below the ground after at least 11 steps,
    'escapes' above 600 km from an ascending ray. *)
Lemma loop_end (I : nat -> RayState -> Prop) (n : nat) :
  I 0%nat initial_state ->
  (forall step st st',
      I step st ->
      step_detail two_d absorbing omega n_at dn_dx_at st st' ->
      I (S step) st') ->
  exists (sf : RayState) (s : Status) (m : nat),
    result_of_loop mk (for_loop body n 0 initial_state) = mk sf s /\
    I m sf /\ (m <= n)%nat /\
    (s = returns -> ray_r sf - R_E < 0.0 /\ (11 <= m)%nat) /\
    (s = escapes -> 600 < ray_r sf - R_E /\ ray_going_up sf = true).
Proof.
  intros H0 Hpres.
  pose proof (for_loop_invariant_step body I
    (fun k res =>
       exists sf s m,
         res = mk sf s /\ I m sf /\ (m <= S k)%nat /\
         (s = returns -> ray_r sf - R_E < 0.0 /\ (11 <= m)%nat) /\
         (s = escapes -> 600 < ray_r sf - R_E /\ ray_going_up sf = true)))
    as L.
  specialize (L ltac:(intros step st st' HI E;
                      exact (Hpres _ _ _ HI (proj1 (detail_inl _ _ _ E))))).
  assert (Hret : forall step st res,
             I step st -> body step st = inr res ->
             exists sf s m,
               res = mk sf s /\ I m sf /\ (m <= S step)%nat /\
               (s = returns -> ray_r sf - R_E < 0.0 /\ (11 <= m)%nat) /\
               (s = escapes ->
                600 < ray_r sf - R_E /\ ray_going_up sf = true)).
  { intros step st res HI E.
    destruct (detail_inr _ _ _ E)
      as [(-> & Hz & Hs) | [(-> & Hz & Hup) | (st' & D & -> & _)]].
    - exists st, returns, step. apply Nat.ltb_lt in Hs.
      repeat split; try assumption; try lia; discriminate.
    - exists st, escapes, step.
      repeat split; try assumption; try lia; discriminate.
    - exists st', stops, (S step).
      repeat split; try lia; try discriminate.
      eapply Hpres; eassumption. }
  specialize (L Hret n 0%nat initial_state H0).
  destruct (for_loop body n 0 initial_state) as [res k | st m]; cbn.
  - destruct L as (Hk & sf & s & m & -> & HI & Hm & Hr & He).
    exists sf, s, m. repeat split; try assumption; try lia;
      first [apply Hr | apply He]; assumption.
  - destruct L as (-> & HI). exists st, stops, n.
    repeat split; try assumption; try lia; discriminate.
Qed.

Lemma sampled_initial : sampled 0 initial_state.
Proof.
  unfold sampled, initial_state. cbn.
  split; [reflexivity |]. split; [reflexivity |]. split; [| split].
  - exists []. cbn. f_equal. lra.
  - intros i Hi. cbn in Hi. lia.
  - intros _. lra.
Qed.

Lemma sampled_step (step : nat) (st st' : RayState) :
  sampled step st ->
  step_detail two_d absorbing omega n_at dn_dx_at st st' ->
  sampled (S step) st'.
Proof.
  intros (Hd & Ha & (l & Hl) & Hb & Hup) D.
  destruct (step_detail_altitude _ _ _ _ _ _ _ D) as (Habs & Hmono & _).
  destruct D as (s & a & _ & _ & Hds & Has & _ & _ & Hg & _).
  unfold sampled. rewrite Hds, Has. unfold push at 1 2.
  rewrite !length_app. cbn [List.length].
  split; [lia |]. split; [lia |]. split; [| split].
  - eexists. reflexivity.
  - rewrite Hl. apply steps_bounded_push; [now rewrite <- Hl | exact Habs].
  - intros H. specialize (Hmono H). specialize (Hup (Hg H)). lra.
Qed.

Lemma loop_sampled (n : nat) :
  exists (sf : RayState) (s : Status) (m : nat),
    result_of_loop mk (for_loop body n 0 initial_state) = mk sf s /\
    sampled m sf /\ (m <= n)%nat /\
    (s = returns -> ray_r sf - R_E < 0.0 /\ (11 <= m)%nat) /\
    (s = escapes -> 600 < ray_r sf - R_E /\ ray_going_up sf = true).
Proof.
  apply loop_end; [exact sampled_initial | exact sampled_step].
Qed.

Lemma loop_sample_budget (n : nat) :
  let res := result_of_loop mk (for_loop body n 0 initial_state) in
  (1 <= List.length (distances res) <= S n)%nat.
Proof.
  destruct (loop_sampled n) as (sf & s & m & -> & (Hd & _) & Hm & _).
  cbv zeta. destruct (Hmk sf s) as (-> & _). lia.
Qed.

Lemma loop_status_matches_altitude (n : nat) :
  status_matches_altitude
    (result_of_loop mk (for_loop body n 0 initial_state)).
Proof.
  destruct (loop_sampled n)
    as (sf & s & m & -> & (_ & Ha & (l & Hl) & _) & _ & Hr & He).
  unfold status_matches_altitude.
  destruct (Hmk sf s) as (_ & -> & -> & _).
  split; intros Hs.
  - destruct (Hr Hs) as [Hz Hm]. rewrite Ha. split; [| lia].
    rewrite Hl, last_last. lra.
  - destruct (He Hs) as [Hz _]. rewrite Hl, last_last. exact Hz.
Qed.

Lemma loop_altitude_steps (n : nat) :
  steps_bounded
    (altitudes (result_of_loop mk (for_loop body n 0 initial_state))).
Proof.
  destruct (loop_sampled n) as (sf & s & m & -> & (_ & _ & _ & Hb & _) & _).
  destruct (Hmk sf s) as (_ & -> & _). exact Hb.
Qed.

Lemma altitude_profile_step (step : nat) (st st' : RayState) :
  altitude_profile st ->
  step_detail two_d absorbing omega n_at dn_dx_at st st' ->
  altitude_profile st'.
Proof.
  intros (l & m & Hl & Hprof & Hup) D.
  destruct (step_detail_altitude _ _ _ _ _ _ _ D) as (_ & Hrise & Hfall).
  destruct D as (s & a & _ & _ & _ & Has & _ & _ & Hg & _).
  rewrite Hl in Hprof. unfold altitude_profile. rewrite Has, Hl.
  exists (l ++ [ray_r st - R_E]).
  destruct (ray_going_up st') eqn:E.
  - specialize (Hup (Hg eq_refl)). specialize (Hrise eq_refl).
    exists (S (List.length l)).
    split; [reflexivity |]. split.
    + apply (pairs_push
               (fun i a b =>
                  ((i < S (List.length l))%nat -> a < b) /\
                  ((S (List.length l) <= i)%nat -> b < a))).
      * intros i Hi. rewrite length_app in Hi. cbn in Hi.
        split; [| lia]. intros _. apply (Hprof i); [| lia].
        rewrite length_app. cbn. lia.
      * split; [| lia]. intros _. lra.
    + intros _. rewrite length_app. cbn. lia.
  - specialize (Hfall eq_refl).
    exists (Nat.min m (List.length l)).
    split; [reflexivity |]. split; [| discriminate].
    apply (pairs_push
             (fun i a b =>
                ((i < Nat.min m (List.length l))%nat -> a < b) /\
                ((Nat.min m (List.length l) <= i)%nat -> b < a))).
    + intros i Hi. pose proof Hi as Hi'.
      rewrite length_app in Hi'. cbn in Hi'.
      destruct (Hprof i Hi) as [Hinc Hdec].
      split; intros H; [apply Hinc | apply Hdec]; lia.
    + split; [lia |]. intros _. lra.
Qed.

Lemma loop_rises_then_falls (n : nat) :
  rises_then_falls
    (altitudes (result_of_loop mk (for_loop body n 0 initial_state))).
Proof.
  destruct (loop_end (fun _ st => altitude_profile st) n)
    as (sf & s & k & -> & (l & m & _ & Hprof & _) & _).
  - exists [], 0%nat. cbn.
    split; [f_equal; lra |]. split; [intros i Hi; lia | lia].
  - intros step st st'. apply altitude_profile_step. exact step.
  - destruct (Hmk sf s) as (_ & -> & _). exists m. exact Hprof.
Qed.

Lemma loop_returns_after_reflection : returns_after_reflection body.
Proof.
  intros n k res Hloop Hst.
  destruct (for_loop_returned body n 0 initial_state res k Hloop)
    as (sk & _ & Hsk & Hbody).
  rewrite Nat.sub_0_r in Hsk.
  exists sk. split; [exact Hsk |].
  pose proof (state_at_invariant body sampled
                (fun step st st' HI E =>
                   sampled_step step st st' HI (proj1 (detail_inl _ _ _ E)))
                k 0%nat initial_state sk sampled_initial Hsk)
    as (_ & _ & _ & _ & Hup).
  destruct (detail_inr _ _ _ Hbody)
    as [(-> & Hz & _) | [(-> & _) | (st' & _ & -> & _)]].
  - split; [| lra].
    destruct (ray_going_up sk); [specialize (Hup eq_refl); lra | reflexivity].
  - destruct (Hmk sk escapes) as (_ & _ & Hs & _). congruence.
  - destruct (Hmk st' stops) as (_ & _ & Hs & _). congruence.
Qed.

Lemma loop_loss_nonneg (n : nat) :
  (absorbing = true -> 0 <= omega) ->
  exists sf s,
    result_of_loop mk (for_loop body n 0 initial_state) = mk sf s /\
    0 <= ray_total_loss_nepers sf.
Proof.
  intros Ho.
  destruct (loop_end (fun _ st => 0 <= ray_total_loss_nepers st) n)
    as (sf & s & m & Hres & HI & _).
  - cbn. lra.
  - intros _ st st' HI (sp & a & _ & _ & _ & _ & Hl & _ & _ & Ha & _).
    rewrite Hl. destruct absorbing; [| exact HI].
    pose proof (absorption_per_m_nonneg omega (real (n_at st))
                  (imag (n_at st)) (Ho eq_refl)).
    assert (0 < a) by (destruct Ha as [-> | ->]; lra).
    nra.
  - exists sf, s. split; assumption.
Qed.

Lemma loop_flat (n : nat) :
  two_d = true ->
  (forall st, dn_dx_at st = 0) ->
  exists az : list R,
    azimuths (result_of_loop mk (for_loop body n 0 initial_state)) = Some az /\
    Forall (fun a => a = 0) az.
Proof.
  intros H2d Hflat.
  destruct (loop_end
              (fun _ st => ray_phi st = 0 /\
                           Forall (fun a => a = 0) (ray_azimuths st)) n)
    as (sf & s & m & Hres & (_ & Haz) & _).
  - cbn. split; [lra |]. constructor; [lra | constructor].
  - intros _ st st' [Hphi Haz] (sp & a & _ & _ & _ & _ & _ & H2 & _).
    rewrite H2d in H2. destruct H2 as (_ & Hphi' & Haz').
    rewrite Hflat, azimuth_deflection_flat, Hphi in Hphi'.
    split; [lra |]. rewrite Haz'. unfold push.
    apply Forall_app. split; [exact Haz |]. constructor; [lra | constructor].
  - rewrite Hres. destruct (Hmk sf s) as (_ & _ & _ & ->). rewrite H2d.
    eexists. split; [reflexivity |].
    apply Forall_map. eapply Forall_impl; [| exact Haz].
    cbn. intros a ->. unfold Rdiv. ring.
Qed.

Lemma in_reach_step (step : nat) (st st' : RayState) :
  in_reach two_d max_distance_km st ->
  step_detail two_d absorbing omega n_at dn_dx_at st st' ->
  ray_theta st' * R_E <= travelled two_d st' /\
  exists front : list R,
    ray_distances st' = front ++ [ray_theta st' * R_E] /\
    Forall (fun v => v <= max_distance_km) front.
Proof.
  intros (Hmax & Hle & front & Hd & Hf)
         (sp & a & _ & Hth & Hds & _ & _ & H2 & _).
  split.
  - unfold travelled in *. destruct two_d; [| lra].
    destruct H2 as (Hx & _). rewrite Hx, Hth.
    pose proof (Rle_abs (a * sp / ray_r st * R_E)) as Habs.
    unfold Math_abs. unfold Rdiv in *. lra.
  - exists (front ++ [ray_theta st * R_E]). split.
    + rewrite Hds, Hd. reflexivity.
    + apply Forall_app. split; [exact Hf |].
      constructor; [lra | constructor].
Qed.

Lemma loop_overshoots_once (n : nat) :
  0 <= max_distance_km ->
  overshoots_once max_distance_km
    (distances (result_of_loop mk (for_loop body n 0 initial_state))).
Proof.
  intros Hmax.
  pose proof (for_loop_invariant_step body
    (fun _ st => in_reach two_d max_distance_km st)
    (fun _ res => overshoots_once max_distance_km (distances res))) as L.
  assert (Hof : forall st s front,
             ray_distances st = front ++ [ray_theta st * R_E] ->
             Forall (fun v => v <= max_distance_km) front ->
             overshoots_once max_distance_km (distances (mk st s))).
  { intros st s front Hd Hf. destruct (Hmk st s) as (-> & _).
    exists front, (ray_theta st * R_E). split; assumption. }
  specialize (L ltac:(intros step st st' HI E;
    destruct (detail_inl _ _ _ E) as (D & Ht & _);
    destruct (in_reach_step step _ _ HI D) as (Hle & Hfront);
    repeat split; assumption)).
  specialize (L ltac:(intros step st res HI E;
    destruct (detail_inr _ _ _ E)
      as [(-> & _) | [(-> & _) | (st' & D & -> & _)]];
    [ destruct HI as (_ & _ & front & Hd & Hf); eapply Hof; eassumption
    | destruct HI as (_ & _ & front & Hd & Hf); eapply Hof; eassumption
    | destruct (in_reach_step step _ _ HI D) as (_ & front & Hd & Hf);
      eapply Hof; eassumption ])).
  specialize (L n 0%nat initial_state).
  assert (H0 : in_reach two_d max_distance_km initial_state).
  { unfold in_reach, travelled, initial_state. cbn.
    split; [destruct two_d; lra |]. split; [destruct two_d; lra |].
    exists []. split; [cbn; f_equal; lra | constructor]. }
  specialize (L H0).
  destruct (for_loop body n 0 initial_state) as [res k | st m]; cbn.
  - apply L.
  - destruct L as (_ & _ & _ & front & Hd & Hf). eapply Hof; eassumption.
Qed.

End IntegratorDetail.

(* ================================================================== *)
(** ** Reflection and the vacuum *)
(* ================================================================== *)

Ltac solve_reflects H :=
  body_cases H; try discriminate H; injection H as <-;
  split_tests; cbn [ray_going_up]; intros Hup Hdown;
  unfold reflection_cause, index_at_1D, index_at_2D;
  reflect_tests;
  first [ congruence
        | left; assumption
        | right; left; assumption
        | right; right; assumption ].



Lemma traceRay2DWithTilts_body_reflects
    (b : R) (g : R -> R -> Complex) (max_distance_km : R) :
  reflects_for_cause b (index_at_2D g)
    (traceRay2DWithTilts_body b g max_distance_km).
Proof.
  intros step st st' H. unfold traceRay2DWithTilts_body in H.
  solve_reflects H.
Qed.

Lemma traceRay2DWithAbsorption_body_reflects
    (omega b : R) (g : R -> R -> Complex) (max_distance_km : R) :
  reflects_for_cause b (index_at_2D g)
    (traceRay2DWithAbsorption_body omega b g max_distance_km).
Proof.
  intros step st st' H. unfold traceRay2DWithAbsorption_body in H.
  solve_reflects H.
Qed.

(* ================================================================== *)
(** ** The four tracers, from the detail of their loop bodies *)
(* ================================================================== *)

Lemma traceRaySphericalWithPath_unfold
    (freq_MHz elevation_deg : R) (f : R -> R) (max_distance_km : R) :
  traceRaySphericalWithPath freq_MHz elevation_deg f max_distance_km
  = result_of_loop result_path
      (for_loop
         (traceRaySphericalWithPath_body (freq_MHz * 1e6)
            (ray_parameter_1D (freq_MHz * 1e6)
               (elevation_deg * Math_PI / 180.0) f)
            f max_distance_km)
         (Z.to_nat (max_steps max_distance_km)) 0 initial_state).
Proof. reflexivity. Qed.

Lemma traceRayWithAbsorption_unfold
    (freq_MHz elevation_deg : R) (f : R -> R) (max_distance_km : R) :
  traceRayWithAbsorption freq_MHz elevation_deg f max_distance_km
  = result_of_loop result_absorption
      (for_loop
         (traceRayWithAbsorption_body (freq_MHz * 1e6)
            (2.0 * Math_PI * (freq_MHz * 1e6))
            (ray_parameter_1D (freq_MHz * 1e6)
               (elevation_deg * Math_PI / 180.0) f)
            f max_distance_km)
         (Z.to_nat (max_steps max_distance_km)) 0 initial_state).
Proof. reflexivity. Qed.

Lemma traceRay2DWithTilts_unfold
    (freq_MHz elevation_deg foF2_tx foF2_dist tilt max_distance_km : R)
    (season : string) :
  traceRay2DWithTilts freq_MHz elevation_deg foF2_tx foF2_dist tilt
    max_distance_km season
  = result_of_loop result_tilts
      (for_loop
         (traceRay2DWithTilts_body
            (ray_parameter_2D (elevation_deg * Math_PI / 180.0)
               (getRefractiveIndex (freq_MHz * 1e6) foF2_tx foF2_dist tilt
                  season))
            (getRefractiveIndex (freq_MHz * 1e6) foF2_tx foF2_dist tilt
               season)
            max_distance_km)
         (Z.to_nat (max_steps max_distance_km)) 0 initial_state).
Proof. reflexivity. Qed.

Lemma traceRay2DWithAbsorption_unfold
    (freq_MHz elevation_deg foF2_tx foF2_dist tilt max_distance_km : R)
    (season : string) :
  traceRay2DWithAbsorption freq_MHz elevation_deg foF2_tx foF2_dist tilt
    max_distance_km season
  = result_of_loop result_tilts_absorption
      (for_loop
         (traceRay2DWithAbsorption_body
            (2.0 * Math_PI * (freq_MHz * 1e6))
            (ray_parameter_2D (elevation_deg * Math_PI / 180.0)
               (getRefractiveIndex (freq_MHz * 1e6) foF2_tx foF2_dist tilt
                  season))
            (getRefractiveIndex (freq_MHz * 1e6) foF2_tx foF2_dist tilt
               season)
            max_distance_km)
         (Z.to_nat (max_steps max_distance_km)) 0 initial_state).
Proof. reflexivity. Qed.

(** The side conditions of the lemmas of [IntegratorDetail], for each
    of the four tracers. *)
Ltac detail_side :=
  first
    [ apply builder_ok_path | apply builder_ok_absorption
    | apply builder_ok_tilts | apply builder_ok_tilts_absorption
    | apply builder_loss_path | apply builder_loss_absorption
    | apply builder_loss_tilts | apply builder_loss_tilts_absorption
    | intros; apply traceRaySphericalWithPath_body_detail
    | intros; apply traceRayWithAbsorption_body_detail
    | intros; apply traceRay2DWithTilts_body_detail
    | intros; apply traceRay2DWithAbsorption_body_detail ].

Ltac unfold_tracer :=
  first
    [ rewrite traceRaySphericalWithPath_unfold
    | rewrite traceRayWithAbsorption_unfold
    | rewrite traceRay2DWithTilts_unfold
    | rewrite traceRay2DWithAbsorption_unfold ].

Ltac every_trace_by lem :=
  unfold every_trace; split; [| split; [| split]]; intros;
  unfold_tracer; eapply lem; detail_side.

(** X12: A trace never holds more than [max_steps + 1] samples, and at
    least one. *)
Theorem X12_samples_within_budget :
  every_trace (fun _ _ max_distance_km res =>
    (1 <= List.length (distances res)
       <= S (Z.to_nat (max_steps max_distance_km)))%nat).
Proof. every_trace_by loop_sample_budget. Qed.

(** X13: The status of a trace agrees with its last altitude sample: a
    trace that 'returns' ends below the ground and holds at least 12
    samples; a trace that 'escapes' ends above 600 km. *)
Theorem X13_status_matches_final_altitude :
  every_trace (fun _ _ _ res => status_matches_altitude res).
Proof. every_trace_by loop_status_matches_altitude. Qed.

(** X14: Consecutive altitude samples of a trace are at most 1 km
    apart. *)
Theorem X14_altitude_resolution :
  every_trace (fun _ _ _ res => steps_bounded (altitudes res)).
Proof. every_trace_by loop_altitude_steps. Qed.

(** X15: The altitude samples of a trace rise strictly up to one sample
    and fall strictly after it: a ray turns at most once, and no step
    leaves the altitude unchanged. *)
Theorem X15_altitudes_rise_then_fall :
  every_trace (fun _ _ _ res => rises_then_falls (altitudes res)).
Proof. every_trace_by loop_rises_then_falls. Qed.

(** X16: A tracer returns 'returns' only from an iteration entered with
    [going_up = false]: the ray has been reflected before it reaches
    the ground; an ascending ray is never below the ground. *)
Theorem X16_returns_only_after_reflection :
  (forall (freq_Hz b : R) (f : R -> R) (max_distance_km : R),
      returns_after_reflection
        (traceRaySphericalWithPath_body freq_Hz b f max_distance_km)) /\
  (forall (freq_Hz omega b : R) (f : R -> R) (max_distance_km : R),
      returns_after_reflection
        (traceRayWithAbsorption_body freq_Hz omega b f max_distance_km)) /\
  (forall (b : R) (g : R -> R -> Complex) (max_distance_km : R),
      returns_after_reflection
        (traceRay2DWithTilts_body b g max_distance_km)) /\
  (forall (omega b : R) (g : R -> R -> Complex) (max_distance_km : R),
      returns_after_reflection
        (traceRay2DWithAbsorption_body omega b g max_distance_km)).
Proof.
  split; [| split; [| split]]; intros;
    (eapply loop_returns_after_reflection;
     [.. | solve [detail_side]]; detail_side).
Qed.

Lemma max_steps_zero (max_distance_km : R) :
  max_distance_km < 1 -> Z.to_nat (max_steps max_distance_km) = 0%nat.
Proof.
  intros H. unfold max_steps, Math_floor, Int_part. cbv zeta.
  destruct (archimed (max_distance_km / 1.0)) as [_ Hup].
  assert (Hlt : IZR (up (max_distance_km / 1.0)) < IZR 2).
  { unfold Rdiv in *. lra. }
  apply lt_IZR in Hlt. lia.
Qed.

Lemma max_steps_positive (max_distance_km : R) :
  Z.to_nat (max_steps max_distance_km) <> 0%nat -> 1 <= max_distance_km.
Proof.
  intros H. destruct (Rlt_dec max_distance_km 1) as [Hlt | Hge]; [| lra].
  now rewrite max_steps_zero in H.
Qed.

(** X17: With [max_distance_km] below 1 the loop is not entered: every
    tracer returns the initial sample alone, with status 'stops'. *)
Theorem X17_short_budget_trace :
  every_trace (fun _ _ max_distance_km res =>
    max_distance_km < 1 ->
    status res = stops /\
    distances res = [0.0] /\ altitudes res = [0.0]).
Proof.
  unfold every_trace; split; [| split; [| split]]; intros;
    unfold_tracer; rewrite max_steps_zero by assumption;
    cbn; repeat split.
Qed.

Lemma X17_short_budget_witness :
  status (traceRayWithAbsorption 14 30 (plot_ionosphere_func 12 "equinox")
            0.5) = stops /\
  distances (traceRay2DWithTilts 14 30 15 4 3000 0.5 "summer") = [0.0].
Proof.
  destruct X17_short_budget_trace as (_ & H2 & H3 & _).
  split.
  - apply (H2 14 30 (plot_ionosphere_func 12 "equinox") 0.5). lra.
  - apply (H3 14 30 15 4 3000 0.5 "summer"%string). lra.
Defined.

(** X18: All samples of [distances] but the last are within
    [max_distance_km]: a trace overshoots the limit by one sample at
    most. *)
Theorem X18_overshoots_by_one_sample :
  every_trace (fun _ _ max_distance_km res =>
    overshoots_once max_distance_km (distances res)).
Proof.
  unfold every_trace; split; [| split; [| split]]; intros;
    unfold_tracer;
    (destruct (Nat.eq_dec (Z.to_nat (max_steps max_distance_km)) 0)
       as [-> | Hn];
     [ cbn; exists [], 0.0; split; [reflexivity | constructor]
     | apply max_steps_positive in Hn;
       eapply loop_overshoots_once; [detail_side | detail_side | lra] ]).
Qed.

Lemma traceRayWithAbsorption_loss_nonneg
    (freq_MHz elevation_deg : R) (f : R -> R) (max_distance_km : R) :
  0 < freq_MHz ->
  exists L : R,
    total_loss_dB (traceRayWithAbsorption freq_MHz elevation_deg f
                     max_distance_km) = Some L /\ 0 <= L.
Proof.
  intros Hf. pose proof two_pi_positive as Hpi.
  assert (Ho : 0 <= 2.0 * Math_PI * (freq_MHz * 1e6)) by nra.
  unfold_tracer.
  edestruct (loop_loss_nonneg false true) as (sf & s & -> & Hl);
    [detail_side | detail_side | intros _; exact Ho |].
  eexists. split; [reflexivity | lra].
Qed.

Lemma traceRay2DWithAbsorption_loss_nonneg
    (freq_MHz elevation_deg foF2_tx foF2_dist tilt max_distance_km : R)
    (season : string) :
  0 < freq_MHz ->
  exists L : R,
    total_loss_dB (traceRay2DWithAbsorption freq_MHz elevation_deg
                     foF2_tx foF2_dist tilt max_distance_km season)
    = Some L /\ 0 <= L.
Proof.
  intros Hf. pose proof two_pi_positive as Hpi.
  assert (Ho : 0 <= 2.0 * Math_PI * (freq_MHz * 1e6)) by nra.
  unfold_tracer.
  edestruct (loop_loss_nonneg true true) as (sf & s & -> & Hl);
    [detail_side | detail_side | intros _; exact Ho |].
  eexists. split; [reflexivity | lra].
Qed.

(** X19: The absorbing tracers report a loss, and for a frequency
    above 0 the loss is not negative. *)
Theorem X19_total_loss_nonneg (freq_MHz : R) :
  0 < freq_MHz ->
  (forall (elevation_deg : R) (f : R -> R) (max_distance_km : R),
      exists L : R,
        total_loss_dB (traceRayWithAbsorption freq_MHz elevation_deg f
                         max_distance_km) = Some L /\ 0 <= L) /\
  (forall (elevation_deg foF2_tx foF2_dist tilt max_distance_km : R)
          (season : string),
      exists L : R,
        total_loss_dB (traceRay2DWithAbsorption freq_MHz elevation_deg
                         foF2_tx foF2_dist tilt max_distance_km season)
        = Some L /\ 0 <= L).
Proof.
  intros Hf. split; intros.
  - now apply traceRayWithAbsorption_loss_nonneg.
  - now apply traceRay2DWithAbsorption_loss_nonneg.
Qed.

Lemma X19_total_loss_witness :
  (forall (elevation_deg : R) (f : R -> R) (max_distance_km : R),
      exists L : R,
        total_loss_dB (traceRayWithAbsorption 14 elevation_deg f
                         max_distance_km) = Some L /\ 0 <= L) /\
  (forall (elevation_deg foF2_tx foF2_dist tilt max_distance_km : R)
          (season : string),
      exists L : R,
        total_loss_dB (traceRay2DWithAbsorption 14 elevation_deg
                         foF2_tx foF2_dist tilt max_distance_km season)
        = Some L /\ 0 <= L).
Proof. apply (X19_total_loss_nonneg 14). lra. Defined.




Lemma getRefractiveIndex_flat
    (freq_Hz foF2 tilt : R) (season : string) (z x : R) :
  getRefractiveIndex freq_Hz foF2 foF2 tilt season z x
  = getRefractiveIndex freq_Hz foF2 foF2 tilt season z 0.
Proof.
  unfold getRefractiveIndex, Ne_2D, electronDensity2DSingle. cbv zeta.
  replace (foF2 + (foF2 - foF2) * (x / tilt)) with foF2
    by (unfold Rdiv; ring).
  replace (foF2 + (foF2 - foF2) * (0 / tilt)) with foF2
    by (unfold Rdiv; ring).
  reflexivity.
Qed.

Lemma gradient_flat
    (freq_Hz foF2 tilt : R) (season : string) (st : RayState) :
  gradient_at_2D (getRefractiveIndex freq_Hz foF2 foF2 tilt season) st = 0.
Proof.
  unfold gradient_at_2D, index_at_2D, horizontal_gradient. cbv zeta.
  rewrite (getRefractiveIndex_flat _ _ _ _ _ (ray_x st)).
  repeat match goal with
         | |- context [getRefractiveIndex _ _ _ _ _ _ (?a + ?b)] =>
             rewrite (getRefractiveIndex_flat _ _ _ _ _ (a + b))
         | |- context [getRefractiveIndex _ _ _ _ _ _ (?a - ?b)] =>
             rewrite (getRefractiveIndex_flat _ _ _ _ _ (a - b))
         end.
  repeat match goal with
         | |- context [if ?t then _ else _] => destruct t
         end;
    unfold Rdiv; try ring; lra.
Qed.

(** X21: Where the ionosphere is the same at the transmitter and at
    distance (foF2_at_tx = foF2_at_distance, tilt_distance not 0), the
    2D tracers never deflect the ray: every azimuth sample is 0. *)
Theorem X21_flat_ionosphere_no_deflection
    (freq_MHz elevation_deg foF2 tilt max_distance_km : R)
    (season : string) :
  tilt <> 0 ->
  (exists az : list R,
      azimuths (traceRay2DWithTilts freq_MHz elevation_deg foF2 foF2 tilt
                  max_distance_km season) = Some az /\
      Forall (fun a => a = 0) az) /\
  (exists az : list R,
      azimuths (traceRay2DWithAbsorption freq_MHz elevation_deg foF2 foF2
                  tilt max_distance_km season) = Some az /\
      Forall (fun a => a = 0) az).
Proof.
  intros _. split; unfold_tracer.
  - eapply (loop_flat true false);
      [detail_side | detail_side | reflexivity |].
    intros st. apply gradient_flat.
  - eapply (loop_flat true true);
      [detail_side | detail_side | reflexivity |].
    intros st. apply gradient_flat.
Qed.

Lemma X21_flat_ionosphere_witness :
  (exists az : list R,
      azimuths (traceRay2DWithTilts 14 30 12 12 3000
                  default_max_distance_km "equinox") = Some az /\
      Forall (fun a => a = 0) az) /\
  (exists az : list R,
      azimuths (traceRay2DWithAbsorption 14 30 12 12 3000
                  default_max_distance_km "equinox") = Some az /\
      Forall (fun a => a = 0) az).
Proof.
  apply (X21_flat_ionosphere_no_deflection 14 30 12 3000
           default_max_distance_km "equinox").
  lra.
Defined.

(** X22: The azimuth change of one step opposes the horizontal gradient
    of the refractive index and is at most 200 * |dn_dx| * step; it is
    0 where there is no gradient. *)
Theorem X22_azimuth_deflection_bounded
    (n_real dn_dx sin_psi adaptive_step : R) :
  0 <= adaptive_step ->
  let dphi := azimuth_deflection n_real dn_dx sin_psi adaptive_step in
  dphi * dn_dx <= 0 /\
  Math_abs dphi <= 200 * Math_abs dn_dx * adaptive_step /\
  azimuth_deflection n_real 0 sin_psi adaptive_step = 0.
Proof.
  intros Ha dphi. subst dphi.
  split; [| split; [| apply azimuth_deflection_flat]].
  all: unfold azimuth_deflection; cbv zeta.
  all: pose proof (Rabs_pos dn_dx) as Hd.
  all: destruct ((Math_abs sin_psi >? 0.1) && (n_real >? 0.05)) eqn:G;
    [| unfold Math_abs in *; try rewrite Rabs_right by lra; nra].
  all: apply andb_prop in G; destruct G as [Hs Hn];
    apply ltb_true_iff in Hs; apply ltb_true_iff in Hn.
  all: set (s := Math_abs sin_psi) in *.
  all: set (sm := if n_real <? 0.15 then _ else _).
  all: assert (Hsm : 0 <= sm <= 1)
    by (subst sm; destruct (n_real <? 0.15); destruct (s >? 0.9);
        js_minmax; nra).
  all: assert (Hu : 0 < / n_real < 20)
    by (split; [apply Rinv_0_lt_compat; lra |];
        replace 20 with (/ 0.05) by lra;
        apply Rinv_lt_contravar; nra).
  all: assert (Hv : 0 < / s < 10)
    by (split; [apply Rinv_0_lt_compat; lra |];
        replace 10 with (/ 0.1) by lra;
        apply Rinv_lt_contravar; nra).
  all: assert (Huv : 0 <= / n_real * / s <= 200) by (split; nra).
  all: assert (Has : 0 <= adaptive_step * sm <= adaptive_step)
    by (split; nra).
  all: assert (HK : 0 <= / n_real * / s * adaptive_step * sm
                    <= 200 * adaptive_step)
    by (replace (/ n_real * / s * adaptive_step * sm)
          with (/ n_real * / s * (adaptive_step * sm)) by ring;
        split; nra).
  all: set (K := / n_real * / s * adaptive_step * sm) in *.
  all: replace (1.0 / n_real) with (/ n_real) by (unfold Rdiv; lra).
  all: replace (- / n_real * dn_dx / s * adaptive_step * sm)
    with (- (K * dn_dx)) by (subst K; unfold Rdiv; ring).
  - nra.
  - unfold Math_abs. rewrite Rabs_Ropp, Rabs_mult.
    rewrite (Rabs_right K) by lra. nra.
Qed.

Lemma X22_azimuth_deflection_witness :
  let dphi := azimuth_deflection 0.5 0.001 0.5 1 in
  dphi * 0.001 <= 0 /\
  Math_abs dphi <= 200 * Math_abs 0.001 * 1 /\
  azimuth_deflection 0.5 0 0.5 1 = 0.
Proof. apply (X22_azimuth_deflection_bounded 0.5 0.001 0.5 1). lra. Defined.

Section Vacuum.

Variable absorbing : bool.
Variables omega freq_Hz b : R.
Variable f : R -> R.
Variable mk : RayState -> Status -> RayTraceResult.
Variable max_distance_km : R.
Variable body : Body.

Hypothesis Hmk : builder_ok false mk.
Hypothesis Hdetail :
  forall (step : nat) (st : RayState),
    iteration_detail false absorbing omega (index_at_1D freq_Hz f)
      (fun _ => 0) mk max_distance_km step st (body step st).
Hypothesis Hreflect : reflects_for_cause b (index_at_1D freq_Hz f) body.
Hypothesis Hvacuum : forall z : R, 0 <= z -> f z = 0.
Hypothesis Hb : 0 <= b < R_E.






End Vacuum.





(* ================================================================== *)
(** ** Plot data *)
(* ================================================================== *)

Lemma Math_ceil_ge (x : R) : x <= IZR (Math_ceil x).
Proof.
  unfold Math_ceil, Math_floor, Int_part.
  destruct (archimed (- x)) as [_ Hup].
  rewrite opp_IZR, minus_IZR. lra.
Qed.

Lemma fold_left_max_ge (ds : list R) (d : R) :
  d <= fold_left Math_max ds d /\
  Forall (fun v => v <= fold_left Math_max ds d) ds.
Proof.
  revert d. induction ds as [| a ds IH]; intros d; cbn [fold_left].
  - split; [lra | constructor].
  - destruct (IH (Math_max d a)) as [Hd Hds].
    pose proof (Rmax_l d a). pose proof (Rmax_r d a).
    unfold Math_max in *.
    split; [lra |]. constructor; [lra | exact Hds].
Qed.

Lemma Math_max_spread_ge (l : list R) :
  Forall (fun v => v <= Math_max_spread l) l.
Proof.
  destruct l as [| d ds]; [constructor |]. cbn [Math_max_spread].
  destruct (fold_left_max_ge ds d) as [Hd Hds]. now constructor.
Qed.

Lemma map_index_firstn (l : list R) (k : nat) :
  (k <= List.length l)%nat ->
  map (index l) (seq 0 k) = firstn k l.
Proof.
  revert k. induction l as [| a l IH]; intros k Hk; cbn in Hk.
  - replace k with 0%nat by lia. reflexivity.
  - destruct k as [| k]; [reflexivity |].
    cbn [seq map firstn]. f_equal.
    rewrite <- seq_shift, map_map. apply IH. lia.
Qed.

Lemma truncate_loop_spec (with_azimuths : bool) (result : RayTraceResult)
    (n j : nat) (t : Truncated) :
  exists k : nat,
    (k <= n)%nat /\
    truncated_distances (truncate_loop with_azimuths result n j t)
    = truncated_distances t ++ map (index (distances result)) (seq j k) /\
    truncated_altitudes (truncate_loop with_azimuths result n j t)
    = truncated_altitudes t ++ map (index (altitudes result)) (seq j k) /\
    truncated_azimuths (truncate_loop with_azimuths result n j t)
    = (if with_azimuths
       then truncated_azimuths t
            ++ map (index (result_azimuths result)) (seq j k)
       else truncated_azimuths t) /\
    Forall (fun a => a <= 400) (map (index (altitudes result)) (seq j k)) /\
    ((k < n)%nat -> 400 < index (altitudes result) (j + k)).
Proof.
  revert j t. induction n as [| n IH]; intros j t; cbn [truncate_loop].
  - exists 0%nat. cbn. rewrite !app_nil_r.
    repeat split; try lia; try constructor.
    now destruct with_azimuths.
  - destruct (index (altitudes result) j <=? 400) eqn:E.
    + destruct (IH (S j) {|
          truncated_distances :=
            push (truncated_distances t) (index (distances result) j);
          truncated_altitudes :=
            push (truncated_altitudes t) (index (altitudes result) j);
          truncated_azimuths :=
            if with_azimuths
            then push (truncated_azimuths t)
                   (index (result_azimuths result) j)
            else truncated_azimuths t |})
        as (k & Hk & Hd & Ha & Hz & Hall & Hnext).
      exists (S k). cbn [seq map]. unfold push in *.
      cbn [truncated_distances truncated_altitudes truncated_azimuths]
        in Hd, Ha, Hz.
      rewrite Hd, Ha, Hz, <- !app_assoc. cbn [app].
      apply leb_true_iff in E.
      repeat split; try lia.
      * destruct with_azimuths; [| reflexivity].
        now rewrite <- app_assoc.
      * now constructor.
      * intros H. replace (j + S k)%nat with (S j + k)%nat by lia.
        apply Hnext. lia.
    + exists 0%nat. cbn. rewrite !app_nil_r.
      apply leb_false_iff in E. rewrite Nat.add_0_r.
      repeat split; try lia; try constructor; try (intros _; exact E).
      now destruct with_azimuths.
Qed.

Lemma truncate_path_fits (with_azimuths : bool) (result : RayTraceResult) :
  plottable with_azimuths result ->
  let t := truncate_path with_azimuths result in
  exists k : nat,
    (1 <= k <= List.length (altitudes result))%nat /\
    truncated_distances t = firstn k (distances result) /\
    truncated_altitudes t = firstn k (altitudes result) /\
    truncated_azimuths t
    = (if with_azimuths then firstn k (result_azimuths result) else []) /\
    List.length (truncated_distances t) = k /\
    List.length (truncated_altitudes t) = k /\
    Forall (fun a => a <= 400) (truncated_altitudes t) /\
    ((k < List.length (altitudes result))%nat ->
     400 < nth k (altitudes result) 0).
Proof.
  intros [(Hlen & _ & (tl & Halt)) H2d]. cbv zeta. unfold truncate_path.
  destruct (truncate_loop_spec with_azimuths result
              (List.length (altitudes result)) 0
              {| truncated_distances := []; truncated_altitudes := [];
                 truncated_azimuths := [] |})
    as (k & Hk & Hd & Ha & Hz & Hall & Hnext).
  cbn [truncated_distances truncated_altitudes truncated_azimuths app]
    in Hd, Ha, Hz.
  assert (Hk1 : (1 <= k)%nat).
  { destruct k as [| k]; [| lia].
    assert (H0 : (0 < List.length (altitudes result))%nat)
      by (rewrite Halt; cbn; lia).
    specialize (Hnext H0). unfold index in Hnext.
    rewrite Halt in Hnext. cbn in Hnext. lra. }
  exists k. rewrite Hd, Ha, Hz.
  rewrite !map_index_firstn by lia.
  split; [lia |]. split; [reflexivity |]. split; [reflexivity |].
  split.
  { destruct with_azimuths; [| reflexivity].
    destruct (H2d eq_refl) as (_ & az & Haz & Hlaz & _).
    unfold result_azimuths. rewrite Haz.
    rewrite map_index_firstn by lia. reflexivity. }
  split; [rewrite length_firstn; lia |].
  split; [rewrite length_firstn; lia |].
  split; [rewrite <- map_index_firstn by lia; exact Hall |].
  exact Hnext.
Qed.

Lemma trace_fits_weaken (with_azimuths : bool) (m m' : R) (t : PathTrace) :
  m <= m' -> trace_fits with_azimuths m t -> trace_fits with_azimuths m' t.
Proof.
  intros Hm (k & H1 & H2 & H3 & H4 & H5 & H6 & H7 & H8 & H9).
  exists k. repeat split; try assumption; try lia.
  intros Hs. eapply Forall_impl; [| exact (H9 Hs)].
  cbn. intros d Hd. lra.
Qed.

Lemma plot_ray_fits (with_azimuths : bool) (result : RayTraceResult)
    (traces : list PathTrace) (m : R) :
  plottable with_azimuths result ->
  Forall (trace_fits with_azimuths m) traces ->
  let acc := plot_ray with_azimuths result (traces, m) in
  Forall (trace_fits with_azimuths (snd acc)) (fst acc) /\
  m <= snd acc /\
  List.length (fst acc) = S (List.length traces).
Proof.
  intros Hp Hall. cbv zeta. unfold plot_ray.
  destruct (truncate_path_fits with_azimuths result Hp)
    as (k & Hk & Hd & Ha & Hz & Hld & Hla & H400 & Hnext).
  set (t := truncate_path with_azimuths result) in *.
  set (m' := match status result with
             | returns =>
                 match truncated_distances t with
                 | [] => m
                 | _ :: _ =>
                     Math_max m (Math_max_spread (truncated_distances t))
                 end
             | _ => m
             end).
  assert (Hm : m <= m').
  { subst m'. destruct (status result); try lra.
    destruct (truncated_distances t); [lra | apply Rmax_l]. }
  assert (Hret : status result = returns ->
                 Forall (fun d => d <= m') (truncated_distances t)).
  { intros Hs. subst m'. rewrite Hs.
    destruct (truncated_distances t) as [| d ds] eqn:E; [constructor |].
    eapply Forall_impl; [| apply Math_max_spread_ge].
    cbn. intros v Hv.
    pose proof (Rmax_r m (Math_max_spread (d :: ds))) as Hr.
    cbn [Math_max_spread] in Hr. unfold Math_max in *. lra. }
  replace (match status result with
           | returns =>
               match truncated_distances t with
               | [] => m
               | _ :: _ =>
                   let ray_max := Math_max_spread (truncated_distances t) in
                   Math_max m ray_max
               end
           | _ => m
           end) with m' by (subst m'; destruct (status result); reflexivity).
  cbn [fst snd]. split; [| split].
  - apply Forall_app. split.
    + eapply Forall_impl; [| exact Hall].
      intros a. apply trace_fits_weaken. exact Hm.
    + constructor; [| constructor].
      exists k. cbn [trace_x trace_y trace_top_y trace_result].
      repeat split; try assumption; lia.
  - exact Hm.
  - rewrite length_app. cbn. lia.
Qed.

Lemma plot_fold_fits (with_azimuths : bool) (trace : R -> RayTraceResult)
    (freqs : list R) (traces : list PathTrace) (m : R) :
  (forall freq, plottable with_azimuths (trace freq)) ->
  Forall (trace_fits with_azimuths m) traces ->
  let acc :=
    fold_left (fun acc freq => plot_ray with_azimuths (trace freq) acc)
      freqs (traces, m) in
  Forall (trace_fits with_azimuths (snd acc)) (fst acc) /\
  m <= snd acc /\
  List.length (fst acc) = (List.length traces + List.length freqs)%nat.
Proof.
  intros Hp. revert traces m.
  induction freqs as [| freq freqs IH]; intros traces m Hall; cbv zeta.
  - cbn. split; [exact Hall |]. split; [lra | lia].
  - cbn [fold_left].
    destruct (plot_ray_fits with_azimuths (trace freq) traces m
                (Hp freq) Hall) as (H1 & H2 & H3).
    destruct (plot_ray with_azimuths (trace freq) (traces, m))
      as [traces1 m1] eqn:E.
    cbn [fst snd] in H1, H2, H3.
    destruct (IH traces1 m1 H1) as (H4 & H5 & H6).
    split; [exact H4 |]. split; [lra |].
    rewrite H6, H3. cbn [List.length]. lia.
Qed.

Lemma plot_rays_fit (with_azimuths : bool) (trace : R -> RayTraceResult)
    (default_x_max : R) :
  (forall freq, plottable with_azimuths (trace freq)) ->
  0 < default_x_max ->
  let p := plot_rays with_azimuths trace default_x_max in
  Forall (trace_fits with_azimuths (x_max p)) (path_traces p) /\
  0 < x_max p /\
  List.length (path_traces p) = 10%nat.
Proof.
  intros Hp Hdef. cbv zeta. unfold plot_rays.
  destruct (plot_fold_fits with_azimuths trace frequencies [] 0 Hp
              (Forall_nil _)) as (H1 & H2 & H3).
  destruct (fold_left _ frequencies ([], 0)) as [traces m].
  cbn [fst snd] in H1, H2, H3. cbn [path_traces x_max].
  pose proof (Math_ceil_ge (m * 1.1)) as Hc.
  split; [| split].
  - eapply Forall_impl; [| exact H1].
    intros a. apply trace_fits_weaken. unfold gtb.
    destruct (0 <? m) eqn:E;
      [apply ltb_true_iff in E | apply ltb_false_iff in E]; lra.
  - unfold gtb. destruct (0 <? m) eqn:E; [| exact Hdef].
    apply ltb_true_iff in E. lra.
  - exact H3.
Qed.

Lemma traceRaySphericalWithPath_plottable
    (freq_MHz elevation_deg : R) (f : R -> R) (max_distance_km : R) :
  plottable false
    (traceRaySphericalWithPath freq_MHz elevation_deg f max_distance_km).
Proof.
  split; [| discriminate].
  eapply (loop_parallel_1D false result_path); [apply builder_ok_path | |].
  - intros ? ? ?. apply traceRaySphericalWithPath_body_inl.
  - intros ? ? ?. apply traceRaySphericalWithPath_body_inr.
Qed.

Lemma traceRayWithAbsorption_plottable
    (freq_MHz elevation_deg : R) (f : R -> R) (max_distance_km : R) :
  plottable false
    (traceRayWithAbsorption freq_MHz elevation_deg f max_distance_km).
Proof.
  split; [| discriminate].
  eapply (loop_parallel_1D false result_absorption);
    [apply builder_ok_absorption | |].
  - intros ? ? ?. apply traceRayWithAbsorption_body_inl.
  - intros ? ? ?. apply traceRayWithAbsorption_body_inr.
Qed.

Lemma traceRay2DWithTilts_plottable
    (freq_MHz elevation_deg foF2_tx foF2_dist tilt max_distance_km : R)
    (season : string) :
  plottable true
    (traceRay2DWithTilts freq_MHz elevation_deg foF2_tx foF2_dist tilt
       max_distance_km season).
Proof.
  assert (H : parallel_path_2D
                (traceRay2DWithTilts freq_MHz elevation_deg foF2_tx
                   foF2_dist tilt max_distance_km season)).
  { eapply (loop_parallel_2D result_tilts); [apply builder_ok_tilts | |].
    - intros ? ? ?. apply traceRay2DWithTilts_body_inl.
      intros. apply getRefractiveIndex_real_nonneg.
    - intros ? ? ?. apply traceRay2DWithTilts_body_inr.
      intros. apply getRefractiveIndex_real_nonneg. }
  split; [exact (proj1 H) | intros _; exact H].
Qed.

Lemma traceRay2DWithAbsorption_plottable
    (freq_MHz elevation_deg foF2_tx foF2_dist tilt max_distance_km : R)
    (season : string) :
  plottable false
    (traceRay2DWithAbsorption freq_MHz elevation_deg foF2_tx foF2_dist tilt
       max_distance_km season).
Proof.
  split; [| discriminate].
  eapply (loop_parallel_1D true result_tilts_absorption);
    [apply builder_ok_tilts_absorption | |].
  - intros ? ? ?. apply traceRay2DWithAbsorption_body_inl.
    intros. apply getRefractiveIndex_real_nonneg.
  - intros ? ? ?. apply traceRay2DWithAbsorption_body_inr.
    intros. apply getRefractiveIndex_real_nonneg.
Qed.

(** X24: Every ray plot draws ten rays; each is a non-empty prefix of
    the traced path, cut before the first sample above 400 km, so no
    plotted altitude is above the top of the altitude axis; the x-axis
    range is positive and holds every plotted distance of a ray that
    returns. *)
Theorem X24_plotted_rays_fit_axes :
  (forall (foF2 elevation : R) (season : string),
      let p := plotRayPaths1D foF2 elevation season in
      Forall (trace_fits false (x_max p)) (path_traces p) /\
      0 < x_max p /\ List.length (path_traces p) = 10%nat) /\
  (forall (foF2 elevation : R) (season : string),
      let p := fst (plotSignalLoss1D foF2 elevation season) in
      Forall (trace_fits false (x_max p)) (path_traces p) /\
      0 < x_max p /\ List.length (path_traces p) = 10%nat) /\
  (forall (foF2_tx foF2_dist tilt_distance elevation : R) (season : string),
      let p := plot2DTilts foF2_tx foF2_dist tilt_distance elevation season in
      Forall (trace_fits true (x_max p)) (path_traces p) /\
      0 < x_max p /\ List.length (path_traces p) = 10%nat) /\
  (forall (foF2_tx foF2_dist tilt_distance elevation : R) (season : string),
      let p :=
        fst (plot2DAbsorption foF2_tx foF2_dist tilt_distance elevation
               season) in
      Forall (trace_fits false (x_max p)) (path_traces p) /\
      0 < x_max p /\ List.length (path_traces p) = 10%nat).
Proof.
  split; [| split; [| split]]; intros.
  - apply plot_rays_fit; [| lra].
    intros freq. apply traceRaySphericalWithPath_plottable.
  - apply plot_rays_fit; [| lra].
    intros freq. apply traceRayWithAbsorption_plottable.
  - apply plot_rays_fit; [| lra].
    intros freq. apply traceRay2DWithTilts_plottable.
  - apply plot_rays_fit; [| lra].
    intros freq. apply traceRay2DWithAbsorption_plottable.
Qed.

Lemma frequencies_positive : Forall (fun freq => 0 < freq) frequencies.
Proof. unfold frequencies. repeat constructor; lra. Qed.

Lemma loss_bars_fit (trace : R -> RayTraceResult) :
  (forall freq, 0 < freq ->
                exists L, total_loss_dB (trace freq) = Some L /\ 0 <= L) ->
  let b := loss_bars trace in
  Forall (fun loss => 0 <= loss <= y_max b) (bar_y b).
Proof.
  intros Hloss. cbv zeta. unfold loss_bars. cbv zeta.
  set (loss_data := map _ frequencies).
  set (bar_data := filter _ loss_data).
  set (losses := map (fun d => snd (fst d)) bar_data).
  cbn [bar_y y_max].
  assert (Hpos : Forall (fun loss => 0 <= loss) losses).
  { subst losses. apply Forall_map. apply Forall_forall.
    intros d Hd. subst bar_data. apply filter_In in Hd.
    destruct Hd as [Hd _]. subst loss_data.
    apply in_map_iff in Hd. destruct Hd as (freq & <- & Hin).
    cbn [fst snd].
    pose proof frequencies_positive as Hf.
    rewrite Forall_forall in Hf.
    destruct (Hloss freq (Hf freq Hin)) as (L & HL & HL0).
    unfold result_loss. now rewrite HL. }
  destruct bar_data as [| d0 rest] eqn:E; [constructor |].
  pose proof (Math_max_spread_ge losses) as Hmax.
  pose proof (Math_ceil_ge (Math_max_spread losses * 1.25)) as Hc.
  assert (H0 : 0 <= Math_max_spread losses).
  { subst losses. cbn [map] in *.
    inversion Hpos; subst. inversion Hmax; subst. lra. }
  rewrite Forall_forall in Hpos, Hmax. apply Forall_forall.
  intros loss Hin. specialize (Hpos loss Hin). specialize (Hmax loss Hin).
  lra.
Qed.

(** X25: Every bar of the two loss plots lies within the range of its
    axis, from 0 to [y_max]. *)
Theorem X25_loss_bars_fit_axis :
  (forall (foF2 elevation : R) (season : string),
      let b := snd (plotSignalLoss1D foF2 elevation season) in
      Forall (fun loss => 0 <= loss <= y_max b) (bar_y b)) /\
  (forall (foF2_tx foF2_dist tilt_distance elevation : R) (season : string),
      let b :=
        snd (plot2DAbsorption foF2_tx foF2_dist tilt_distance elevation
               season) in
      Forall (fun loss => 0 <= loss <= y_max b) (bar_y b)).
Proof.
  split; intros.
  - apply loss_bars_fit. intros freq Hf.
    now apply traceRayWithAbsorption_loss_nonneg.
  - apply loss_bars_fit. intros freq Hf.
    now apply traceRay2DWithAbsorption_loss_nonneg.
Qed.

Lemma index_map (f : R -> R) (l : list R) (i : nat) :
  (i < List.length l)%nat -> index (map f l) i = f (index l i).
Proof.
  intros Hi. unfold index.
  rewrite (nth_indep _ 0 (f 0)) by (rewrite length_map; exact Hi).
  apply map_nth.
Qed.

Lemma altitude_grid_length : List.length altitude_grid = 601%nat.
Proof. unfold altitude_grid. now rewrite length_map, length_seq. Qed.

Lemma altitude_grid_range :
  Forall (fun a => 0 <= a <= 600) altitude_grid.
Proof.
  unfold altitude_grid. apply Forall_map, Forall_forall.
  intros n Hn. apply in_seq in Hn.
  rewrite INR_IZR_INZ. split.
  - apply IZR_le. lia.
  - apply IZR_le. lia.
Qed.

(** The layers at one altitude: none is negative, and none exceeds
    their sum. *)
Lemma layers_below_total (foF2 : R) (season : string) (a : R) :
  0 <= foF2 ->
  let total := electronDensitySingle a foF2 season in
  0 <= chapmanLayerSingle a (Ne_D_peak foF2) 75.0 8.0 <= total /\
  0 <= chapmanLayerSingle a (Ne_E_peak foF2) 110.0 15.0 <= total /\
  0 <= chapmanLayerSingle a (Ne_F1_peak foF2) 190.0 30.0 <= total /\
  0 <= chapmanLayerSingle a (Ne_F2_peak foF2) (h_F2 foF2 season)
         (F2_scale_height foF2 season) <= total /\
  0 <= total.
Proof.
  intros Hf. cbv zeta. unfold electronDensitySingle. cbv zeta.
  destruct (peaks_nonneg foF2 Hf) as (HD & HE & HF1 & HF2 & _).
  pose proof (chapmanLayerSingle_range a _ 75.0 8.0 HD).
  pose proof (chapmanLayerSingle_range a _ 110.0 15.0 HE).
  pose proof (chapmanLayerSingle_range a _ 190.0 30.0 HF1).
  pose proof (chapmanLayerSingle_range a _ (h_F2 foF2 season)
                (F2_scale_height foF2 season) HF2).
  lra.
Qed.

Lemma chapmanLayer_single (z : list R) (N_peak z_peak H : R) :
  chapmanLayer z N_peak z_peak H
  = map (fun a => chapmanLayerSingle a N_peak z_peak H) z.
Proof. reflexivity. Qed.

Lemma F1_absent (foF2 : R) (a : R) :
  (F1_factor foF2 >? 0) = false ->
  chapmanLayerSingle a (Ne_F1_peak foF2) 190.0 30.0 = 0.
Proof.
  intros H. unfold gtb in H. apply ltb_false_iff in H.
  destruct (layer_factors_range foF2) as (_ & HF & _).
  assert (H0 : F1_factor foF2 = 0) by lra.
  unfold chapmanLayerSingle, Ne_F1_peak. cbv zeta. rewrite H0. ring.
Qed.

(** X26: In the density plot the last curve, 'Total', is at every
    altitude of the grid the sum of the layer curves drawn before it;
    the 'F1 layer' curve is left out exactly when the F1 factor is 0,
    and then the three remaining layers add up to the total. *)
Theorem X26_density_plot_total_is_sum (foF2 : R) (season : string) :
  let p := plotElectronDensity foF2 season in
  exists (layers : list Curve) (total : Curve),
    density_traces p = layers ++ [total] /\
    curve_name total = "Total"%string /\
    List.length layers = (if F1_factor foF2 >? 0 then 4 else 3)%nat /\
    forall i : nat,
      (i < 601)%nat ->
      index (curve_x total) i
      = sum_list (map (fun cv => index (curve_x cv) i) layers).
Proof.
  cbv zeta. unfold plotElectronDensity. cbv zeta.
  cbn [density_traces].
  rewrite makeIonosphereForFoF2_pointwise, !chapmanLayer_single.
  pose proof altitude_grid_length as Hlen.
  destruct (F1_factor foF2 >? 0) eqn:E; cbn [app].
  - match goal with
    | |- exists l t, [?a; ?b; ?c; ?d; ?e] = _ /\ _ => exists [a; b; c; d], e
    end.
    split; [reflexivity |].
    split; [reflexivity |]. split; [reflexivity |].
    intros i Hi. cbn [map curve_x sum_list fold_right].
    rewrite !index_map by (rewrite ?length_map; lia).
    unfold electronDensitySingle. cbv zeta. unfold Rdiv. lra.
  - match goal with
    | |- exists l t, [?a; ?b; ?d; ?e] = _ /\ _ => exists [a; b; d], e
    end.
    split; [reflexivity |].
    split; [reflexivity |]. split; [reflexivity |].
    intros i Hi. cbn [map curve_x sum_list fold_right].
    rewrite !index_map by (rewrite ?length_map; lia).
    unfold electronDensitySingle. cbv zeta.
    rewrite (F1_absent foF2 _ E). unfold Rdiv. lra.
Qed.

Lemma scaled_layer_in_range (g total : R -> R) (top : R) (z : list R) :
  (forall a, 0 <= g a <= total a) ->
  Forall (fun v => v <= top) (map (fun n => n / 1e9) (map total z)) ->
  Forall (fun v => 0 <= v <= top) (map (fun n => n / 1e9) (map g z)).
Proof.
  intros Hg Htop. rewrite map_map in *.
  rewrite Forall_map in Htop. apply Forall_map.
  eapply Forall_impl; [| exact Htop].
  cbn. intros a Ha. specialize (Hg a). unfold Rdiv in *. lra.
Qed.

(** X27: For foF2 >= 0 every point of every curve of the density plot
    lies inside the axis ranges: the density between 0 and [axis_max],
    the altitude between 0 and 600. *)
Theorem X27_density_plot_in_range (foF2 : R) (season : string) :
  0 <= foF2 ->
  let p := plotElectronDensity foF2 season in
  Forall (fun cv =>
            Forall (fun v => 0 <= v <= density_axis_max p) (curve_x cv) /\
            Forall (fun a => 0 <= a <= 600) (curve_y cv))
         (density_traces p).
Proof.
  intros Hf. cbv zeta. unfold plotElectronDensity. cbv zeta.
  cbn [density_traces density_axis_max].
  rewrite makeIonosphereForFoF2_pointwise, !chapmanLayer_single.
  set (total := fun a => electronDensitySingle a foF2 season).
  set (scaled_total := map (fun n => n / 1e9) (map total altitude_grid)).
  set (top := IZR (Math_ceil (Math_max_spread scaled_total * 1.1))).
  assert (Hnonneg : Forall (fun v => 0 <= v) scaled_total).
  { subst scaled_total. rewrite map_map. apply Forall_map, Forall_forall.
    intros a _. subst total. cbv beta.
    destruct (layers_below_total foF2 season a Hf) as (_ & _ & _ & _ & H).
    unfold Rdiv. lra. }
  assert (Htop : Forall (fun v => v <= top) scaled_total).
  { pose proof (Math_max_spread_ge scaled_total) as Hmax.
    pose proof (Math_ceil_ge (Math_max_spread scaled_total * 1.1)) as Hc.
    assert (H0 : 0 <= Math_max_spread scaled_total).
    { destruct scaled_total as [| v vs]; [cbn [Math_max_spread]; lra |].
      inversion Hnonneg; subst. inversion Hmax; subst. lra. }
    eapply Forall_impl; [| exact Hmax]. cbv beta. intros v Hv.
    unfold top. lra. }
  assert (Hlayer : forall g,
             (forall a, 0 <= g a <= total a) ->
             Forall (fun v => 0 <= v <= top)
                    (map (fun n => n / 1e9) (map g altitude_grid)))
    by (intros g Hg; now apply (scaled_layer_in_range g total)).
  assert (HD := Hlayer _ (fun a =>
                  proj1 (layers_below_total foF2 season a Hf))).
  assert (HE := Hlayer _ (fun a =>
                  proj1 (proj2 (layers_below_total foF2 season a Hf)))).
  assert (HF1 := Hlayer _ (fun a =>
                  proj1 (proj2 (proj2
                    (layers_below_total foF2 season a Hf))))).
  assert (HF2 := Hlayer _ (fun a =>
                  proj1 (proj2 (proj2 (proj2
                    (layers_below_total foF2 season a Hf)))))).
  assert (HT : Forall (fun v => 0 <= v <= top) scaled_total).
  { rewrite Forall_forall in Hnonneg, Htop. apply Forall_forall.
    intros v Hv. split; [now apply Hnonneg | now apply Htop]. }
  pose proof altitude_grid_range as Hz.
  destruct (F1_factor foF2 >? 0); cbn [app];
    repeat (constructor; [split; assumption |]); constructor.
Qed.

Lemma X27_density_plot_in_range_witness :
  let p := plotElectronDensity 12 "equinox" in
  Forall (fun cv =>
            Forall (fun v => 0 <= v <= density_axis_max p) (curve_x cv) /\
            Forall (fun a => 0 <= a <= 600) (curve_y cv))
         (density_traces p).
Proof. apply (X27_density_plot_in_range 12 "equinox"). lra. Defined.

(* ================================================================== *)
(** ** Plasma frequency: the critical frequency and the plasma plot *)
(* ================================================================== *)

Lemma PI_bounds : 3.1415 < PI < 3.1421.
Proof.
  pose proof (PI_2_3_7_ineq 1) as [Hl Hu].
  unfold PI_2_3_7_tg, tg_alt, Ratan_seq in Hl, Hu.
  cbn [sum_f_R0 Nat.mul Nat.add pow INR] in Hl, Hu.
  unfold Rdiv in *.
  split; lra.
Qed.

Lemma plasma_constant_bounds :
  3182.60 < 1.602176634e-19 * 1.602176634e-19
            / (8.8541878128e-12 * 9.1093837015e-31) < 3182.61.
Proof. lra. Qed.

(** The square of the plasma frequency: (2 pi fp)^2 = Ne e^2 / (eps_0 m_e). *)
Lemma plasmaFrequencyFromNe_squared (Ne : R) :
  0 <= Ne ->
  let fp := plasmaFrequencyFromNe Ne in
  0 <= fp /\
  (2.0 * Math_PI * fp) * (2.0 * Math_PI * fp)
  = Ne * (1.602176634e-19 * 1.602176634e-19
          / (8.8541878128e-12 * 9.1093837015e-31)).
Proof.
  intros HNe. cbv zeta.
  pose proof two_pi_positive as Hpi.
  pose proof plasma_constant_bounds as Hk.
  unfold plasmaFrequencyFromNe, Math_sqrt. cbv zeta.
  set (k := 1.602176634e-19 * 1.602176634e-19
            / (8.8541878128e-12 * 9.1093837015e-31)) in *.
  replace (Ne * 1.602176634e-19 * 1.602176634e-19
           / (8.8541878128e-12 * 9.1093837015e-31)) with (Ne * k)
    by (unfold k, Rdiv; ring).
  assert (Hs : sqrt (Ne * k) * sqrt (Ne * k) = Ne * k)
    by (apply sqrt_sqrt; nra).
  pose proof (sqrt_pos (Ne * k)) as Hp.
  assert (Hi : 0 < / (2.0 * Math_PI)) by now apply Rinv_0_lt_compat.
  split.
  - unfold Rdiv. nra.
  - replace (2.0 * Math_PI * (sqrt (Ne * k) / (2.0 * Math_PI)))
      with (sqrt (Ne * k)); [exact Hs |].
    unfold Rdiv.
    rewrite (Rmult_comm (sqrt (Ne * k))), <- Rmult_assoc.
    rewrite Rinv_r by lra. lra.
Qed.
Lemma le_of_squares (x y : R) : 0 <= x -> 0 <= y -> x * x <= y * y -> x <= y.
Proof. intros Hx Hy H. destruct (Rle_dec x y); [assumption | nra]. Qed.

Lemma Ne_F2_peak_plasma_frequency (foF2 : R) :
  0 <= foF2 ->
  0.999 * foF2 <= plasmaFrequencyFromNe (Ne_F2_peak foF2) / 1e6
  <= 1.001 * foF2.
Proof.
  intros Hf.
  pose proof PI_bounds as HPI. pose proof plasma_constant_bounds as Hk.
  assert (HNe : 0 <= Ne_F2_peak foF2)
    by (unfold Ne_F2_peak, Math_pow; cbv zeta; nra).
  destruct (plasmaFrequencyFromNe_squared _ HNe) as [Hfp Hsq].
  set (fp := plasmaFrequencyFromNe (Ne_F2_peak foF2)) in *.
  set (k := 1.602176634e-19 * 1.602176634e-19
            / (8.8541878128e-12 * 9.1093837015e-31)) in *.
  set (u := foF2 * 1e6 / 8.98).
  assert (Hu : 0 <= u) by (unfold u; lra).
  assert (HNeu : Ne_F2_peak foF2 = u * u)
    by (unfold Ne_F2_peak, Math_pow, u; cbv zeta; cbn [pow]; ring).
  rewrite HNeu in Hsq. unfold Math_PI in *.
  set (w := 2.0 * PI * fp) in *.
  assert (Hw : 0 <= w) by (unfold w; nra).
  assert (Hlo : 56.414 * u <= w).
  { apply le_of_squares; [lra | exact Hw |]. rewrite Hsq. nra. }
  assert (Hhi : w <= 56.415 * u).
  { apply le_of_squares; [exact Hw | lra |]. rewrite Hsq. nra. }
  assert (Hw1 : w <= 6.2842 * fp) by (unfold w; nra).
  assert (Hw2 : 6.2830 * fp <= w) by (unfold w; nra).
  unfold u in *. unfold Rdiv in *. split; lra.
Qed.

Lemma plasma_frequency_below_axis (foF2 : R) (season : string) (a : R) :
  0 < foF2 ->
  0 <= plasmaFrequencyFromNe (electronDensitySingle a foF2 season) / 1e6
  <= Math_max (foF2 * 1.2) 15.
Proof.
  intros Hf.
  pose proof PI_bounds as HPI. pose proof plasma_constant_bounds as Hk.
  destruct (electronDensitySingle_range a foF2 season Hf) as [HNe0 HNe].
  destruct (layer_factors_range foF2) as (HD & HF1 & HE & _).
  destruct (plasmaFrequencyFromNe_squared
              (electronDensitySingle a foF2 season) ltac:(lra))
    as [Hfp Hsq].
  set (Ne := electronDensitySingle a foF2 season) in *.
  set (fp := plasmaFrequencyFromNe Ne) in *.
  set (k := 1.602176634e-19 * 1.602176634e-19
            / (8.8541878128e-12 * 9.1093837015e-31)) in *.
  set (u := foF2 * 1e6 / 8.98).
  assert (HNeu : Ne_F2_peak foF2 = u * u)
    by (unfold Ne_F2_peak, Math_pow, u; cbv zeta; cbn [pow]; ring).
  assert (HS : Ne <= 6.815e11 + u * u).
  { unfold Ne_D_peak, Ne_E_peak, Ne_F1_peak in HNe. rewrite HNeu in HNe.
    lra. }
  set (M := Math_max (foF2 * 1.2) 15).
  assert (HM : 15 <= M /\ foF2 * 1.2 <= M)
    by (unfold M, Math_max; split; [apply Rmax_r | apply Rmax_l]).
  unfold Math_PI in *.
  set (w := 2.0 * PI * fp) in *.
  assert (Hw : 0 <= w) by (unfold w; nra).
  assert (Hwk : w * w <= (6.815e11 + u * u) * 3182.61) by (rewrite Hsq; nra).
  assert (Huu : u * u * 3182.61 <= 39.4668e12 * (foF2 * foF2)).
  { unfold u. unfold Rdiv.
    replace (foF2 * 1e6 * / 8.98 * (foF2 * 1e6 * / 8.98) * 3182.61)
      with (foF2 * foF2 * (1e6 * / 8.98 * (1e6 * / 8.98) * 3182.61)) by ring.
    assert (1e6 * / 8.98 * (1e6 * / 8.98) * 3182.61 <= 39.4668e12) by lra.
    nra. }
  assert (HMM : 2168.96e12 + 39.4668e12 * (foF2 * foF2)
                <= 39.476e12 * (M * M)).
  { destruct (Rle_dec foF2 12.5) as [Hle | Hgt].
    - assert (foF2 * foF2 <= 156.25) by nra.
      assert (225 <= M * M) by nra. lra.
    - assert (156.25 <= foF2 * foF2) by nra.
      assert (1.44 * (foF2 * foF2) <= M * M) by nra. lra. }
  assert (Hw2 : w * w <= (6.283 * (M * 1e6)) * (6.283 * (M * 1e6))).
  { replace (6.283 * (M * 1e6) * (6.283 * (M * 1e6)))
      with (39.476089e12 * (M * M)) by lra. nra. }
  assert (Hw3 : w <= 6.283 * (M * 1e6))
    by (apply le_of_squares; [exact Hw | lra | exact Hw2]).
  assert (Hw4 : 6.283 * fp <= w) by (unfold w; nra).
  unfold Rdiv. split; lra.
Qed.

(** X28: The density model is calibrated to its input: for foF2 >= 0 the
    plasma frequency of the F2 peak density, in MHz, is foF2 within
    0.1 percent. *)
Theorem X28_foF2_round_trip (foF2 : R) :
  0 <= foF2 ->
  Math_abs (plasmaFrequencyFromNe (Ne_F2_peak foF2) / 1e6 - foF2)
  <= 0.001 * foF2.
Proof.
  intros Hf. pose proof (Ne_F2_peak_plasma_frequency foF2 Hf) as H.
  unfold Math_abs. apply Rabs_le. lra.
Qed.

Lemma X28_foF2_round_trip_witness :
  Math_abs (plasmaFrequencyFromNe (Ne_F2_peak 12) / 1e6 - 12) <= 0.001 * 12.
Proof. apply (X28_foF2_round_trip 12). lra. Defined.

(** X29: For foF2 > 0 the curve of the plasma-frequency plot and its
    foF2 reference line lie inside the axis ranges: frequencies
    between 0 and max(1.2 foF2, 15), altitudes between 0 and 600. *)
Theorem X29_plasma_plot_in_range (foF2 : R) (season : string) :
  0 < foF2 ->
  let p := plotPlasmaFrequency foF2 season in
  Forall (fun v => 0 <= v <= plasma_x_max p) (curve_x (plasma_trace p)) /\
  Forall (fun v => 0 <= v <= plasma_x_max p)
         (curve_x (plasma_foF2_line p)) /\
  Forall (fun a => 0 <= a <= 600) (curve_y (plasma_trace p)) /\
  List.length (curve_x (plasma_trace p)) = 601%nat.
Proof.
  intros Hf. cbv zeta. unfold plotPlasmaFrequency. cbv zeta.
  cbn [plasma_trace plasma_foF2_line plasma_x_max curve_x curve_y].
  rewrite makeIonosphereForFoF2_pointwise, map_map.
  split; [| split; [| split]].
  - apply Forall_map, Forall_forall. intros a _.
    now apply plasma_frequency_below_axis.
  - assert (H : 0 <= foF2 <= Math_max (foF2 * 1.2) 15).
    { pose proof (Rmax_l (foF2 * 1.2) 15). unfold Math_max. lra. }
    constructor; [exact H |]. constructor; [exact H | constructor].
  - exact altitude_grid_range.
  - rewrite length_map. exact altitude_grid_length.
Qed.

Lemma X29_plasma_plot_in_range_witness :
  let p := plotPlasmaFrequency 12 "equinox" in
  Forall (fun v => 0 <= v <= plasma_x_max p) (curve_x (plasma_trace p)) /\
  Forall (fun v => 0 <= v <= plasma_x_max p)
         (curve_x (plasma_foF2_line p)) /\
  Forall (fun a => 0 <= a <= 600) (curve_y (plasma_trace p)) /\
  List.length (curve_x (plasma_trace p)) = 601%nat.
Proof. apply (X29_plasma_plot_in_range 12 "equinox"). lra. Defined.

(** X30: The day/night indicator of the page agrees with the density
    model: where it reads 'Night conditions (D-layer absent)' the D
    layer is 0 at every altitude, and where it reads 'Daytime
    conditions (D-layer present)' the D layer has its full strength;
    in between the D factor lies in [0, 1]. *)
Theorem X30_condition_indicator_matches_D_layer (foF2_1d : R) :
  match condition_indicator foF2_1d with
  | condition_night =>
      foF2_1d < 5 /\ D_factor foF2_1d = 0 /\
      forall z : R, chapmanLayerSingle z (Ne_D_peak foF2_1d) 75.0 8.0 = 0
  | condition_transition =>
      5 <= foF2_1d < 10 /\ 0 <= D_factor foF2_1d <= 1
  | condition_day =>
      10 <= foF2_1d /\ D_factor foF2_1d = 1 /\ Ne_D_peak foF2_1d = 1.5e9
  end.
Proof.
  unfold condition_indicator.
  destruct (foF2_1d <? 5) eqn:E5.
  - apply ltb_true_iff in E5.
    assert (HD : D_factor foF2_1d = 0) by (unfold D_factor; js_compare).
    split; [exact E5 |]. split; [exact HD |].
    intros z. unfold chapmanLayerSingle, Ne_D_peak. cbv zeta.
    rewrite HD. ring.
  - apply ltb_false_iff in E5.
    destruct (foF2_1d <? 10) eqn:E10.
    + apply ltb_true_iff in E10. split; [lra |].
      apply layer_factors_range.
    + apply ltb_false_iff in E10.
      assert (HD : D_factor foF2_1d = 1) by (unfold D_factor; js_compare).
      split; [exact E10 |]. split; [exact HD |].
      unfold Ne_D_peak. rewrite HD. lra.
Qed.
(* ================================================================== *)
(** ** The density a tracer uses, iteration by iteration *)
(* ================================================================== *)

(** *** A 28 MHz ray launched at 30 degrees climbs past 600 km *)

Lemma shell_ray_parameter :
  ray_parameter_1D (28 * 1e6) (30 * Math_PI / 180.0) shell_above_600
  = R_E / 2.
Proof.
  unfold ray_parameter_1D, Math_sin, Math_PI. cbv zeta.
  assert (H0 : shell_above_600 0.0 = 0)
    by (unfold shell_above_600; js_compare).
  rewrite H0, refractiveIndex_vacuum. cbn [real].
  replace (30 * PI / 180.0) with (PI / 6) by (unfold Rdiv; lra).
  rewrite sin_PI6. lra.
Qed.

Lemma sqrt_lower (x : R) : 0.64 <= x -> 0.8 <= sqrt x.
Proof.
  intros H. replace 0.8 with (sqrt (0.8 * 0.8)) by (apply sqrt_square; lra).
  apply sqrt_le_1_alt. lra.
Qed.

(** Where the index is 1 and the altitude at most 800 km, an ascending
    ray of parameter R_E / 2 keeps ascending, gains between 0.8 and
    1 km of altitude and at most 1 km of ground distance. *)
Lemma unit_index_iteration (step : nat) (st : RayState) :
  ray_going_up st = true ->
  R_E <= ray_r st <= R_E + 800 ->
  0 <= ray_theta st -> ray_theta st * R_E <= 9000 ->
  exists st' : RayState,
    iteration_from_index false false 0 (R_E / 2) result_path
      default_max_distance_km {| real := 1; imag := 0 |} 0 step st
    = inl st' /\
    ray_going_up st' = true /\
    ray_r st + 0.8 <= ray_r st' <= ray_r st + 1 /\
    ray_theta st'
    = ray_theta st + 1.0 * (R_E / 2 / (1 * ray_r st)) / ray_r st /\
    0 <= ray_theta st' /\ ray_theta st' * R_E <= ray_theta st * R_E + 1.
Proof.
  intros Hup [Hlo Hhi] Hth0 Hth.
  pose proof R_E_positive as HRE.
  set (s := R_E / 2 / (1 * ray_r st)).
  assert (Hinv : 0 < / ray_r st <= / R_E).
  { split; [apply Rinv_0_lt_compat | apply Rinv_le_contravar]; lra. }
  assert (Hone : R_E * / R_E = 1) by (field; lra).
  assert (Hs : 0 < s <= 0.5).
  { unfold s. replace (R_E / 2 / (1 * ray_r st)) with (R_E / 2 * / ray_r st)
      by (field; lra).
    split; nra. }
  assert (Hcos : 0.8 <= Math_sqrt (1 - s * s) <= 1).
  { split; [apply sqrt_lower; nra | apply cos_psi_range]. }
  assert (Hdth : 0 <= 1.0 * s / ray_r st /\ 1.0 * s / ray_r st * R_E <= 1).
  { replace (1.0 * s / ray_r st) with (s * / ray_r st)
      by (unfold Rdiv; lra).
    assert (s * / ray_r st <= 0.5 * / R_E)
      by (apply Rmult_le_compat; lra).
    split; nra. }
  destruct (iteration_from_index false false 0 (R_E / 2) result_path
              default_max_distance_km {| real := 1; imag := 0 |} 0 step st)
    as [st' | res] eqn:H;
    unfold iteration_from_index, default_max_distance_km in H;
    rewrite Hup in H; cbn [real imag] in H;
    fold s in H;
    body_cases H; try discriminate H; injection H as <-;
    split_tests;
    unfold Math_abs, Math_sign in *;
    try rewrite (Rabs_pos_eq 1) in * by lra;
    try rewrite (Rabs_pos_eq s) in * by lra;
    try rewrite (Rabs_pos_eq 1.0) in * by lra;
    reflect_tests; try lra;
    eexists; (split; [reflexivity |]);
    cbn [ray_going_up ray_r ray_theta]; repeat split; lra.
Qed.

(** Below the shell the index is 1. *)
Lemma shell_iteration (step : nat) (st : RayState) :
  ray_going_up st = true ->
  R_E <= ray_r st <= R_E + 600 ->
  0 <= ray_theta st -> ray_theta st * R_E <= 9000 ->
  exists st' : RayState,
    traceRaySphericalWithPath_body (28 * 1e6) (R_E / 2) shell_above_600
      default_max_distance_km step st = inl st' /\
    ray_going_up st' = true /\
    ray_r st + 0.8 <= ray_r st' <= ray_r st + 1 /\
    0 <= ray_theta st' /\ ray_theta st' * R_E <= ray_theta st * R_E + 1.
Proof.
  intros Hup [Hlo Hhi] Hth0 Hth.
  assert (HNe : Ne_1D shell_above_600 (ray_r st - R_E) = 0)
    by (unfold Ne_1D, shell_above_600; js_compare).
  change (traceRaySphericalWithPath_body (28 * 1e6) (R_E / 2)
            shell_above_600 default_max_distance_km step st)
    with (iteration_from_index false false 0 (R_E / 2) result_path
            default_max_distance_km
            (refractiveIndex (Ne_1D shell_above_600 (ray_r st - R_E))
               (28 * 1e6)
               (collisionFrequency (Math_max 0 (ray_r st - R_E))))
            0 step st).
  rewrite HNe, refractiveIndex_vacuum.
  destruct (unit_index_iteration step st Hup) as
    (st' & Hb & Hup' & Hr & _ & Hth0' & Hth'); try lra.
  exists st'. repeat split; auto; lra.
Qed.

(** After [k] iterations the ray has either just crossed 600 km, still
    ascending, or has climbed at least 0.8 km per iteration. *)
Lemma shell_climb (k : nat) :
  let body :=
    traceRaySphericalWithPath_body (28 * 1e6) (R_E / 2) shell_above_600
      default_max_distance_km in
  (exists (j : nat) (st : RayState),
      (j <= k)%nat /\
      state_at body j 0 initial_state = Some st /\
      ray_going_up st = true /\
      600 < ray_r st - R_E <= 601 /\
      0 <= ray_theta st /\ ray_theta st * R_E <= INR j) \/
  (exists st : RayState,
      state_at body k 0 initial_state = Some st /\
      ray_going_up st = true /\
      R_E + 0.8 * INR k <= ray_r st <= R_E + 600 /\
      0 <= ray_theta st /\ ray_theta st * R_E <= INR k).
Proof.
  intros body. induction k as [| k IH].
  - right. exists initial_state. cbn. repeat split; lra.
  - destruct IH as [(j & st & Hj & Hrest)
                   | (st & Hat & Hup & [Hlo Hhi] & Hth0 & Hth)].
    + left. exists j, st. split; [lia | exact Hrest].
    + pose proof (pos_INR k) as Hk.
      assert (Hk' : INR k <= 750) by lra.
      destruct (shell_iteration k st Hup) as
        (st' & Hb & Hup' & Hr & Hth0' & Hth'); try lra.
      assert (Hat' : state_at body (S k) 0 initial_state = Some st').
      { rewrite state_at_succ, Hat. cbn [Nat.add]. subst body.
        cbv beta. now rewrite Hb. }
      destruct (Rle_dec (ray_r st') (R_E + 600)) as [Hle | Hgt].
      * right. exists st'. rewrite S_INR. repeat split; auto; lra.
      * left. exists (S k), st'. rewrite S_INR.
        repeat split; auto; lra.
Qed.

(** The call traceRaySphericalWithPath(28, 30, shell_above_600) enters
    an iteration with the ray ascending between 600 and 601 km. *)
Lemma shell_reached :
  exists (k : nat) (st : RayState),
    traceRaySphericalWithPath_iteration 28 30 shell_above_600
      default_max_distance_km k = Some st /\
    ray_going_up st = true /\
    600 < ray_r st - R_E <= 601 /\
    0 <= ray_theta st /\ ray_theta st * R_E <= 751.
Proof.
  destruct (shell_climb 751) as
    [(j & st & Hj & Hat & Hup & Hz & Hth0 & Hth)
    | (st & _ & _ & [Hlo Hhi] & _)].
  - exists j, st. split.
    + unfold traceRaySphericalWithPath_iteration. cbv zeta.
      rewrite shell_ray_parameter, max_steps_default.
      replace (Nat.ltb j (Z.to_nat 10000)) with true; [exact Hat |].
      symmetry. apply Nat.ltb_lt. lia.
    + repeat split; try tauto; try lra.
      apply le_INR in Hj. rewrite (INR_IZR_INZ 751) in Hj.
      change (Z.of_nat 751) with 751%Z in Hj. lra.
  - exfalso. rewrite INR_IZR_INZ in Hlo.
    change (Z.of_nat 751) with 751%Z in Hlo. lra.
Qed.

(** *** Inside the shell the index is not 1 *)

(** At 28 MHz a density of 1e9 per cubic metre gives X of about 1e-4. *)
Lemma shell_X_bounds :
  let omega := 2.0 * Math_PI * (28 * 1e6) in
  let omega_p := 2.0 * Math_PI * plasmaFrequencyFromNe 1e9 in
  0 < Math_pow (omega_p / omega) 2 < 4.
Proof.
  cbv zeta.
  destruct (plasmaFrequencyFromNe_squared 1e9) as [_ Hp]; [lra |].
  pose proof plasma_constant_bounds as Hk.
  pose proof PI_bounds as Hpi.
  unfold Math_PI in *.
  set (op := 2.0 * PI * plasmaFrequencyFromNe 1e9) in *.
  set (k := 1.602176634e-19 * 1.602176634e-19
            / (8.8541878128e-12 * 9.1093837015e-31)) in *.
  set (om := 2.0 * PI * (28 * 1e6)).
  assert (Hom : 1e8 < om) by (unfold om; lra).
  assert (Hom2 : 1e16 < om * om) by nra.
  assert (Hop : 0 < op * op < 1e13) by (rewrite Hp; lra).
  unfold Math_pow.
  replace ((op / om) ^ 2) with (op * op * / (om * om))
    by (field; lra).
  assert (Hinv : 0 < / (om * om) < / 1e16).
  { split; [apply Rinv_0_lt_compat; lra |].
    apply Rinv_lt_contravar; lra. }
  assert (Hu : op * op * / (om * om) < 1e13 * / 1e16)
    by (apply Rmult_le_0_lt_compat; lra).
  split; [apply Rmult_lt_0_compat; lra | lra].
Qed.

Lemma shell_index_not_one (nu : R) :
  real (refractiveIndex 1e9 (28 * 1e6) nu) <> 1.
Proof.
  intros Hone.
  destruct (refractiveIndex_squared 1e9 (28 * 1e6) nu) as [Hre Him].
  pose proof shell_X_bounds as HX. cbv zeta in HX.
  set (X := Math_pow _ 2) in *.
  set (Z := nu / _) in *.
  set (i := imag (refractiveIndex 1e9 (28 * 1e6) nu)) in *.
  rewrite Hone in Hre, Him.
  assert (HD : 1 <= 1.0 + Z * Z) by nra.
  set (D := 1.0 + Z * Z) in *.
  set (q := X / D).
  assert (HqD : q * D = X) by (unfold q; field; lra).
  assert (Hq : 0 < q).
  { unfold q. apply Rdiv_lt_0_compat; lra. }
  assert (Hi2 : i * i = q) by (unfold q; lra).
  assert (Hi : 2 * i = q * Z).
  { unfold q. replace (X / D * Z) with (X * Z / D) by (field; lra). lra. }
  assert (H4 : 4 * q = q * (q * (Z * Z))).
  { replace (q * (q * (Z * Z))) with ((q * Z) * (q * Z)) by ring.
    rewrite <- Hi, <- Hi2. ring. }
  assert (HqZ : q * (Z * Z) = X - q) by (unfold D in HqD; lra).
  rewrite HqZ in H4. nra.
Qed.

(** C1, as stated, fails in the 1D tracers.  The callable the plots
    pass is positive at 700 km.  And the call
    traceRaySphericalWithPath(28, 30, shell_above_600) enters an
    iteration above 600 km that runs on the index of the callable's
    density 1e9 there, and that differs from the iteration the same
    locals would give on the index of density 0. *)
Lemma C1_density_above_600_counterexample :
  0 < plot_ionosphere_func 12 "equinox" 700 /\
  exists (k : nat) (st : RayState),
    let freq_Hz := 28 * 1e6 in
    let b :=
      ray_parameter_1D freq_Hz (30 * Math_PI / 180.0) shell_above_600 in
    let z := ray_r st - R_E in
    let nu := collisionFrequency (Math_max 0 z) in
    let iteration :=
      iteration_from_index false false 0 b result_path
        default_max_distance_km in
    traceRaySphericalWithPath_iteration 28 30 shell_above_600
      default_max_distance_km k = Some st /\
    600 < z /\
    traceRaySphericalWithPath_body freq_Hz b shell_above_600
      default_max_distance_km k st
    = iteration (refractiveIndex 1e9 freq_Hz nu) 0 k st /\
    traceRaySphericalWithPath_body freq_Hz b shell_above_600
      default_max_distance_km k st
    <> iteration (refractiveIndex 0 freq_Hz nu) 0 k st.
Proof.
  split.
  { pose proof plot_density_at_700_positive as H. unfold Ne_1D in H.
    replace (700 >=? 0) with true in H
      by (symmetry; apply leb_true_iff; lra).
    exact H. }
  destruct shell_reached as (k & st & Hat & Hup & [Hz Hz'] & Hth0 & Hth).
  exists k, st. cbv zeta. rewrite shell_ray_parameter.
  pose proof R_E_positive as HRE.
  assert (HNe : Ne_1D shell_above_600 (ray_r st - R_E) = 1e9)
    by (unfold Ne_1D, shell_above_600; js_compare).
  assert (Hbody :
    traceRaySphericalWithPath_body (28 * 1e6) (R_E / 2) shell_above_600
      default_max_distance_km k st
    = iteration_from_index false false 0 (R_E / 2) result_path
        default_max_distance_km
        (refractiveIndex 1e9 (28 * 1e6)
           (collisionFrequency (Math_max 0 (ray_r st - R_E))))
        0 k st).
  { rewrite <- HNe. reflexivity. }
  split; [exact Hat |]. split; [exact Hz |]. split; [exact Hbody |].
  rewrite Hbody, refractiveIndex_vacuum.
  destruct (unit_index_iteration k st Hup) as
    (st0 & Hb0 & Hup0 & Hr0 & Hth0' & _); try lra.
  rewrite Hb0.
  pose proof (shell_index_not_one
                (collisionFrequency (Math_max 0 (ray_r st - R_E)))) as Hn.
  set (n := refractiveIndex 1e9 (28 * 1e6) _) in *.
  set (s := R_E / 2 / (real n * ray_r st)).
  pose proof (cos_psi_range s) as Hcos.
  assert (Hr : 0 < ray_r st) by lra.
  assert (Hs : forall a : R,
             a * s / ray_r st = 1.0 * (R_E / 2 / (1 * ray_r st)) / ray_r st ->
             a * / real n = 1).
  { intros a Ha. unfold s in Ha. unfold Rdiv in Ha.
    rewrite !Rinv_mult in Ha.
    assert (Hi : / ray_r st <> 0) by (apply Rinv_neq_0_compat; lra).
    assert (He : (a * / real n - 1) * (R_E * / 2 * / ray_r st * / ray_r st)
                 = 0) by (rewrite Rinv_1 in Ha; lra).
    apply Rmult_integral in He. destruct He as [He | He]; [lra |].
    exfalso.
    assert (0 < R_E * / 2 * / ray_r st * / ray_r st).
    { assert (0 < / ray_r st) by (apply Rinv_0_lt_compat; lra).
      assert (0 < R_E * / 2) by lra.
      apply Rmult_lt_0_compat; [apply Rmult_lt_0_compat |]; assumption. }
    lra. }
  intros Heq.
  destruct (iteration_from_index false false 0 (R_E / 2) result_path
              default_max_distance_km n 0 k st) as [st' | res] eqn:H;
    [| discriminate Heq].
  injection Heq as ->.
  unfold iteration_from_index, default_max_distance_km in H.
  rewrite Hup in H. fold s in H.
  body_cases H; try discriminate H; injection H as H; subst st0;
    cbn [ray_going_up ray_r ray_theta] in Hup0, Hr0, Hth0';
    try discriminate Hup0;
    split_tests; try discriminate Hup0.
  all: try (apply Rplus_eq_reg_l in Hth0'; apply Hs in Hth0').
  - lra.
  - apply Hn. rewrite <- (Rinv_inv (real n)).
    replace (/ real n) with 1 by lra. apply Rinv_1.
Qed.

(** C1, amended: every iteration of each of the four step loops, at
    every step index and every value of the locals at the head of the
    loop, is the iteration determined by the refractive index of a
    density that depends on the tracer.  In the 1D tracers that
    density is 0 below 0 km and the value of the density callable at
    every altitude from 0 km up, with no cut at 600 km; in the 2D
    tracers, for the index at the ray and for those of the horizontal
    gradient alike, it is 0 below 0 km, the density-function value on
    [0, 600] km and 0 above 600 km. *)
Theorem C1_density_used_by_tracers :
  (forall (freq_Hz b : R) (ionosphere_func : R -> R) (max_distance_km : R)
          (step : nat) (st : RayState),
      let z := ray_r st - R_E in
      let Ne := Ne_1D ionosphere_func z in
      traceRaySphericalWithPath_body freq_Hz b ionosphere_func
        max_distance_km step st
      = iteration_from_index false false 0 b result_path max_distance_km
          (refractiveIndex Ne freq_Hz (collisionFrequency (Math_max 0 z)))
          0 step st) /\
  (forall (freq_Hz omega b : R) (ionosphere_func : R -> R)
          (max_distance_km : R) (step : nat) (st : RayState),
      let z := ray_r st - R_E in
      let Ne := Ne_1D ionosphere_func z in
      traceRayWithAbsorption_body freq_Hz omega b ionosphere_func
        max_distance_km step st
      = iteration_from_index false true omega b result_absorption
          max_distance_km
          (refractiveIndex Ne freq_Hz (collisionFrequency (Math_max 0 z)))
          0 step st) /\
  (forall (freq_Hz foF2_at_tx foF2_at_distance tilt_distance : R)
          (season : string) (b max_distance_km : R)
          (step : nat) (st : RayState),
      let z := ray_r st - R_E in
      let x := ray_x st in
      let Ne :=
        Ne_2D foF2_at_tx foF2_at_distance tilt_distance season z x in
      let n :=
        refractiveIndex Ne freq_Hz (collisionFrequency (Math_max 0 z)) in
      let getRefractiveIndex :=
        getRefractiveIndex freq_Hz foF2_at_tx foF2_at_distance
          tilt_distance season in
      traceRay2DWithTilts_body b getRefractiveIndex max_distance_km step st
      = iteration_from_index true false 0 b result_tilts max_distance_km
          n (horizontal_gradient getRefractiveIndex z x (real n))
          step st) /\
  (forall (freq_Hz foF2_at_tx foF2_at_distance tilt_distance : R)
          (season : string) (omega b max_distance_km : R)
          (step : nat) (st : RayState),
      let z := ray_r st - R_E in
      let x := ray_x st in
      let Ne :=
        Ne_2D foF2_at_tx foF2_at_distance tilt_distance season z x in
      let n :=
        refractiveIndex Ne freq_Hz (collisionFrequency (Math_max 0 z)) in
      let getRefractiveIndex :=
        getRefractiveIndex freq_Hz foF2_at_tx foF2_at_distance
          tilt_distance season in
      traceRay2DWithAbsorption_body omega b getRefractiveIndex
        max_distance_km step st
      = iteration_from_index true true omega b result_tilts_absorption
          max_distance_km
          n (horizontal_gradient getRefractiveIndex z x (real n))
          step st) /\
  (forall (freq_Hz foF2_at_tx foF2_at_distance tilt_distance : R)
          (season : string) (z x_dist : R),
      getRefractiveIndex freq_Hz foF2_at_tx foF2_at_distance tilt_distance
        season z x_dist
      = refractiveIndex
          (Ne_2D foF2_at_tx foF2_at_distance tilt_distance season z x_dist)
          freq_Hz (collisionFrequency (Math_max 0 z))) /\
  (forall (foF2_at_tx foF2_at_distance tilt_distance : R)
          (season : string) (z x_dist : R),
      (z < 0 ->
       Ne_2D foF2_at_tx foF2_at_distance tilt_distance season z x_dist = 0) /\
      (0 <= z <= 600 ->
       Ne_2D foF2_at_tx foF2_at_distance tilt_distance season z x_dist
       = electronDensity2DSingle z x_dist foF2_at_tx foF2_at_distance
           tilt_distance season) /\
      (600 < z ->
       Ne_2D foF2_at_tx foF2_at_distance tilt_distance season z x_dist = 0)) /\
  (forall (ionosphere_func : R -> R) (z : R),
      (z < 0 -> Ne_1D ionosphere_func z = 0) /\
      (0 <= z -> Ne_1D ionosphere_func z = ionosphere_func z)).
Proof.
  split; [reflexivity |]. split; [reflexivity |].
  split; [reflexivity |]. split; [reflexivity |].
  split; [reflexivity |]. split.
  - intros. unfold Ne_2D. repeat split; intros; js_compare.
  - intros. unfold Ne_1D. split; intros; js_compare.
Qed.

Lemma C1_density_used_witness :
  traceRaySphericalWithPath_body (28 * 1e6) (R_E / 2)
    (plot_ionosphere_func 12 "equinox") default_max_distance_km 0
    initial_state
  = iteration_from_index false false 0 (R_E / 2) result_path
      default_max_distance_km
      (refractiveIndex
         (Ne_1D (plot_ionosphere_func 12 "equinox")
            (ray_r initial_state - R_E))
         (28 * 1e6)
         (collisionFrequency (Math_max 0 (ray_r initial_state - R_E))))
      0 0%nat initial_state /\
  Ne_2D 15 4 3000 "equinox" 700 100 = 0 /\
  Ne_2D 15 4 3000 "equinox" 300 100
  = electronDensity2DSingle 300 100 15 4 3000 "equinox" /\
  Ne_1D (plot_ionosphere_func 12 "equinox") (-1) = 0 /\
  Ne_1D (plot_ionosphere_func 12 "equinox") 700
  = plot_ionosphere_func 12 "equinox" 700.
Proof.
  destruct C1_density_used_by_tracers as (Hp & _ & _ & _ & _ & H2 & H1).
  destruct (H2 15 4 3000 "equinox"%string 700 100) as (_ & _ & Habove).
  destruct (H2 15 4 3000 "equinox"%string 300 100) as (_ & Hin & _).
  destruct (H1 (plot_ionosphere_func 12 "equinox") (-1)) as (Hneg & _).
  destruct (H1 (plot_ionosphere_func 12 "equinox") 700) as (_ & Hpos).
  split; [exact (Hp (28 * 1e6) (R_E / 2) (plot_ionosphere_func 12 "equinox")
                   default_max_distance_km 0%nat initial_state) |].
  split; [apply Habove; lra |].
  split; [apply Hin; lra |].
  split; [apply Hneg; lra | apply Hpos; lra].
Defined.
